(** * Rexpay payment service: a shallow embedding and its properties

    The development follows the TypeScript sources:
    - [Status]            : the status mapping of
                            [services/rexpay/RexpayV3Service.ts] and [helpers.ts];
    - [Service]           : the subaccount metrics map of
                            [services/rexpay/RexpayV3Service.ts];
    - [ConfiguredService] : the configured variant of the same class (the one
                            holding [subaccountSelection] in its configuration).

    JavaScript numbers are modelled exactly: counters and timestamps are
    integers ([Z]), rates and scores are rationals ([Q]); rounding of IEEE
    doubles is not modelled. *)

From Stdlib Require Import Bool Arith ZArith QArith Qminmax Qround.
From Stdlib Require Import List String Ascii Lia Lqa.
Import ListNotations.

Local Open Scope string_scope.
Local Open Scope Z_scope.

(* ================================================================== *)
(** * Status mapping *)
(* ================================================================== *)

Module Status.

Local Open Scope string_scope.

(** [enum PaymentStatus] *)
Inductive PaymentStatus : Set := PENDING | SUCCESS | FAILED.

(** [String.prototype.toLowerCase], on the ASCII range.  Outside ASCII the
    only characters JavaScript folds to an ASCII letter are U+212A (to "k")
    and U+0130 (to "i" followed by U+0307); neither can produce one of the
    words the switch below compares with, so the mapping of statuses is not
    affected by leaving the other characters alone. *)
Definition lower_char (c : ascii) : ascii :=
  let n := nat_of_ascii c in
  if ((65 <=? n) && (n <=? 90))%nat then ascii_of_nat (n + 32) else c.

Fixpoint toLowerCase (s : string) : string :=
  match s with
  | EmptyString => EmptyString
  | String c r => String (lower_char c) (toLowerCase r)
  end.

(** [function handleRexpayResponseStatus(status: string)] of
    [RexpayV3Service.ts]; [None] is an [undefined] or [null] status, for
    which [status?.toLowerCase()] is [undefined] and the switch falls to
    [default]. *)
Definition handleRexpayResponseStatus (status : option string) : PaymentStatus :=
  match option_map toLowerCase status with
  | Some l =>
      if (l =? "success") || (l =? "completed") then SUCCESS
      else if (l =? "failed") || (l =? "error") then FAILED
      else if (l =? "pending") || (l =? "processing") then PENDING
      else PENDING
  | None => PENDING
  end.

(** [enum RexpayStatus] of [helpers.ts], with the string each member
    stands for. *)
Inductive RexpayStatus : Set :=
  RPENDING | RSUCCESS | RFAILED | RPROCESSING.

Definition RexpayStatus_value (s : RexpayStatus) : string :=
  match s with
  | RPENDING => "PENDING"
  | RSUCCESS => "SUCCESS"
  | RFAILED => "FAILED"
  | RPROCESSING => "PROCESSING"
  end.

(** [handleRexpayResponseStatus] of [helpers.ts]: a switch on the string,
    without case folding. *)
Definition helpers_handleRexpayResponseStatus (status : string) : PaymentStatus :=
  if status =? RexpayStatus_value RSUCCESS then SUCCESS
  else if status =? RexpayStatus_value RFAILED then FAILED
  else if (status =? RexpayStatus_value RPENDING)
          || (status =? RexpayStatus_value RPROCESSING) then PENDING
  else PENDING.

(** A string without upper-case ASCII letters. *)
Definition is_lower (s : string) : Prop := toLowerCase s = s.

End Status.

(* ================================================================== *)
(** * Subaccount metrics (RexpayV3Service.ts) *)
(* ================================================================== *)

(** [interface SubaccountMetrics] *)
Record SubaccountMetrics : Set := mkMetrics {
  uuid : string;
  successRate : Q;
  lastUsed : Z;
  totalTransactions : Z;
  successfulTransactions : Z
}.

(** A JavaScript [Map<string, SubaccountMetrics>]: keys are unique and
    iteration follows insertion order, so the map is an association list in
    insertion order. *)
Module JsMap.

Definition t : Set := list (string * SubaccountMetrics).

Definition empty : t := [].

Fixpoint get (k : string) (m : t) : option SubaccountMetrics :=
  match m with
  | [] => None
  | (k', v) :: r => if String.eqb k' k then Some v else get k r
  end.

Definition has (k : string) (m : t) : bool :=
  match get k m with Some _ => true | None => false end.

(** [Map.prototype.set]: an existing key keeps its place in the iteration
    order, a new key goes last. *)
Fixpoint set (k : string) (v : SubaccountMetrics) (m : t) : t :=
  match m with
  | [] => [(k, v)]
  | (k', v') :: r =>
      if String.eqb k' k then (k, v) :: r else (k', v') :: set k v r
  end.

Definition values (m : t) : list SubaccountMetrics := map snd m.

Definition size (m : t) : nat := List.length m.

End JsMap.

Definition Qltb (a b : Q) : bool := negb (Qle_bool b a).

Module Service.

(** The comparator's score in [selectOptimalSubaccount]:
    [a.successRate * 0.7 + (1 / (now - a.lastUsed + 1)) * 0.3]. *)
Definition weightedScore (now : Z) (a : SubaccountMetrics) : Q :=
  (successRate a * (7 # 10) + (1 / inject_Z (now - lastUsed a + 1)) * (3 # 10))%Q.

(** The comparator passed to [sort]: [weightedScoreB - weightedScoreA]. *)
Definition compareFn (now : Z) (a b : SubaccountMetrics) : Q :=
  (weightedScore now b - weightedScore now a)%Q.

(** [Array.prototype.sort] is stable: insertion sort, an element staying
    before the ones it does not compare greater than. *)
Fixpoint insert_sorted (cmp : SubaccountMetrics -> SubaccountMetrics -> Q)
  (x : SubaccountMetrics) (l : list SubaccountMetrics) : list SubaccountMetrics :=
  match l with
  | [] => [x]
  | y :: r => if Qle_bool (cmp x y) 0 then x :: y :: r
              else y :: insert_sorted cmp x r
  end.

Definition sort (cmp : SubaccountMetrics -> SubaccountMetrics -> Q)
  (l : list SubaccountMetrics) : list SubaccountMetrics :=
  fold_right (insert_sorted cmp) [] l.

(** The metrics of a subaccount seen for the first time. *)
Definition fresh (id : string) : SubaccountMetrics :=
  mkMetrics id 1 0 0 0.

(** The [forEach] that initialises the metrics of new subaccounts. *)
Definition register (subaccounts : list string) (m : JsMap.t) : JsMap.t :=
  fold_left
    (fun acc sub => if JsMap.has sub acc then acc else JsMap.set sub (fresh sub) acc)
    subaccounts m.

(** [selectOptimalSubaccount(subaccounts)]; [subaccounts] is the list of
    the [uuid]s of the fetched subaccounts and [now] is [Date.now()].  With
    no candidate [selected] is [undefined] and reading [selected.uuid]
    throws a [TypeError]: the result is [None], the registrations made
    before stay. *)
Definition selectOptimalSubaccount (subaccounts : list string) (now : Z)
  (m : JsMap.t) : option string * JsMap.t :=
  let m1 := register subaccounts m in
  let sortedSubaccounts :=
    sort (compareFn now)
      (filter (fun metrics => existsb (fun sub => String.eqb sub (uuid metrics)) subaccounts)
         (JsMap.values m1)) in
  match sortedSubaccounts with
  | [] => (None, m1)
  | selected :: _ =>
      (Some (uuid selected),
       JsMap.set (uuid selected)
         (mkMetrics (uuid selected) (successRate selected) now
            (totalTransactions selected) (successfulTransactions selected)) m1)
  end.

(** [updateSubaccountMetrics(subaccountId, success)] *)
Definition updateSubaccountMetrics (subaccountId : string) (success : bool)
  (m : JsMap.t) : JsMap.t :=
  match JsMap.get subaccountId m with
  | Some metrics =>
      let total := totalTransactions metrics + 1 in
      let successful :=
        if success then successfulTransactions metrics + 1
        else successfulTransactions metrics in
      JsMap.set subaccountId
        (mkMetrics (uuid metrics) (inject_Z successful / inject_Z total)%Q
           (lastUsed metrics) total successful) m
  | None => m
  end.

(** [adjustSubaccountMetrics(subaccountId, successRate)] *)
Definition adjustSubaccountMetrics (subaccountId : string) (rate : Q)
  (m : JsMap.t) : JsMap.t :=
  match JsMap.get subaccountId m with
  | Some metrics =>
      JsMap.set subaccountId
        (mkMetrics (uuid metrics) (Qmax 0 (Qmin 1 rate))
           (lastUsed metrics) (totalTransactions metrics)
           (successfulTransactions metrics)) m
  | None => m
  end.

(** The outcomes of a run of calls on one subaccount, oldest first. *)
Definition recordOutcomes (subaccountId : string) (outcomes : list bool)
  (m : JsMap.t) : JsMap.t :=
  fold_left (fun acc success => updateSubaccountMetrics subaccountId success acc)
    outcomes m.

(** The states of the metrics map that the service can be in: it starts
    empty and is changed only by the three methods above. *)
Inductive reachable : JsMap.t -> Prop :=
| reach_init : reachable JsMap.empty
| reach_select subaccounts now m :
    reachable m -> reachable (snd (selectOptimalSubaccount subaccounts now m))
| reach_update id success m :
    reachable m -> reachable (updateSubaccountMetrics id success m)
| reach_adjust id rate m :
    reachable m -> reachable (adjustSubaccountMetrics id rate m).

(** The counters of an entry are consistent. *)
Definition counts_ok (v : SubaccountMetrics) : Prop :=
  0 <= successfulTransactions v <= totalTransactions v.

Definition map_ok (m : JsMap.t) : Prop :=
  forall kv, In kv m -> counts_ok (snd kv).

(** The number of successes among the outcomes. *)
Definition count_true (l : list bool) : nat := count_occ bool_dec l true.

End Service.

(* ================================================================== *)
(** * Errors *)
(* ================================================================== *)

(** The body and status of a failed HTTP exchange, as far as the code reads
    them: [response.status], [response.data.error.message] and
    [response.data.message]. *)
Record ErrorResponse : Set := mkErrorResponse {
  err_status : Z;
  err_data_error_message : option string;
  err_data_message : option string
}.

(** The values the code throws and catches.  [AxiosError] is what
    [axios.isAxiosError] recognises; [response] is absent when no HTTP
    answer was received, [code] is the transport code ([ECONNABORTED],
    [ENOTFOUND], ...). *)
#[warnings="-register-all"]
Inductive JsError : Set :=
| Error (message : string)
| TypeError (message : string)
| SyntaxError (message : string)
| ValidationError (message : string)
| CardValidationError (message : string)
| PaymentError (message : string) (originalError : JsError)
| InternalServerError (message : string) (originalError : option JsError)
| AxiosError (message : string) (code : option string) (response : option ErrorResponse).

Definition error_message (e : JsError) : string :=
  match e with
  | Error m | TypeError m | SyntaxError m | ValidationError m
  | CardValidationError m
  | PaymentError m _ | InternalServerError m _ | AxiosError m _ _ => m
  end.

Definition isAxiosError (e : JsError) : bool :=
  match e with AxiosError _ _ _ => true | _ => false end.

(** [error instanceof ValidationError] *)
Definition isValidationError (e : JsError) : bool :=
  match e with ValidationError _ => true | _ => false end.

(** [error.response?.status] *)
Definition response_status (e : JsError) : option Z :=
  match e with
  | AxiosError _ _ (Some r) => Some (err_status r)
  | _ => None
  end.

(** [error.response?.status === code] *)
Definition status_is (e : JsError) (code : Z) : bool :=
  match response_status e with
  | Some c => c =? code
  | None => false
  end.

(** [a || b] on a possibly undefined string: the empty string is falsy. *)
Definition or_else (a : option string) (b : string) : string :=
  match a with
  | Some s => if String.eqb s "" then b else s
  | None => b
  end.

(** [a || b] when [b] may be undefined as well. *)
Definition or_else_opt (a b : option string) : option string :=
  match a with
  | Some s => if String.eqb s "" then b else Some s
  | None => b
  end.

(** An HTTP failure with the given status, as axios rejects with. *)
Definition http_failure (status : Z) : JsError :=
  AxiosError "Request failed" None (Some (mkErrorResponse status None None)).

(* ================================================================== *)
(** * The configured variant of the service *)
(* ================================================================== *)

Module ConfiguredService.

(** [RexpayConfig.subaccountSelection] *)
Record SubaccountSelection : Set := mkSelection {
  successRateWeight : Q;
  recencyWeight : Q;
  minSuccessRate : Q;
  maxRetries : nat;
  initialRetryDelay : Z
}.

(** [defaultConfig.subaccountSelection] *)
Definition defaultConfig : SubaccountSelection :=
  mkSelection (7 # 10) (3 # 10) (8 # 10) 3 1000.

(** [30 * 24 * 60 * 60 * 1000], thirty days in milliseconds. *)
Definition RECENCY_WINDOW : Z := 30 * 24 * 60 * 60 * 1000.

(** [1 - Math.min(1, (now - metrics.lastUsed) / (30 days))] *)
Definition recency (now : Z) (metrics : SubaccountMetrics) : Q :=
  (1 - Qmin 1 (inject_Z (now - lastUsed metrics) / inject_Z RECENCY_WINDOW))%Q.

Definition score (cfg : SubaccountSelection) (now : Z)
  (metrics : SubaccountMetrics) : Q :=
  (successRate metrics * successRateWeight cfg
   + recency now metrics * recencyWeight cfg)%Q.

(** A subaccount that the loop does not skip. *)
Definition eligible (cfg : SubaccountSelection) (metrics : SubaccountMetrics) : bool :=
  negb (Qltb (successRate metrics) (minSuccessRate cfg)).

(** One turn of the [for ... of this.subaccountMetrics.entries()] loop; the
    state is [(bestScore, bestSubaccount)]. *)
Definition consider (cfg : SubaccountSelection) (now : Z)
  (best : Q * option string) (entry : string * SubaccountMetrics)
  : Q * option string :=
  let '(id, metrics) := entry in
  if Qltb (successRate metrics) (minSuccessRate cfg) then best
  else
    if Qltb (fst best) (score cfg now metrics)
    then (score cfg now metrics, Some id)
    else best.

(** [selectBestSubaccount()]; [None] is [null]. *)
Definition selectBestSubaccount (cfg : SubaccountSelection) (now : Z)
  (m : JsMap.t) : option string :=
  if (JsMap.size m =? 0)%nat then None
  else snd (fold_left (consider cfg now) m ((-1)%Q, None)).

(** [updateSubaccountMetrics(subaccountId, success)] of this variant: an
    unknown id gets an entry. *)
Definition updateSubaccountMetrics (subaccountId : string) (success : bool)
  (now : Z) (m : JsMap.t) : JsMap.t :=
  let metrics :=
    match JsMap.get subaccountId m with
    | Some metrics => metrics
    | None => mkMetrics subaccountId 1 now 0 0
    end in
  let total := totalTransactions metrics + 1 in
  let successful :=
    if success then successfulTransactions metrics + 1
    else successfulTransactions metrics in
  JsMap.set subaccountId
    (mkMetrics (uuid metrics) (inject_Z successful / inject_Z total)%Q now
       total successful) m.

(** [handleError(error)]: the error the method throws for [error]. *)
Definition handleError (error : JsError) : JsError :=
  let unexpected := PaymentError "An unexpected error occurred" error in
  match error with
  | AxiosError message code response =>
      let errorMessage :=
        or_else
          (or_else_opt
             (match response with Some r => err_data_error_message r | None => None end)
             (match response with Some r => err_data_message r | None => None end))
          message in
      let status := option_map err_status response in
      let status_is s := match status with Some c => c =? s | None => false end in
      let coded c := match code with Some k => String.eqb k c | None => false end in
      if status_is 400 then ValidationError errorMessage
      else if status_is 401 then
        Error "Authentication failed. Please check your API credentials."
      else if status_is 403 then Error "Insufficient permissions to perform this action."
      else if status_is 404 then Error "The requested resource was not found."
      else if status_is 409 then Error "A conflict occurred while processing your request."
      else if status_is 422 then ValidationError ("Validation failed: " ++ errorMessage)
      else if status_is 429 then Error "Rate limit exceeded. Please try again later."
      else if match status with Some c => 500 <=? c | None => false end then
        InternalServerError "An internal server error occurred." (Some error)
      else if coded "ECONNABORTED" then Error "Request timed out. Please try again."
      else if coded "ENOTFOUND" then
        Error "Unable to connect to the payment service. Please check your network connection."
      else unexpected
  | _ => unexpected
  end.

(** The score as the description of the algorithm words it, with the
    default weights: [successRate * 0.7 + recency * 0.3], where recency is
    [1 - min(1, (now - lastUsed) / 30 days)]. *)
Definition spec_score (now : Z) (metrics : SubaccountMetrics) : Q :=
  (successRate metrics * (7 # 10)
   + (1 - Qmin 1 (inject_Z (now - lastUsed metrics) / inject_Z 2592000000))
     * (3 # 10))%Q.

End ConfiguredService.

(* ================================================================== *)
(** * Retry with exponential backoff *)
(* ================================================================== *)

Module Retry.

Section Executor.

(** [W] is whatever the operation acts on (the gateway, the clock, ...);
    an operation, [() => Promise<T>], either resolves with a value or
    rejects with an error, and leaves a new state. *)
Context {W T : Type}.

Definition Operation : Type := W -> (T + JsError) * W.

(** What one call of [executeWithRetry] did: how it settled, the state it
    left, how many times it called [operation()] and the delays it awaited
    with [setTimeout], oldest first. *)
Record Run : Type := mkRun {
  outcome : T + JsError;
  final : W;
  attempts : nat;
  delays : list Z
}.

Definition INITIAL_RETRY_DELAY : Z := 1000.
Definition MAX_RETRIES : nat := 3.

(** The [for (let attempt = 0; attempt <= retries; attempt++)] loop;
    [fuel] counts the turns the loop condition still allows.  The statement
    after the loop, [throw new Error('All retry attempts exhausted')], is
    the [O] case. *)
Fixpoint retry_loop (operation : Operation) (retries : nat)
  (fuel attempt : nat) (s : W) (calls : nat) (slept : list Z) : Run :=
  match fuel with
  | O => mkRun (inr (Error "All retry attempts exhausted")) s calls slept
  | S fuel' =>
      match operation s with
      | (inl v, s') => mkRun (inl v) s' (calls + 1) slept
      | (inr error, s') =>
          if (attempt =? retries)%nat
          then mkRun (inr error) s' (calls + 1) slept
          else
            let delay := INITIAL_RETRY_DELAY * 2 ^ Z.of_nat attempt in
            retry_loop operation retries fuel' (attempt + 1) s'
              (calls + 1) (slept ++ [delay])%list
      end
  end.

(** [executeWithRetry(operation, retries = this.MAX_RETRIES)] *)
Definition executeWithRetry (operation : Operation) (retries : nat) (s : W) : Run :=
  retry_loop operation retries (retries + 1) 0 s 0 [].

End Executor.

Arguments Operation : clear implicits.
Arguments Run : clear implicits.

(** An operation that rejects with [error] every time it is called. *)
Definition always_fails {W T : Type} (error : JsError) : Operation W T :=
  fun s => (inr error, s).

(** An operation over a call counter: the calls numbered below [failures]
    reject with [error], the later ones resolve with [value]. *)
Definition fails_then_succeeds {T : Type} (failures : nat) (error : JsError)
  (value : T) : Operation nat T :=
  fun n => (if (n <? failures)%nat then inr error else inl value, S n).

(** The delays awaited when every one of the first [retries] attempts
    fails: [INITIAL_RETRY_DELAY * 2 ^ attempt] for attempt 0, 1, ... *)
Definition backoff_schedule (retries : nat) : list Z :=
  map (fun attempt => INITIAL_RETRY_DELAY * 2 ^ Z.of_nat attempt) (seq 0 retries).

End Retry.

(* ================================================================== *)
(** * The encryption helpers (utils/encryption.ts) *)
(* ================================================================== *)

Module Encryption.

(** A JavaScript string is a sequence of UTF-16 code units, a [Buffer] a
    sequence of bytes. *)
Definition jsstring : Set := list Z.
Definition bytes : Set := list Z.

Definition is_unit (u : Z) : bool := (0 <=? u) && (u <? 65536).
Definition is_byte (b : Z) : bool := (0 <=? b) && (b <? 256).

(** The code units of a string literal. *)
Definition js (s : string) : jsstring :=
  map (fun c => Z.of_nat (nat_of_ascii c)) (list_ascii_of_string s).

Definition is_high_surrogate (u : Z) : bool := (0xD800 <=? u) && (u <=? 0xDBFF).
Definition is_low_surrogate (u : Z) : bool := (0xDC00 <=? u) && (u <=? 0xDFFF).

(** A string that UTF-8 can carry: code units in range, and every
    surrogate in a pair. *)
Fixpoint utf8_serializable (s : jsstring) : bool :=
  match s with
  | [] => true
  | u :: rest =>
      if is_high_surrogate u then
        match rest with
        | l :: rest' => is_low_surrogate l && utf8_serializable rest'
        | [] => false
        end
      else is_unit u && negb (is_low_surrogate u) && utf8_serializable rest
  end.

(** ** UTF-8, as [Buffer.from(string)] and [buffer.toString('utf8')] do it *)

Definition utf8_bytes (cp : Z) : bytes :=
  if cp <? 0x80 then [cp]
  else if cp <? 0x800 then [0xC0 + cp / 64; 0x80 + cp mod 64]
  else if cp <? 0x10000 then
    [0xE0 + cp / 4096; 0x80 + (cp / 64) mod 64; 0x80 + cp mod 64]
  else
    [0xF0 + cp / 262144; 0x80 + (cp / 4096) mod 64;
     0x80 + (cp / 64) mod 64; 0x80 + cp mod 64].

(** The code point of a surrogate pair. *)
Definition pair_code_point (hi lo : Z) : Z :=
  0x10000 + (hi - 0xD800) * 1024 + (lo - 0xDC00).

(** Encoding: a surrogate pair is one code point, a lone surrogate is
    replaced by U+FFFD. *)
Fixpoint utf8_encode (s : jsstring) : bytes :=
  match s with
  | [] => []
  | u :: rest =>
      if is_high_surrogate u then
        match rest with
        | l :: rest' =>
            if is_low_surrogate l
            then (utf8_bytes (pair_code_point u l) ++ utf8_encode rest')%list
            else (utf8_bytes 0xFFFD ++ utf8_encode rest)%list
        | [] => utf8_bytes 0xFFFD
        end
      else if is_low_surrogate u then (utf8_bytes 0xFFFD ++ utf8_encode rest)%list
      else (utf8_bytes u ++ utf8_encode rest)%list
  end.

(** A Unicode scalar value: a code point that is not a surrogate. *)
Definition scalar_value (cp : Z) : Prop :=
  0 <= cp < 0x110000 /\ ~ (0xD800 <= cp <= 0xDFFF).

(** The code units of a code point. *)
Definition units_of (cp : Z) : jsstring :=
  if cp <? 0x10000 then [cp]
  else [0xD800 + (cp - 0x10000) / 1024; 0xDC00 + (cp - 0x10000) mod 1024].

(** Decoding is the usual automaton: between characters, or inside one
    with the code point gathered so far, the number of continuation bytes
    still needed and the bounds the next byte must respect. *)
Inductive decoder_state : Set :=
| Idle
| Pending (cp : Z) (needed : nat) (lower upper : Z).

Definition lead (b : Z) : jsstring * decoder_state :=
  if b <=? 0x7F then ([b], Idle)
  else if (0xC2 <=? b) && (b <=? 0xDF) then ([], Pending (b mod 32) 1 0x80 0xBF)
  else if (0xE0 <=? b) && (b <=? 0xEF) then
    ([], Pending (b mod 16) 2 (if b =? 0xE0 then 0xA0 else 0x80)
           (if b =? 0xED then 0x9F else 0xBF))
  else if (0xF0 <=? b) && (b <=? 0xF4) then
    ([], Pending (b mod 8) 3 (if b =? 0xF0 then 0x90 else 0x80)
           (if b =? 0xF4 then 0x8F else 0xBF))
  else ([0xFFFD], Idle).

Definition decoder_step (st : decoder_state) (b : Z) : jsstring * decoder_state :=
  match st with
  | Idle => lead b
  | Pending cp needed lower upper =>
      if (lower <=? b) && (b <=? upper) then
        let cp' := cp * 64 + b mod 64 in
        match needed with
        | S (S n) => ([], Pending cp' (S n) 0x80 0xBF)
        | _ => (units_of cp', Idle)
        end
      else
        (* an ill-formed sequence: U+FFFD, and the byte starts afresh *)
        let (out, st') := lead b in (0xFFFD :: out, st')
  end.

Fixpoint utf8_decode_from (st : decoder_state) (bs : bytes) : jsstring :=
  match bs with
  | [] => match st with Idle => [] | Pending _ _ _ _ => [0xFFFD] end
  | b :: r =>
      let (out, st') := decoder_step st b in
      (out ++ utf8_decode_from st' r)%list
  end.

Definition utf8_decode (bs : bytes) : jsstring := utf8_decode_from Idle bs.

(** ** Hexadecimal and base64 *)

Definition hex_digit (n : Z) : Z := if n <? 10 then 48 + n else 87 + n.

(** [digest('hex')] *)
Definition hex_encode (bs : bytes) : jsstring :=
  flat_map (fun b => [hex_digit (b / 16); hex_digit (b mod 16)]) bs.

Definition base64_char (n : Z) : Z :=
  if n <? 26 then 65 + n
  else if n <? 52 then 71 + n
  else if n <? 62 then n - 4
  else if n =? 62 then 43
  else 47.

(** The value of a base64 character; the URL-safe "-" and "_" are
    accepted as well. *)
Definition base64_value (c : Z) : option Z :=
  if (65 <=? c) && (c <=? 90) then Some (c - 65)
  else if (97 <=? c) && (c <=? 122) then Some (c - 71)
  else if (48 <=? c) && (c <=? 57) then Some (c + 4)
  else if (c =? 43) || (c =? 45) then Some 62
  else if (c =? 47) || (c =? 95) then Some 63
  else None.

Fixpoint base64_encode (bs : bytes) : jsstring :=
  match bs with
  | [] => []
  | [a] => [base64_char (a / 4); base64_char ((a mod 4) * 16); 61; 61]
  | [a; b] =>
      [base64_char (a / 4); base64_char ((a mod 4) * 16 + b / 16);
       base64_char ((b mod 16) * 4); 61]
  | a :: b :: c :: rest =>
      base64_char (a / 4) :: base64_char ((a mod 4) * 16 + b / 16)
      :: base64_char ((b mod 16) * 4 + c / 64) :: base64_char (c mod 64)
      :: base64_encode rest
  end.

(** The six-bit values of a base64 text: reading stops at the padding
    "=", characters outside the alphabet are passed over. *)
Fixpoint base64_values (s : jsstring) : list Z :=
  match s with
  | [] => []
  | c :: rest =>
      if c =? 61 then []
      else match base64_value c with
           | Some n => n :: base64_values rest
           | None => base64_values rest
           end
  end.

Fixpoint base64_bytes (vs : list Z) : bytes :=
  match vs with
  | w :: x :: y :: z :: rest =>
      w * 4 + x / 16 :: (x mod 16) * 16 + y / 4 :: (y mod 4) * 64 + z
      :: base64_bytes rest
  | [w; x; y] => [w * 4 + x / 16; (x mod 16) * 16 + y / 4]
  | [w; x] => [w * 4 + x / 16]
  | _ => []
  end.

Definition base64_decode (s : jsstring) : bytes := base64_bytes (base64_values s).

(** ** The cipher *)

(** What is taken from Node's [crypto] module: the SHA-256 digest and the
    AES block transformations under a 256-bit key, with the two facts the
    code relies on: a digest is 32 bytes, and under a 32-byte key a block
    of 16 bytes is enciphered to a block of 16 bytes that deciphers to
    it. *)
Class NodeCrypto : Type := {
  sha256 : bytes -> bytes;
  aes_encrypt_block : bytes -> bytes -> bytes;
  aes_decrypt_block : bytes -> bytes -> bytes;
  sha256_length : forall m, List.length (sha256 m) = 32%nat;
  sha256_bytes : forall m, forallb is_byte (sha256 m) = true;
  aes_block_length : forall key block,
    List.length key = 32%nat ->
    List.length block = 16%nat -> forallb is_byte block = true ->
    List.length (aes_encrypt_block key block) = 16%nat;
  aes_block_bytes : forall key block,
    List.length key = 32%nat ->
    List.length block = 16%nat -> forallb is_byte block = true ->
    forallb is_byte (aes_encrypt_block key block) = true;
  aes_decrypt_encrypt : forall key block,
    List.length key = 32%nat ->
    List.length block = 16%nat -> forallb is_byte block = true ->
    aes_decrypt_block key (aes_encrypt_block key block) = block
}.

Section Cipher.

Context {crypto : NodeCrypto}.

Definition xor_bytes (a b : bytes) : bytes := map (fun p => Z.lxor (fst p) (snd p)) (combine a b).

(** PKCS#7 padding to the 16-byte block. *)
Definition pkcs7_pad (data : bytes) : bytes :=
  let n := (16 - List.length data mod 16)%nat in
  (data ++ repeat (Z.of_nat n) n)%list.

(** Removing the padding; [None] is OpenSSL's "bad decrypt". *)
Definition pkcs7_unpad (data : bytes) : option bytes :=
  let n := Z.to_nat (last data 0) in
  if ((1 <=? n) && (n <=? 16) && (n <=? List.length data))%nat
     && forallb (fun b => b =? Z.of_nat n) (skipn (List.length data - n) data)
  then Some (firstn (List.length data - n) data)
  else None.

(** Cipher block chaining over [blocks] 16-byte blocks. *)
Fixpoint cbc_encrypt (blocks : nat) (key previous data : bytes) : bytes :=
  match blocks with
  | O => []
  | S n =>
      let c := aes_encrypt_block key (xor_bytes (firstn 16 data) previous) in
      (c ++ cbc_encrypt n key c (skipn 16 data))%list
  end.

Fixpoint cbc_decrypt (blocks : nat) (key previous data : bytes) : bytes :=
  match blocks with
  | O => []
  | S n =>
      let c := firstn 16 data in
      (xor_bytes (aes_decrypt_block key c) previous
       ++ cbc_decrypt n key c (skipn 16 data))%list
  end.

(** [crypto.createHash('sha256').update(key).digest('hex').substring(0, 32)] *)
Definition formattedKey (key : jsstring) : jsstring :=
  firstn 32 (hex_encode (sha256 (utf8_encode key))).

(** [String.prototype.padEnd(16, '0')] *)
Definition padEnd16 (s : jsstring) : jsstring :=
  (s ++ repeat 48 (16 - List.length s))%list.

(** [Buffer.from(iv.padEnd(16, '0').substring(0, 16))] *)
Definition formattedIV (iv : jsstring) : bytes :=
  utf8_encode (firstn 16 (padEnd16 iv)).

(** [crypto.createCipheriv('aes-256-cbc', key, iv)] and
    [createDecipheriv] throw unless the key is 32 bytes and the
    initialisation vector 16 bytes long. *)
Definition valid_key_iv (key iv : bytes) : bool :=
  (List.length key =? 32)%nat && (List.length iv =? 16)%nat.

(** An initialisation vector the cipher accepts: a string whose first 16
    characters, after padding, take 16 bytes. *)
Definition usable_iv (iv : jsstring) : bool :=
  forallb is_unit iv && (List.length (formattedIV iv) =? 16)%nat.

(** [encrypt(text, key, iv)].  The text the two calls
    [cipher.update(text, 'utf8', 'base64')] and [cipher.final('base64')]
    return, put together, is the base64 form of the whole ciphertext. *)
Definition encrypt (text key iv : jsstring) : jsstring + JsError :=
  let formattedKey := formattedKey key in
  let formattedIV := formattedIV iv in
  if valid_key_iv (utf8_encode formattedKey) formattedIV then
    let padded := pkcs7_pad (utf8_encode text) in
    inl (base64_encode
           (cbc_encrypt (List.length padded / 16) (utf8_encode formattedKey)
              formattedIV padded))
  else inr (Error "Failed to encrypt data").

(** [decrypt(encrypted, key, iv)].  [decipher.final] throws when the
    ciphertext is not a positive number of whole blocks or the padding is
    wrong; every error is replaced by the same one. *)
Definition decrypt (encrypted key iv : jsstring) : jsstring + JsError :=
  let formattedKey := formattedKey key in
  let formattedIV := formattedIV iv in
  if valid_key_iv (utf8_encode formattedKey) formattedIV then
    let data := base64_decode encrypted in
    if ((List.length data mod 16 =? 0) && negb (List.length data =? 0))%nat then
      match pkcs7_unpad
              (cbc_decrypt (List.length data / 16) (utf8_encode formattedKey)
                 formattedIV data) with
      | Some plain => inl (utf8_decode plain)
      | None => inr (Error "Failed to decrypt data")
      end
    else inr (Error "Failed to decrypt data")
  else inr (Error "Failed to decrypt data").

End Cipher.

(** A stand-in for Node's primitives, to run the helpers on examples: the
    digest keeps the first 32 bytes of the message (zero-filled), the block
    transformation adds the key to the block byte by byte. *)
Definition toy_sha256 (m : bytes) : bytes :=
  firstn 32 (map (fun b => b mod 256) m ++ repeat 0 32)%list.

Definition toy_encrypt_block (key block : bytes) : bytes :=
  map (fun p => (fst p + snd p) mod 256) (combine block key).

Definition toy_decrypt_block (key block : bytes) : bytes :=
  map (fun p => (fst p - snd p) mod 256) (combine block key).

Definition toy_crypto : NodeCrypto.
Proof.
  refine {| sha256 := toy_sha256;
            aes_encrypt_block := toy_encrypt_block;
            aes_decrypt_block := toy_decrypt_block |}.
  - intros m. unfold toy_sha256.
    rewrite length_firstn, length_app, repeat_length. lia.
  - intros m. unfold toy_sha256. apply forallb_forall. intros x Hx.
    assert (Hin : In x (map (fun b => b mod 256) m ++ repeat 0 32)%list)
      by (rewrite <- (firstn_skipn 32); apply in_or_app; now left).
    clear Hx. apply in_app_or in Hin as Hx. unfold is_byte.
    rewrite andb_true_iff, Z.leb_le, Z.ltb_lt.
    destruct Hx as [Hx|Hx].
    + apply in_map_iff in Hx as [b [<- _]]. apply Z.mod_pos_bound. lia.
    + apply repeat_spec in Hx. lia.
  - intros key block Hk Hb _. unfold toy_encrypt_block.
    rewrite length_map, length_combine. lia.
  - intros key block _ _ _. unfold toy_encrypt_block. apply forallb_forall.
    intros x Hx. apply in_map_iff in Hx as [b [<- _]]. unfold is_byte.
    rewrite andb_true_iff, Z.leb_le, Z.ltb_lt. apply Z.mod_pos_bound. lia.
  - intros key block Hk Hb Hbytes.
    assert (Hle : (List.length block <= List.length key)%nat) by lia.
    clear Hk Hb. revert key Hle Hbytes. unfold toy_decrypt_block, toy_encrypt_block.
    induction block as [|b block IH]; intros [|k key] Hle Hbytes;
      try reflexivity; cbn [List.length] in Hle; [lia|].
    cbn [forallb] in Hbytes. apply andb_true_iff in Hbytes as [Hb Hrest].
    unfold is_byte in Hb. rewrite andb_true_iff, Z.leb_le, Z.ltb_lt in Hb.
    cbn [combine map fst snd]. rewrite IH by (auto; lia). f_equal.
    rewrite Zminus_mod_idemp_l. replace (b + k - k) with b by lia.
    apply Z.mod_small. lia.
Defined.

End Encryption.

(* ================================================================== *)
(** * The payment operations (RexpayV3Service.ts) *)
(* ================================================================== *)

Module Orchestrator.

Import Status.

(** [config.providers.rexpay], the part the operations below read. *)
Record Config : Set := mkConfig {
  encryption_key : Encryption.jsstring;
  encryption_iv : Encryption.jsstring
}.

(** [interface Payment], the fields the operations below read;
    [card_encrypted] is [payment_instrument.card.encrypted]. *)
Record Payment : Set := mkPayment {
  reference : string;
  amount : Z;
  currency : string;
  provider_reference : option string;
  card_encrypted : option Encryption.jsstring
}.

(** The body of the charge request. *)
Record ChargePayload : Set := mkChargePayload {
  payload_transaction_id : option string;
  payload_amount : Q;
  payload_currency : string;
  payload_subaccount_id : option string
}.

(** A call to the gateway. *)
Inductive Request : Set :=
| PostCharge (payload : ChargePayload)
| GetPayment (paymentId : string).

(** The body of an answer of the gateway, [response.data], as far as it
    is read: [message], and under [data] the fields [reference], [status]
    and [gateway_response]. *)
Record ResponseData : Set := mkResponseData {
  data_reference : option string;
  data_status : option string;
  data_gateway_response : option string
}.

Record ResponseBody : Set := mkResponseBody {
  body_message : option string;
  body_data : option ResponseData
}.

(** The gateway: what it answers to the request that comes after [n]
    earlier ones. *)
Definition Gateway : Set := nat -> Request -> ResponseBody + JsError.

(** [interface CardPaymentOutput] *)
Record CardPaymentOutput : Set := mkOutput {
  transactionId : string;
  status : PaymentStatus;
  message : string;
  gatewayRecommendation : option string;
  gatewayCode : option string;
  acquirerMessage : option string
}.

(** What [JSON.parse] makes of the decrypted card data: a syntax error,
    [null], or a value whose [subaccount_id] is read. *)
Inductive ParsedCard : Set :=
| CardSyntaxError
| CardNull
| CardValue (subaccount_id : option string).

(** What [JSON.parse] makes of [gateway_response]: a syntax error, [null],
    or a value whose [response] is read. *)
Record GatewayDetail : Set := mkDetail {
  detail_gatewayRecommendation : option string;
  detail_gatewayCode : option string;
  detail_acquirerMessage : option string
}.

Inductive ParsedGateway : Set :=
| GatewaySyntaxError
| GatewayNull
| GatewayValue (response : option GatewayDetail).

(** The state the operations act on: the metrics map of the service, the
    requests sent to the gateway so far (oldest first) and the delays
    awaited between retries.  The logger and the metrics sink are left
    out. *)
Record World : Set := mkWorld {
  subaccountMetrics : JsMap.t;
  requests : list Request;
  slept : list Z
}.

(** An asynchronous computation: it resolves with a value or rejects with
    an error, and leaves a new state. *)
Definition M (A : Type) : Type := World -> (A + JsError) * World.

Definition ret {A} (a : A) : M A := fun w => (inl a, w).
Definition throw {A} (e : JsError) : M A := fun w => (inr e, w).
Definition bind {A B} (m : M A) (k : A -> M B) : M B :=
  fun w => match m w with
           | (inl a, w') => k a w'
           | (inr e, w') => (inr e, w')
           end.
(** [try { m } catch (error) { handler(error) }] *)
Definition try_catch {A} (m : M A) (handler : JsError -> M A) : M A :=
  fun w => match m w with
           | (inl a, w') => (inl a, w')
           | (inr e, w') => handler e w'
           end.

Declare Scope js_scope.
Delimit Scope js_scope with js.
Notation "x <- m ;; k" := (bind m (fun x => k))
  (at level 100, m at next level, right associativity) : js_scope.
Notation "m ;;; k" := (bind m (fun _ => k))
  (at level 100, right associativity) : js_scope.

(** [value || fallback] on a string that may be undefined. *)
Definition truthy (s : option string) : bool :=
  match s with
  | Some v => negb (String.eqb v "")
  | None => false
  end.

(** [err.response?.data?.message || err.message] *)
Definition errorMessage (e : JsError) : string :=
  or_else
    (match e with
     | AxiosError _ _ (Some r) => err_data_message r
     | _ => None
     end)
    (error_message e).

(** [formatAmount(amount)]: [Math.round(amount / 100 * 100) / 100]. *)
Definition formatAmount (amount : Z) : Q :=
  let converted := (inject_Z amount / 100)%Q in
  (inject_Z (Qfloor (converted * 100 + (1 # 2))) / 100)%Q.

Section Operations.

Context {crypto : Encryption.NodeCrypto}.
Variable config : Config.
Variable gateway : Gateway.
Variable JSON_parse_card : Encryption.jsstring -> ParsedCard.
Variable JSON_parse_gateway : string -> ParsedGateway.

(** One [axios.get] or [axios.post]: the request is sent and the gateway
    answers. *)
Definition axios (request : Request) : Retry.Operation World ResponseBody :=
  fun w =>
    (gateway (List.length (requests w)) request,
     mkWorld (subaccountMetrics w) (requests w ++ [request])%list (slept w)).

(** [await this.executeWithRetry(operation)] with the default number of
    retries. *)
Definition executeWithRetry {T} (operation : Retry.Operation World T) : M T :=
  fun w =>
    let r := Retry.executeWithRetry operation Retry.MAX_RETRIES w in
    (Retry.outcome r,
     mkWorld (subaccountMetrics (Retry.final r)) (requests (Retry.final r))
       (slept (Retry.final r) ++ Retry.delays r)%list).

(** [this.updateSubaccountMetrics(subaccountId, success)] *)
Definition updateSubaccountMetrics (subaccountId : string) (success : bool) : M unit :=
  fun w =>
    (inl tt,
     mkWorld (Service.updateSubaccountMetrics subaccountId success (subaccountMetrics w))
       (requests w) (slept w)).

Local Open Scope js_scope.

(** [authorizePayment(payment)] *)
Definition authorizePayment (payment : Payment) : M CardPaymentOutput :=
  try_catch
    (encrypted <-
       match card_encrypted payment with
       | None | Some [] => throw (ValidationError "No encrypted card details found")
       | Some encrypted => ret encrypted
       end ;;
     decrypted <-
       match Encryption.decrypt encrypted (encryption_key config)
               (encryption_iv config) with
       | inl text => ret text
       | inr e => throw e
       end ;;
     subaccountId <-
       match JSON_parse_card decrypted with
       | CardSyntaxError => throw (SyntaxError "Unexpected token in JSON")
       | CardNull => throw (TypeError "Cannot read properties of null")
       | CardValue id => ret id
       end ;;
     let payload :=
       mkChargePayload (provider_reference payment)
         (formatAmount (amount payment)) (currency payment) subaccountId in
     chargeResponse <- executeWithRetry (axios (PostCharge payload)) ;;
     data <-
       match body_data chargeResponse with
       | Some data => ret data
       | None => throw (TypeError "Cannot read properties of undefined")
       end ;;
     (if truthy subaccountId
      then updateSubaccountMetrics (or_else subaccountId "")
             (match handleRexpayResponseStatus (data_status data) with
              | FAILED => false
              | _ => true
              end)
      else ret tt) ;;;
     ret (mkOutput
            (or_else (data_reference data) (reference payment))
            (handleRexpayResponseStatus (data_status data))
            (or_else (body_message chargeResponse) "Payment authorized")
            None None None))
    (fun error =>
       throw (PaymentError
                ("Failed to authorize payment: " ++ errorMessage error) error)).

(** [retrievePayment(paymentId)] *)
Definition retrievePayment (paymentId : string) : M CardPaymentOutput :=
  try_catch
    ((if String.eqb paymentId ""
      then throw (ValidationError "Payment ID is required")
      else ret tt) ;;;
     data <- executeWithRetry (axios (GetPayment paymentId)) ;;
     let gateway_response :=
       match body_data data with
       | Some d => data_gateway_response d
       | None => None
       end in
     gatewayResponse <-
       (if truthy gateway_response
        then match JSON_parse_gateway (or_else gateway_response "") with
             | GatewaySyntaxError => ret (Some (mkDetail (Some "") (Some "") (Some "")))
             | GatewayNull => throw (TypeError "Cannot read properties of null")
             | GatewayValue response => ret response
             end
        else ret (Some (mkDetail (Some "") (Some "") (Some "")))) ;;
     let detail field :=
       match gatewayResponse with
       | Some response => field response
       | None => None
       end in
     ret (mkOutput paymentId
            (handleRexpayResponseStatus
               (match body_data data with
                | Some d => data_status d
                | None => None
                end))
            (or_else (body_message data) "Payment retrieved")
            (detail detail_gatewayRecommendation)
            (detail detail_gatewayCode)
            (detail detail_acquirerMessage)))
    (fun error =>
       if isValidationError error then throw error
       else if isAxiosError error then
         if status_is error 404
         then ret (mkOutput paymentId FAILED "Payment not found" None None None)
         else throw (PaymentError "Failed to retrieve payment" error)
       else throw (PaymentError "Payment retrieval failed" error)).

(** [getPayment(payment)], deprecated in favour of [retrievePayment]. *)
Definition getPayment (payment : Payment) : M CardPaymentOutput :=
  retrievePayment (or_else (provider_reference payment) (reference payment)).

End Operations.

(** A gateway that rejects every request with the HTTP status [code]. *)
Definition rejects_with (gateway : Gateway) (code : Z) : Prop :=
  forall n request, exists message transport response,
    gateway n request = inr (AxiosError message transport (Some response))
    /\ err_status response = code.

(** The state of a service that has done nothing yet. *)
Definition initial_world : World := mkWorld JsMap.empty [] [].

End Orchestrator.

(* ================================================================== *)
(** * The shape of the metrics map *)
(* ================================================================== *)

Module ServiceState.

(** Every key occurs once, and an entry's [uuid] is the key it is stored
    under. *)
Definition well_keyed (m : JsMap.t) : Prop :=
  NoDup (map fst m) /\ forall k v, In (k, v) m -> uuid v = k.


(** An entry that differs from [v] at most in [lastUsed]. *)
Definition same_counters (v v' : SubaccountMetrics) : Prop :=
  uuid v' = uuid v
  /\ successRate v' = successRate v
  /\ totalTransactions v' = totalTransactions v
  /\ successfulTransactions v' = successfulTransactions v.


(** The sum of the delays a run awaited. *)
Definition total_delay (delays : list Z) : Z := fold_right Z.add 0 delays.

End ServiceState.

(* ================================================================== *)
(** * The configured variant: cards and responses *)
(* ================================================================== *)

Module ConfiguredOperations.

Import Status.

(** The character at [i] lies between [lo] and [hi]: a class [[lo-hi]] of a
    regular expression at that position. *)
Definition char_between (lo hi : ascii) (i : nat) (s : string) : bool :=
  match String.get i s with
  | Some c =>
      ((nat_of_ascii lo <=? nat_of_ascii c)
       && (nat_of_ascii c <=? nat_of_ascii hi))%nat
  | None => false
  end.

(** [detectCardBrand(number)]: the tests [/^4/], [/^5[1-5]/], [/^3[47]/]
    and [/^(6011|65|64[4-9]|622)/] in this order. *)
Definition detectCardBrand (number : string) : string :=
  if String.prefix "4" number then "visa"
  else if String.prefix "5" number && char_between "1" "5" 1 number then "mastercard"
  else if String.prefix "3" number
          && (char_between "4" "4" 1 number || char_between "7" "7" 1 number)
  then "amex"
  else if String.prefix "6011" number || String.prefix "65" number
          || (String.prefix "64" number && char_between "4" "9" 2 number)
          || String.prefix "622" number
  then "discover"
  else "unknown".

(** [RexpayChargeResponse], the fields [buildSuccessResponse] reads;
    [threeds] is [data.redirect_auth_data?.customizedHtml?.['3ds2']] with
    its [acsUrl] and [cReq]. *)
Record ChargeResponse : Set := mkChargeResponse {
  charge_message : option string;
  charge_reference : option string;
  charge_status : option string;
  charge_session_id : option string;
  charge_threeds : option (option string * option string)
}.

(** The result of [buildSuccessResponse]; [threeDSecure] holds [acsUrl],
    [creq] and [sessionData]. *)
Record SuccessResponse : Set := mkSuccessResponse {
  out_transactionId : string;
  out_status : PaymentStatus;
  out_message : string;
  out_gatewayRecommendation : string;
  out_gatewayCode : string;
  out_acquirerMessage : option string;
  out_threeDSecure : option (option string * option string * option string)
}.

(** [buildSuccessResponse(response, payment)] *)
Definition buildSuccessResponse (response : ChargeResponse) : SuccessResponse :=
  mkSuccessResponse
    (or_else (charge_reference response) "")
    (match charge_status response with
     | Some s => if String.eqb s "success" then SUCCESS else PENDING
     | None => PENDING
     end)
    (or_else (charge_message response) "Payment processed successfully")
    "PROCEED"
    (or_else (charge_session_id response) "")
    (charge_message response)
    (match charge_threeds response with
     | Some (acsUrl, cReq) => Some (acsUrl, cReq, charge_session_id response)
     | None => None
     end).

(** [initializePayment(payment)] of this variant.  [card_present] is
    whether [payment.card] is set; [device] is the error thrown while the
    payload is built ([collectDeviceInformation] reads the browser's
    globals), if any; [answer] is how [httpClient.post('/payments', ...)]
    settles, [inl None] being a body without [data], on which
    [buildSuccessResponse] throws.  Every error goes through
    [handleError]. *)
Definition initializePayment (card_present : bool) (device : option JsError)
  (answer : option ChargeResponse + JsError) : SuccessResponse + JsError :=
  if negb card_present then
    inr (ConfiguredService.handleError (ValidationError "Card details are required"))
  else
    match device with
    | Some e => inr (ConfiguredService.handleError e)
    | None =>
        match answer with
        | inl (Some response) => inl (buildSuccessResponse response)
        | inl None =>
            inr (ConfiguredService.handleError
                   (TypeError "Cannot read properties of undefined"))
        | inr e => inr (ConfiguredService.handleError e)
        end
    end.

End ConfiguredOperations.

(* ================================================================== *)
(** * Request building (RexpayV3Service.ts) *)
(* ================================================================== *)

(** The strings handled here (country names, addresses, card numbers) are
    taken to be ASCII text: one character per [ascii], case mapping and
    white space as in ASCII. *)
Module Builders.

Definition upper_char (c : ascii) : ascii :=
  let n := nat_of_ascii c in
  if ((97 <=? n) && (n <=? 122))%nat then ascii_of_nat (n - 32) else c.

(** [String.prototype.toUpperCase] *)
Fixpoint toUpperCase (s : string) : string :=
  match s with
  | EmptyString => EmptyString
  | String c r => String (upper_char c) (toUpperCase r)
  end.

(** White space: tab, line feed, vertical tab, form feed, carriage return
    and space. *)
Definition is_space (c : ascii) : bool :=
  let n := nat_of_ascii c in
  (((9 <=? n) && (n <=? 13)) || (n =? 32))%nat.

Fixpoint drop_spaces (l : list ascii) : list ascii :=
  match l with
  | [] => []
  | c :: r => if is_space c then drop_spaces r else l
  end.

(** [String.prototype.trim] *)
Definition trim (s : string) : string :=
  string_of_list_ascii
    (rev (drop_spaces (rev (drop_spaces (list_ascii_of_string s))))).

(** [s.replace(/\s/g, '')] *)
Fixpoint strip_spaces (s : string) : string :=
  match s with
  | EmptyString => EmptyString
  | String c r => if is_space c then strip_spaces r else String c (strip_spaces r)
  end.

(** [TwoCharCountryCodeToThreeMap[key]] *)
Definition TwoCharCountryCodeToThreeMap (key : string) : option string :=
  if String.eqb key "US" then Some "USA"
  else if String.eqb key "GB" then Some "GBR"
  else if String.eqb key "CA" then Some "CAN"
  else None.

(** [ConvertToThreeCountryCode[key]] *)
Definition ConvertToThreeCountryCode (key : string) : option string :=
  if String.eqb key "UNITED STATES" then Some "USA"
  else if String.eqb key "GREAT BRITAIN" then Some "GBR"
  else if String.eqb key "CANADA" then Some "CAN"
  else None.

(** [normalizeCountryCode(country)]; [None] is an undefined country. *)
Definition normalizeCountryCode (country : option string) : string :=
  match country with
  | None => "USA"
  | Some c =>
      if String.eqb c "" then "USA"
      else
        let upperCountry := trim (toUpperCase c) in
        if (String.length upperCountry =? 2)%nat
        then or_else (TwoCharCountryCodeToThreeMap upperCountry) "USA"
        else or_else (ConvertToThreeCountryCode upperCountry)
               (String.substring 0 3 upperCountry)
  end.

(** [payment.billing] *)
Record Billing : Set := mkBilling {
  address1 : option string;
  city : option string;
  country : option string;
  zip_code : option string;
  state : option string
}.

(** The result of [buildBillingInformation]. *)
Record BillingInformation : Set := mkBillingInformation {
  postcodezip : string;
  street : string;
  info_city : string;
  info_country : string;
  stateProvince : string;
  address2 : string;
  phone : string
}.

(** [value?.substring(0, n) || ''] *)
Definition clipped (n : nat) (value : option string) : string :=
  or_else (option_map (String.substring 0 n) value) "".

(** [buildBillingInformation(payment)]; [phone_number] is
    [payment.customer.phone_number]. *)
Definition buildBillingInformation (billing : Billing) (phone_number : option string)
  : BillingInformation :=
  mkBillingInformation
    (or_else (zip_code billing) "")
    (clipped 100 (address1 billing))
    (clipped 50 (city billing))
    (normalizeCountryCode (country billing))
    (String.substring 0 20 (or_else (or_else_opt (state billing) (city billing)) ""))
    ""
    (or_else phone_number "").

End Builders.

(* ================================================================== *)
(** * Initialize, finalize and refund (RexpayV3Service.ts) *)
(* ================================================================== *)

Module Lifecycle.

Import Status.

(** [payment.payment_instrument.card] *)
Record Card : Set := mkCard {
  number : string;
  security_code : string;
  expiry_month : string;
  expiry_year : string
}.

(** [interface Payment], the fields read below. *)
Record Payment : Set := mkPayment {
  reference : string;
  amount : Z;
  currency : string;
  card : Card;
  billing : Builders.Billing;
  phone_number : option string
}.

(** The body of the initialize request, as far as it is followed here:
    the device information and the customer's names are left out. *)
Record InitializePayload : Set := mkInitializePayload {
  init_amount : Q;
  init_currency : string;
  init_reference : string;
  init_subaccount_id : string;
  init_billing_information : Builders.BillingInformation;
  init_card_number : string
}.

Record RefundPayload : Set := mkRefundPayload {
  refund_reference : string;
  refund_reason : string;
  refund_amount : option Q
}.

Inductive Request : Set :=
| GetSubaccounts
| PostInitialize (payload : InitializePayload)
| PostFinalize (paymentId : string)
| PostRefund (payload : RefundPayload).

(** The [data] field of an answer: absent, an array (of subaccounts, by
    their uuids) or an object with the fields that are read. *)
Inductive BodyData : Set :=
| DataMissing
| DataArray (uuids : list string)
| DataObject (transaction_id session_id status reference : option string).

(** The body of an answer: [message], the truth value of the top-level
    [status], and [data]. *)
Record Body : Set := mkBody {
  body_message : option string;
  body_status : bool;
  body_data : BodyData
}.

(** The gateway: what it answers to the request that comes after [n]
    earlier ones; [inl None] is an answer with no body. *)
Definition Gateway : Set := nat -> Request -> option Body + JsError.

Record World : Set := mkWorld {
  metrics : JsMap.t;
  sent : list Request;
  waited : list Z
}.

Definition Eff (A : Type) : Type := World -> (A + JsError) * World.

Definition ret {A} (a : A) : Eff A := fun w => (inl a, w).
Definition throw {A} (e : JsError) : Eff A := fun w => (inr e, w).
Definition bind {A B} (m : Eff A) (k : A -> Eff B) : Eff B :=
  fun w => match m w with
           | (inl a, w') => k a w'
           | (inr e, w') => (inr e, w')
           end.
Definition try_catch {A} (m : Eff A) (handler : JsError -> Eff A) : Eff A :=
  fun w => match m w with
           | (inl a, w') => (inl a, w')
           | (inr e, w') => handler e w'
           end.

Declare Scope eff_scope.
Delimit Scope eff_scope with eff.
Notation "x <- m ;; k" := (bind m (fun x => k))
  (at level 100, m at next level, right associativity) : eff_scope.
Notation "m ;;; k" := (bind m (fun _ => k))
  (at level 100, right associativity) : eff_scope.

(** The fields of [data] when it is an object. *)
Definition data_status (d : BodyData) : option string :=
  match d with DataObject _ _ s _ => s | _ => None end.
Definition data_transaction_id (d : BodyData) : option string :=
  match d with DataObject t _ _ _ => t | _ => None end.
Definition data_session_id (d : BodyData) : option string :=
  match d with DataObject _ s _ _ => s | _ => None end.
Definition data_reference (d : BodyData) : option string :=
  match d with DataObject _ _ _ r => r | _ => None end.

(** What [initializePayment] resolves with: [transactionId], [status],
    [message], and under [providerData] the session id, the encrypted card
    and the subaccount. *)
Record InitializeOutput : Set := mkInitializeOutput {
  init_transactionId : option string;
  init_status : PaymentStatus;
  init_message : string;
  init_sessionId : string;
  init_encrypted : Encryption.jsstring;
  init_subaccount : string
}.

Section Operations.

Context {crypto : Encryption.NodeCrypto}.
Variable config : Orchestrator.Config.
Variable gateway : Gateway.
(** [JSON.stringify({...cardDetails, subaccount_id})] *)
Variable JSON_stringify_card : Card -> string -> Encryption.jsstring.

Definition axios (request : Request) : Retry.Operation World (option Body) :=
  fun w =>
    (gateway (List.length (sent w)) request,
     mkWorld (metrics w) (sent w ++ [request])%list (waited w)).

Definition executeWithRetry {T} (operation : Retry.Operation World T) : Eff T :=
  fun w =>
    let r := Retry.executeWithRetry operation Retry.MAX_RETRIES w in
    (Retry.outcome r,
     mkWorld (metrics (Retry.final r)) (sent (Retry.final r))
       (waited (Retry.final r) ++ Retry.delays r)%list).

Definition updateSubaccountMetrics (subaccountId : string) (success : bool) : Eff unit :=
  fun w =>
    (inl tt,
     mkWorld (Service.updateSubaccountMetrics subaccountId success (metrics w))
       (sent w) (waited w)).

(** Reading a property of an answer's body throws when there is no body. *)
Definition the_body (answer : option Body) : Eff Body :=
  match answer with
  | Some body => ret body
  | None => throw (TypeError "Cannot read properties of undefined")
  end.

Local Open Scope eff_scope.

(** The [catch] block of [initializePayment]; [selectedSubaccountId] is
    the variable of that name, [None] while it is still [null]. *)
Definition initialize_catch (selectedSubaccountId : option string)
  (error : JsError) : Eff InitializeOutput :=
  (if Orchestrator.truthy selectedSubaccountId
   then updateSubaccountMetrics (or_else selectedSubaccountId "") false
   else ret tt) ;;;
  throw (PaymentError
           ("Failed to initialize payment: " ++ Orchestrator.errorMessage error)
           error).

(** The array of fetched subaccounts: reading [data.data.length] throws
    without a body or without [data], and [data] must be an array. *)
Definition subaccounts_of (answer : option Body) : list string + JsError :=
  match answer with
  | None => inr (TypeError "Cannot read properties of undefined")
  | Some data =>
      match body_data data with
      | DataMissing => inr (TypeError "Cannot read properties of undefined")
      | DataObject _ _ _ _ => inr (Error "Invalid subaccounts response")
      | DataArray uuids => inl uuids
      end
  end.

(** The payload of the initialize request. *)
Definition initialize_payload (payment : Payment) (selectedSubaccountId : string)
  : InitializePayload :=
  mkInitializePayload
    (Orchestrator.formatAmount (amount payment)) (currency payment)
    (reference payment) selectedSubaccountId
    (Builders.buildBillingInformation (billing payment) (phone_number payment))
    (Builders.strip_spaces (number (card payment))).

(** [initializePayment], from the initialize request on, once a
    subaccount is selected. *)
Definition initialize_selected (payment : Payment) (selectedSubaccountId : string)
  : Eff InitializeOutput :=
  answer <- executeWithRetry
              (axios (PostInitialize (initialize_payload payment selectedSubaccountId))) ;;
  initializeData <- the_body answer ;;
  status <-
    match body_data initializeData with
    | DataMissing => throw (TypeError "Cannot read properties of undefined")
    | d => ret (handleRexpayResponseStatus (data_status d))
    end ;;
  updateSubaccountMetrics selectedSubaccountId
    (match status with FAILED => false | _ => true end) ;;;
  encryptedCardDetails <-
    match Encryption.encrypt
            (JSON_stringify_card (card payment) selectedSubaccountId)
            (Orchestrator.encryption_key config)
            (Orchestrator.encryption_iv config) with
    | inl text => ret text
    | inr e => throw e
    end ;;
  ret (mkInitializeOutput
         (data_transaction_id (body_data initializeData))
         status
         (or_else (body_message initializeData) "Payment initialized")
         (or_else (data_session_id (body_data initializeData)) "")
         encryptedCardDetails
         selectedSubaccountId).

(** [initializePayment(payment, authType)]; [now] is the [Date.now()] of
    the selection.  The [catch] block sees [selectedSubaccountId] as it is
    when the error is thrown: [null] until the selection has returned. *)
Definition initializePayment (payment : Payment) (now : Z) : Eff InitializeOutput :=
  fun w =>
    match executeWithRetry (axios GetSubaccounts) w with
    | (inr error, w1) => initialize_catch None error w1
    | (inl answer, w1) =>
        match subaccounts_of answer with
        | inr error => initialize_catch None error w1
        | inl subaccounts =>
            match Service.selectOptimalSubaccount subaccounts now (metrics w1) with
            | (None, m) =>
                initialize_catch None
                  (TypeError "Cannot read properties of undefined")
                  (mkWorld m (sent w1) (waited w1))
            | (Some selectedSubaccountId, m) =>
                try_catch (initialize_selected payment selectedSubaccountId)
                  (initialize_catch (Some selectedSubaccountId))
                  (mkWorld m (sent w1) (waited w1))
            end
        end
    end.

(** [finalizePayment(paymentId)] *)
Definition finalizePayment (paymentId : string) : Eff Orchestrator.CardPaymentOutput :=
  try_catch
    ((if String.eqb paymentId ""
      then throw (ValidationError "Payment ID is required")
      else ret tt) ;;;
     data <- executeWithRetry (axios (PostFinalize paymentId)) ;;
     ret (Orchestrator.mkOutput paymentId SUCCESS
            (or_else (match data with Some body => body_message body | None => None end)
               "Payment finalized")
            None None None))
    (fun error =>
       throw (PaymentError
                ("Failed to finalize payment: " ++ Orchestrator.errorMessage error)
                error)).

(** [refundPayment(payment)] *)
Definition refundPayment (payment : Payment) : Eff Orchestrator.CardPaymentOutput :=
  try_catch
    (let payload :=
       mkRefundPayload (reference payment) "Customer request"
         (if amount payment =? 0 then None
          else Some (Orchestrator.formatAmount (amount payment))) in
     answer <- executeWithRetry (axios (PostRefund payload)) ;;
     refundResponse <- the_body answer ;;
     ret (Orchestrator.mkOutput
            (or_else (data_reference (body_data refundResponse)) (reference payment))
            (if body_status refundResponse then SUCCESS else FAILED)
            (or_else (body_message refundResponse) "Refund processed")
            None None None))
    (fun error =>
       throw (InternalServerError
                ("Failed to refund payment: " ++ Orchestrator.errorMessage error)
                None)).

End Operations.

End Lifecycle.

(* ================================================================== *)
(** * Sample data *)
(* ================================================================== *)

(** Values in the style of the repository's test fixtures, used to
    instantiate the properties below. *)
Module Examples.

Definition sample_config : Orchestrator.Config :=
  Orchestrator.mkConfig (Encryption.js "test-encryption-key")
    (Encryption.js "test-encryption-iv").

(** A configuration whose initialisation vector is one character outside
    ASCII. *)
Definition wide_iv_config : Orchestrator.Config :=
  Orchestrator.mkConfig (Encryption.js "test-encryption-key") [0xE9].

Definition card_text : Encryption.jsstring :=
  Encryption.js "4111111111111111;sub-1".

Definition parse_card : Encryption.jsstring -> Orchestrator.ParsedCard :=
  fun _ => Orchestrator.CardValue (Some "sub-1").

Definition parse_nothing : string -> Orchestrator.ParsedGateway :=
  fun _ => Orchestrator.GatewaySyntaxError.

Definition bare_payment : Orchestrator.Payment :=
  Orchestrator.mkPayment "ref-1" 1999 "USD" (Some "tx-1") None.

Definition charge_body : Orchestrator.ResponseBody :=
  Orchestrator.mkResponseBody (Some "Approved")
    (Some (Orchestrator.mkResponseData (Some "ref-1") (Some "success") None)).

Definition charge_gateway : Orchestrator.Gateway :=
  fun _ _ => inl charge_body.

Definition retrieval_body : Orchestrator.ResponseBody :=
  Orchestrator.mkResponseBody None
    (Some (Orchestrator.mkResponseData None (Some "completed") (Some "{bad"))).

Definition retrieval_gateway : Orchestrator.Gateway :=
  fun _ _ => inl retrieval_body.

Definition sample_card : Lifecycle.Card :=
  Lifecycle.mkCard "4111 1111 1111 1111" "123" "12" "2030".

Definition sample_payment : Lifecycle.Payment :=
  Lifecycle.mkPayment "ref-1" 1999 "USD" sample_card
    (Builders.mkBilling (Some "1 Main St") (Some "Lagos") (Some "ng") None None)
    None.

Definition stringify_card (card : Lifecycle.Card) (id : string)
  : Encryption.jsstring :=
  Encryption.js (Lifecycle.number card ++ ";" ++ id).

Definition subaccounts_body : Lifecycle.Body :=
  Lifecycle.mkBody None true (Lifecycle.DataArray ["A"; "B"]).

Definition initialized_body : Lifecycle.Body :=
  Lifecycle.mkBody (Some "ok") true
    (Lifecycle.DataObject (Some "tx-1") (Some "sess-1") (Some "success") (Some "ref-1")).

(** A gateway that lists two subaccounts and rejects everything else with
    status 500. *)
Definition listing_gateway : Lifecycle.Gateway :=
  fun _ request =>
    match request with
    | Lifecycle.GetSubaccounts => inl (Some subaccounts_body)
    | _ => inr (http_failure 500)
    end.

(** A gateway that lists two subaccounts and accepts everything else. *)
Definition accepting_gateway : Lifecycle.Gateway :=
  fun _ request =>
    match request with
    | Lifecycle.GetSubaccounts => inl (Some subaccounts_body)
    | _ => inl (Some initialized_body)
    end.

Definition empty_world : Lifecycle.World := Lifecycle.mkWorld JsMap.empty [] [].

(** The metrics map after a first selection among A and B. *)
Definition first_selection : JsMap.t :=
  snd (Service.selectOptimalSubaccount ["A"; "B"] 1000 JsMap.empty).

End Examples.

(** States of the metrics map, each reached by the service's own
    operations. *)
Module Scenarios.





End Scenarios.

(* ================================================================== *)
(** * Properties *)
(* ================================================================== *)

(** ** Status mapping *)

Section StatusFacts.

Import Status.
Local Open Scope string_scope.

Lemma toLowerCase_idempotent s : toLowerCase (toLowerCase s) = toLowerCase s.
Proof.
  induction s as [|c r IH]; simpl; [reflexivity|].
  rewrite IH. f_equal.
  destruct c as [[] [] [] [] [] [] [] []]; reflexivity.
Qed.

Ltac case_eqb :=
  repeat match goal with
  | |- context [String.eqb ?a ?b] =>
      destruct (String.eqb_spec a b)
  end.

(** C8 (as the code has it): the status is folded to lower case before it
    is compared, so the mapping is case-insensitive.  A present status maps
    to SUCCESS exactly when its lower-case form is "success" or "completed",
    to FAILED exactly when it is "failed" or "error", and to PENDING in
    every other case; an absent status maps to PENDING. *)
Theorem handleRexpayResponseStatus_spec :
  forall s : string,
    (handleRexpayResponseStatus (Some s) = SUCCESS
       <-> toLowerCase s = "success" \/ toLowerCase s = "completed")
    /\ (handleRexpayResponseStatus (Some s) = FAILED
       <-> toLowerCase s = "failed" \/ toLowerCase s = "error")
    /\ (handleRexpayResponseStatus (Some s) = PENDING
       <-> toLowerCase s <> "success" /\ toLowerCase s <> "completed"
           /\ toLowerCase s <> "failed" /\ toLowerCase s <> "error")
    /\ handleRexpayResponseStatus None = PENDING.
Proof.
  intros s. unfold handleRexpayResponseStatus. simpl option_map. cbv iota.
  generalize (toLowerCase s) as l. intros l.
  case_eqb; simpl; subst;
    repeat split; intros;
    try solve [ discriminate | congruence | tauto | intuition congruence ].
Qed.

(** The mapping read without case folding fails on an upper-case status:
    "SUCCESS" is none of the four listed words and yet is not PENDING. *)
Lemma handleRexpayResponseStatus_uppercase :
  ~ (forall s : string,
       s <> "success" -> s <> "completed" -> s <> "failed" -> s <> "error" ->
       handleRexpayResponseStatus (Some s) = PENDING).
Proof.
  intros H. specialize (H "SUCCESS").
  assert (E : handleRexpayResponseStatus (Some "SUCCESS") = SUCCESS) by reflexivity.
  rewrite H in E; discriminate.
Qed.

(** On a status that has no upper-case letter the two readings agree. *)
Lemma handleRexpayResponseStatus_lower s :
  is_lower s ->
  handleRexpayResponseStatus (Some s) =
    if (s =? "success") || (s =? "completed") then SUCCESS
    else if (s =? "failed") || (s =? "error") then FAILED
    else PENDING.
Proof.
  unfold is_lower, handleRexpayResponseStatus. simpl option_map. cbv iota.
  intros ->. case_eqb; reflexivity.
Qed.

(** The [helpers.ts] mapping folds nothing: it knows the members of
    [RexpayStatus] only. *)
Lemma helpers_handleRexpayResponseStatus_members :
  forall r : RexpayStatus,
    helpers_handleRexpayResponseStatus (RexpayStatus_value r) =
      match r with
      | RSUCCESS => SUCCESS
      | RFAILED => FAILED
      | RPENDING | RPROCESSING => PENDING
      end.
Proof. destruct r; reflexivity. Qed.

End StatusFacts.

(** ** The metrics map *)

Section JsMapFacts.

Import JsMap.

Lemma get_set_same k v m : get k (set k v m) = Some v.
Proof.
  induction m as [|[k' v'] r IH]; simpl.
  - now rewrite String.eqb_refl.
  - destruct (String.eqb_spec k' k) as [->|Hne]; simpl.
    + now rewrite String.eqb_refl.
    + destruct (String.eqb_spec k' k); [contradiction|exact IH].
Qed.

Lemma get_set_other k k' v m : k <> k' -> get k' (set k v m) = get k' m.
Proof.
  intros Hne. induction m as [|[k0 v0] r IH]; simpl.
  - destruct (String.eqb_spec k k'); [contradiction|reflexivity].
  - destruct (String.eqb_spec k0 k) as [->|Hk]; simpl.
    + destruct (String.eqb_spec k k'); [contradiction|reflexivity].
    + now rewrite IH.
Qed.

Lemma in_set_inv k v m kv : In kv (set k v m) -> kv = (k, v) \/ In kv m.
Proof.
  induction m as [|[k0 v0] r IH]; simpl.
  - intros [<-|[]]. now left.
  - destruct (String.eqb_spec k0 k) as [->|Hk]; simpl.
    + intros [<-|H]; [now left|now right; right].
    + intros [<-|H]; [now right; left|].
      destruct (IH H) as [->|H']; [now left|now right; right].
Qed.

Lemma get_in k v m : get k m = Some v -> In (k, v) m.
Proof.
  induction m as [|[k0 v0] r IH]; simpl; [discriminate|].
  destruct (String.eqb_spec k0 k) as [->|Hk].
  - intros [= ->]. now left.
  - intros H. right. now apply IH.
Qed.

Lemma set_length_known k v v0 m :
  get k m = Some v0 -> List.length (set k v m) = List.length m.
Proof.
  induction m as [|[k1 v1] r IH]; simpl; [discriminate|].
  destruct (String.eqb_spec k1 k) as [->|Hk]; simpl; [reflexivity|].
  intros H. now rewrite IH.
Qed.

End JsMapFacts.

(** ** Recording outcomes *)

Section MetricsFacts.

Import Service.

Lemma set_ok k v m : map_ok m -> counts_ok v -> map_ok (JsMap.set k v m).
Proof.
  intros Hm Hv kv Hin. destruct (in_set_inv _ _ _ _ Hin) as [->|H]; auto.
Qed.

Lemma get_ok k v m : map_ok m -> JsMap.get k m = Some v -> counts_ok v.
Proof. intros Hm Hg. exact (Hm _ (get_in _ _ _ Hg)). Qed.

Lemma register_ok subaccounts m : map_ok m -> map_ok (register subaccounts m).
Proof.
  unfold register. revert m.
  induction subaccounts as [|sub r IH]; simpl; intros m Hm; [exact Hm|].
  apply IH. destruct (JsMap.has sub m); [exact Hm|].
  apply set_ok; [exact Hm|]. unfold counts_ok, fresh; simpl; lia.
Qed.

Lemma in_insert_sorted cmp x l y :
  In y (insert_sorted cmp x l) -> y = x \/ In y l.
Proof.
  induction l as [|z r IH]; simpl.
  - intros [<-|[]]; now left.
  - destruct (Qle_bool (cmp x z) 0); simpl.
    + intros [<-|H]; [now left|now right].
    + intros [<-|H]; [now right; left|].
      destruct (IH H) as [->|H']; [now left|now right; right].
Qed.

Lemma in_sort cmp l y : In y (sort cmp l) -> In y l.
Proof.
  unfold sort. induction l as [|x r IH]; simpl; [tauto|].
  intros H. destruct (in_insert_sorted _ _ _ _ H) as [->|H']; auto.
Qed.

Lemma select_ok subaccounts now m :
  map_ok m -> map_ok (snd (selectOptimalSubaccount subaccounts now m)).
Proof.
  intros Hm. unfold selectOptimalSubaccount.
  pose proof (register_ok subaccounts m Hm) as Hr.
  destruct (sort _ _) as [|selected rest] eqn:Hs; simpl; [exact Hr|].
  apply set_ok; [exact Hr|].
  assert (Hin : In selected (JsMap.values (register subaccounts m))).
  { assert (H : In selected (selected :: rest)) by now left.
    rewrite <- Hs in H. apply in_sort in H.
    apply filter_In in H. tauto. }
  unfold JsMap.values in Hin. apply in_map_iff in Hin as [kv [<- Hkv]].
  exact (Hr _ Hkv).
Qed.

Lemma update_ok id success m :
  map_ok m -> map_ok (updateSubaccountMetrics id success m).
Proof.
  intros Hm. unfold updateSubaccountMetrics.
  destruct (JsMap.get id m) as [v|] eqn:Hg; [|exact Hm].
  apply set_ok; [exact Hm|].
  pose proof (get_ok _ _ _ Hm Hg) as Hv.
  unfold counts_ok in *; simpl. destruct success; lia.
Qed.

Lemma adjust_ok id rate m :
  map_ok m -> map_ok (adjustSubaccountMetrics id rate m).
Proof.
  intros Hm. unfold adjustSubaccountMetrics.
  destruct (JsMap.get id m) as [v|] eqn:Hg; [|exact Hm].
  apply set_ok; [exact Hm|]. exact (get_ok _ _ _ Hm Hg).
Qed.

(** Every state the service reaches keeps the counters consistent. *)
Lemma reachable_ok m : reachable m -> map_ok m.
Proof.
  induction 1.
  - intros kv [].
  - now apply select_ok.
  - now apply update_ok.
  - now apply adjust_ok.
Qed.

Lemma ratio_bounds s t :
  0 <= s <= t -> 0 < t -> (0 <= inject_Z s / inject_Z t <= 1)%Q.
Proof.
  intros [Hs Hst] Ht.
  assert (Hq : (0 < inject_Z t)%Q)
    by (change (inject_Z 0 < inject_Z t)%Q; rewrite <- Zlt_Qlt; exact Ht).
  split.
  - apply Qle_shift_div_l; [exact Hq|].
    rewrite Qmult_0_l. change (inject_Z 0 <= inject_Z s)%Q.
    rewrite <- Zle_Qle. exact Hs.
  - apply Qle_shift_div_r; [exact Hq|].
    rewrite Qmult_1_l. rewrite <- Zle_Qle. exact Hst.
Qed.

(** One call on a known id. *)
Lemma update_known id success m v :
  JsMap.get id m = Some v ->
  exists v',
    JsMap.get id (updateSubaccountMetrics id success m) = Some v'
    /\ totalTransactions v' = totalTransactions v + 1
    /\ successfulTransactions v' =
         successfulTransactions v + (if success then 1 else 0)
    /\ successRate v' =
         (inject_Z (successfulTransactions v') / inject_Z (totalTransactions v'))%Q.
Proof.
  intros Hg. unfold updateSubaccountMetrics. rewrite Hg.
  eexists. split; [apply get_set_same|]. simpl.
  destruct success; repeat split; lia.
Qed.

Lemma recordOutcomes_known id outcomes : forall m v,
  JsMap.get id m = Some v ->
  exists v',
    JsMap.get id (recordOutcomes id outcomes m) = Some v'
    /\ totalTransactions v' = totalTransactions v + Z.of_nat (List.length outcomes)
    /\ successfulTransactions v' =
         successfulTransactions v + Z.of_nat (count_true outcomes)
    /\ (outcomes <> [] ->
        successRate v' =
          (inject_Z (successfulTransactions v') / inject_Z (totalTransactions v'))%Q).
Proof.
  unfold recordOutcomes.
  induction outcomes as [|b r IH]; intros m v Hg.
  - exists v. simpl. repeat split; try lia; try assumption. congruence.
  - destruct (update_known id b m v Hg) as (v1 & Hg1 & Ht1 & Hs1 & Hr1).
    destruct (IH _ _ Hg1) as (v' & Hg' & Ht' & Hs' & Hr').
    exists v'. simpl fold_left. split; [exact Hg'|].
    split; [simpl List.length; lia|].
    split.
    + unfold count_true in *. simpl count_occ.
      destruct b; destruct (bool_dec _ _); try congruence; lia.
    + intros _. destruct r as [|b' r'].
      * simpl in Hg'. rewrite Hg1 in Hg'. injection Hg' as <-. exact Hr1.
      * apply Hr'. discriminate.
Qed.

(** C9: after any non-empty run of recorded outcomes on a subaccount the
    service has registered, each call has added one to totalTransactions and
    one to successfulTransactions for each success, successRate is
    successfulTransactions / totalTransactions, and it lies in [0,1]. *)
Theorem recordOutcomes_successRate :
  forall (m : JsMap.t) (id : string) (v : SubaccountMetrics) (outcomes : list bool),
    reachable m ->
    JsMap.get id m = Some v ->
    outcomes <> [] ->
    exists v',
      JsMap.get id (recordOutcomes id outcomes m) = Some v'
      /\ totalTransactions v' = totalTransactions v + Z.of_nat (List.length outcomes)
      /\ successfulTransactions v' =
           successfulTransactions v + Z.of_nat (count_true outcomes)
      /\ successRate v' =
           (inject_Z (successfulTransactions v') / inject_Z (totalTransactions v'))%Q
      /\ (0 <= successRate v' <= 1)%Q.
Proof.
  intros m id v outcomes Hreach Hg Hne.
  destruct (recordOutcomes_known id outcomes m v Hg) as (v' & Hg' & Ht & Hs & Hr).
  exists v'. repeat split; auto.
  all: rewrite (Hr Hne).
  all: pose proof (get_ok _ _ _ (reachable_ok _ Hreach) Hg) as Hv.
  all: assert (Hlen : (0 < List.length outcomes)%nat)
         by (destruct outcomes; [congruence|simpl; lia]).
  all: assert (Hc : (count_true outcomes <= List.length outcomes)%nat)
         by (unfold count_true; apply count_occ_bound).
  all: unfold counts_ok in Hv.
  all: apply ratio_bounds; lia.
Qed.

(** C10: recording an outcome for an id that has no entry changes nothing:
    the map is the same, every lookup gives what it gave, and no entry
    appears for the id. *)
Theorem updateSubaccountMetrics_unknown :
  forall (m : JsMap.t) (id : string) (success : bool),
    JsMap.get id m = None ->
    updateSubaccountMetrics id success m = m
    /\ (forall k, JsMap.get k (updateSubaccountMetrics id success m) = JsMap.get k m)
    /\ JsMap.has id (updateSubaccountMetrics id success m) = false.
Proof.
  intros m id success Hg.
  assert (E : updateSubaccountMetrics id success m = m)
    by (unfold updateSubaccountMetrics; now rewrite Hg).
  rewrite E. repeat split. unfold JsMap.has. now rewrite Hg.
Qed.

End MetricsFacts.

(** ** Selecting a subaccount *)

Section SelectionFacts.

Import ConfiguredService.

Lemma Qltb_true a b : Qltb a b = true <-> (a < b)%Q.
Proof.
  unfold Qltb. rewrite negb_true_iff, <- not_true_iff_false, Qle_bool_iff.
  split; [apply Qnot_le_lt|apply Qlt_not_le].
Qed.

Lemma Qltb_false a b : Qltb a b = false <-> (b <= a)%Q.
Proof.
  unfold Qltb. rewrite negb_false_iff. apply Qle_bool_iff.
Qed.

Lemma eligible_iff cfg v :
  eligible cfg v = true <-> (minSuccessRate cfg <= successRate v)%Q.
Proof. unfold eligible. rewrite negb_true_iff. apply Qltb_false. Qed.

Lemma recency_nonneg now v : (0 <= recency now v)%Q.
Proof.
  unfold recency.
  pose proof (Q.le_min_l 1 (inject_Z (now - lastUsed v) / inject_Z RECENCY_WINDOW)).
  lra.
Qed.

Variable cfg : SubaccountSelection.
Variable now : Z.

(** What the loop leaves in [(bestScore, bestSubaccount)]: either nothing
    beat the starting score, or the winner is the first entry, among those
    not skipped, whose score is the greatest. *)
Lemma fold_consider (l : JsMap.t) : forall (s0 : Q) (o0 : option string),
  (fold_left (consider cfg now) l (s0, o0) = (s0, o0)
   /\ forall id v, In (id, v) l -> eligible cfg v = true ->
        (score cfg now v <= s0)%Q)
  \/ exists pre id v post,
       l = (pre ++ (id, v) :: post)%list
       /\ fold_left (consider cfg now) l (s0, o0) = (score cfg now v, Some id)
       /\ eligible cfg v = true
       /\ (s0 < score cfg now v)%Q
       /\ (forall id' v', In (id', v') pre -> eligible cfg v' = true ->
             (score cfg now v' < score cfg now v)%Q)
       /\ (forall id' v', In (id', v') post -> eligible cfg v' = true ->
             (score cfg now v' <= score cfg now v)%Q).
Proof.
  induction l as [|[k e] r IH]; intros s0 o0.
  - left. split; [reflexivity|]. intros ? ? [].
  - simpl fold_left. unfold consider at 2. unfold eligible in *.
    destruct (Qltb (successRate e) (minSuccessRate cfg)) eqn:Hskip.
    + (* skipped *)
      destruct (IH s0 o0) as [[Hf Hall]|(pre & id & v & post & -> & Hf & He & Hlt & Hpre & Hpost)].
      * left. split; [exact Hf|].
        intros id v [[= <- <-]|Hin] Hel; [|eauto].
        rewrite Hskip in Hel. discriminate.
      * right. exists ((k, e) :: pre), id, v, post.
        repeat split; auto.
        intros id' v' [[= <- <-]|Hin] Hel; [|eauto].
        rewrite Hskip in Hel. discriminate.
    + simpl fst.
      destruct (Qltb s0 (score cfg now e)) eqn:Hbeat.
      * (* a new best *)
        apply Qltb_true in Hbeat.
        destruct (IH (score cfg now e) (Some k))
          as [[Hf Hall]|(pre & id & v & post & -> & Hf & He & Hlt & Hpre & Hpost)].
        -- right. exists [], k, e, r. simpl. rewrite Hskip.
           repeat split; auto. intros ? ? [].
        -- right. exists ((k, e) :: pre), id, v, post.
           repeat split; auto.
           ++ now apply Qlt_trans with (score cfg now e).
           ++ intros id' v' [[= <- <-]|Hin] Hel; [exact Hlt|eauto].
      * (* not better than the best so far *)
        apply Qltb_false in Hbeat.
        destruct (IH s0 o0)
          as [[Hf Hall]|(pre & id & v & post & -> & Hf & He & Hlt & Hpre & Hpost)].
        -- left. split; [exact Hf|].
           intros id v [[= <- <-]|Hin] Hel; [exact Hbeat|eauto].
        -- right. exists ((k, e) :: pre), id, v, post.
           repeat split; auto.
           intros id' v' [[= <- <-]|Hin] Hel; [|eauto].
           now apply Qle_lt_trans with s0.
Qed.

(** The shape of a successful selection. *)
Lemma selectBestSubaccount_Some (m : JsMap.t) (id : string) :
  selectBestSubaccount cfg now m = Some id ->
  exists pre v post,
    m = (pre ++ (id, v) :: post)%list
    /\ eligible cfg v = true
    /\ (-1 < score cfg now v)%Q
    /\ (forall id' v', In (id', v') pre -> eligible cfg v' = true ->
          (score cfg now v' < score cfg now v)%Q)
    /\ (forall id' v', In (id', v') post -> eligible cfg v' = true ->
          (score cfg now v' <= score cfg now v)%Q).
Proof.
  unfold selectBestSubaccount.
  destruct (JsMap.size m =? 0)%nat; [discriminate|].
  destruct (fold_consider m (-1)%Q None)
    as [[Hf _]|(pre & k & v & post & -> & Hf & He & Hlt & Hpre & Hpost)];
    rewrite Hf; simpl; [discriminate|].
  intros [= <-]. exists pre, v, post. repeat split; auto.
Qed.

(** A selection succeeds as soon as one entry that is not skipped scores
    above the starting score. *)
Lemma selectBestSubaccount_finds (m : JsMap.t) (id : string) (v : SubaccountMetrics) :
  In (id, v) m -> eligible cfg v = true -> (-1 < score cfg now v)%Q ->
  exists id', selectBestSubaccount cfg now m = Some id'.
Proof.
  intros Hin He Hs. unfold selectBestSubaccount.
  destruct m as [|e r]; [destruct Hin|]. simpl Nat.eqb. cbv iota.
  destruct (fold_consider (e :: r) (-1)%Q None)
    as [[Hf Hall]|(pre & k & w & post & _ & Hf & _)]; rewrite Hf; simpl.
  - exfalso. specialize (Hall _ _ Hin He). lra.
  - now exists k.
Qed.

End SelectionFacts.

Section SelectionTheorems.

Import ConfiguredService.

Lemma score_default now v : score defaultConfig now v = spec_score now v.
Proof. reflexivity. Qed.

Lemma score_nonneg cfg now v :
  (0 <= successRateWeight cfg)%Q -> (0 <= recencyWeight cfg)%Q ->
  (0 <= successRate v)%Q -> (0 <= score cfg now v)%Q.
Proof.
  intros Hs Hr Hv. unfold score.
  pose proof (Qmult_le_0_compat _ _ Hv Hs).
  pose proof (Qmult_le_0_compat _ _ (recency_nonneg now v) Hr).
  lra.
Qed.

(** The threshold of the configured variant: [selectBestSubaccount] never
    returns an id whose success rate is below [minSuccessRate]; and, the
    weights and the threshold not being negative, it does return one (at or
    above the threshold) whenever some known subaccount is at or above the
    threshold. *)
Lemma selectBestSubaccount_threshold :
  forall (cfg : SubaccountSelection) (now : Z) (m : JsMap.t),
    (0 <= successRateWeight cfg)%Q ->
    (0 <= recencyWeight cfg)%Q ->
    (0 <= minSuccessRate cfg)%Q ->
    (forall id, selectBestSubaccount cfg now m = Some id ->
       exists v, In (id, v) m /\ (minSuccessRate cfg <= successRate v)%Q)
    /\ ((exists id v, In (id, v) m /\ (minSuccessRate cfg <= successRate v)%Q) ->
        exists id v,
          selectBestSubaccount cfg now m = Some id
          /\ In (id, v) m /\ (minSuccessRate cfg <= successRate v)%Q).
Proof.
  intros cfg now m Hws Hwr Hmin.
  assert (Hsome : forall id, selectBestSubaccount cfg now m = Some id ->
            exists v, In (id, v) m /\ (minSuccessRate cfg <= successRate v)%Q).
  { intros id Hsel.
    destruct (selectBestSubaccount_Some cfg now m id Hsel)
      as (pre & v & post & -> & He & _).
    exists v. split; [apply in_elt|now apply eligible_iff]. }
  split; [exact Hsome|].
  intros (id & v & Hin & Hv).
  destruct (selectBestSubaccount_finds cfg now m id v Hin) as [id' Hsel].
  - now apply eligible_iff.
  - assert (0 <= score cfg now v)%Q by (apply score_nonneg; auto; lra). lra.
  - destruct (Hsome id' Hsel) as (v' & Hin' & Hv'). now exists id', v'.
Qed.

(** The scenario of two subaccounts with the same [lastUsed]. *)
Lemma selectBestSubaccount_pair now ida idb a b :
  (successRate a == 95 # 100)%Q -> (successRate b == 99 # 100)%Q ->
  lastUsed a = lastUsed b ->
  selectBestSubaccount defaultConfig now [(ida, a); (idb, b)] = Some idb
  /\ selectBestSubaccount defaultConfig now [(idb, b); (ida, a)] = Some idb.
Proof.
  intros Ha Hb Hl.
  assert (Hr : recency now a = recency now b) by (unfold recency; now rewrite Hl).
  pose proof (recency_nonneg now a) as Hra.
  pose proof (recency_nonneg now b) as Hrb.
  unfold selectBestSubaccount, consider. simpl.
  assert (Ea : Qltb (successRate a) (8 # 10) = false) by (apply Qltb_false; lra).
  assert (Eb : Qltb (successRate b) (8 # 10) = false) by (apply Qltb_false; lra).
  assert (Sa : Qltb (-1) (score defaultConfig now a) = true)
    by (apply Qltb_true; unfold score; simpl; lra).
  assert (Sb : Qltb (-1) (score defaultConfig now b) = true)
    by (apply Qltb_true; unfold score; simpl; lra).
  assert (Sab : Qltb (score defaultConfig now a) (score defaultConfig now b) = true)
    by (apply Qltb_true; unfold score; simpl; rewrite Hr; lra).
  assert (Sba : Qltb (score defaultConfig now b) (score defaultConfig now a) = false)
    by (apply Qltb_false; unfold score; simpl; rewrite Hr; lra).
  rewrite Ea, Eb, Sa, Sb. simpl. rewrite Sab, Sba. split; reflexivity.
Qed.

(** The score of the configured variant: with the default weights
    [selectBestSubaccount] returns a candidate (an entry at or above the
    threshold 0.8) whose score
    [successRate * 0.7 + recency * 0.3], recency being
    [1 - min(1, (now - lastUsed) / 30 days)], is the highest among the
    candidates; it returns one whenever there is a candidate; and of two
    known subaccounts with the same [lastUsed] and success rates 0.95 and
    0.99 it returns the second, in whichever order they were first seen. *)
Lemma selectBestSubaccount_highest_score :
  (forall (now : Z) (m : JsMap.t) (id : string),
     selectBestSubaccount defaultConfig now m = Some id ->
     exists v,
       In (id, v) m /\ (8 # 10 <= successRate v)%Q
       /\ forall id' v', In (id', v') m -> (8 # 10 <= successRate v')%Q ->
            (spec_score now v' <= spec_score now v)%Q)
  /\ (forall (now : Z) (m : JsMap.t),
        (exists id v, In (id, v) m /\ (8 # 10 <= successRate v)%Q) ->
        exists id, selectBestSubaccount defaultConfig now m = Some id)
  /\ (forall (now : Z) (ida idb : string) (a b : SubaccountMetrics),
        (successRate a == 95 # 100)%Q -> (successRate b == 99 # 100)%Q ->
        lastUsed a = lastUsed b ->
        selectBestSubaccount defaultConfig now [(ida, a); (idb, b)] = Some idb
        /\ selectBestSubaccount defaultConfig now [(idb, b); (ida, a)] = Some idb).
Proof.
  split; [|split].
  - intros now m id Hsel.
    destruct (selectBestSubaccount_Some defaultConfig now m id Hsel)
      as (pre & v & post & -> & He & _ & Hpre & Hpost).
    exists v. split; [apply in_elt|].
    split; [now apply (eligible_iff defaultConfig)|].
    intros id' v' Hin Hv'. rewrite <- !score_default.
    apply (eligible_iff defaultConfig) in Hv'.
    apply in_app_or in Hin as [Hin|[[= <- <-]|Hin]].
    + apply Qlt_le_weak. eauto.
    + apply Qle_refl.
    + eauto.
  - intros now m (id & v & Hin & Hv).
    apply (selectBestSubaccount_finds defaultConfig now m id v Hin).
    + now apply (eligible_iff defaultConfig).
    + assert (0 <= score defaultConfig now v)%Q.
      { apply score_nonneg; simpl; lra. }
      lra.
  - intros. now apply selectBestSubaccount_pair.
Qed.

End SelectionTheorems.

(** ** The retry executor *)

Section RetryFacts.

Import Retry.

Context {W T : Type}.
Variable operation : Operation W T.
Variable retries : nat.

Lemma retry_loop_attempts_le fuel : forall attempt s calls slept,
  (attempts (retry_loop operation retries fuel attempt s calls slept)
   <= calls + fuel)%nat.
Proof.
  induction fuel as [|fuel IH]; intros attempt s calls slept; simpl.
  - lia.
  - destruct (operation s) as [[v|error] s']; simpl; [lia|].
    destruct (attempt =? retries)%nat; simpl; [lia|].
    eapply Nat.le_trans; [apply IH|lia].
Qed.

Lemma retry_loop_attempts_ge fuel : forall attempt s calls slept,
  (0 < fuel)%nat ->
  (calls + 1 <= attempts (retry_loop operation retries fuel attempt s calls slept))%nat.
Proof.
  induction fuel as [|fuel IH]; intros attempt s calls slept Hf; [lia|]. simpl.
  destruct (operation s) as [[v|error] s']; simpl; [lia|].
  destruct (attempt =? retries)%nat eqn:E; simpl; [lia|].
  destruct fuel as [|fuel']; [simpl; lia|].
  eapply Nat.le_trans; [|apply IH; lia]. lia.
Qed.

(** The loop when every call rejects with the same error. *)
Lemma retry_loop_all_fail (error : JsError) :
  (forall s, fst (operation s) = inr error) ->
  forall fuel attempt s calls slept,
    (attempt + fuel = retries + 1)%nat -> (0 < fuel)%nat ->
    let r := retry_loop operation retries fuel attempt s calls slept in
    outcome r = inr error
    /\ attempts r = (calls + fuel)%nat
    /\ delays r =
         (slept ++ map (fun k => INITIAL_RETRY_DELAY * 2 ^ Z.of_nat k)
                     (seq attempt (fuel - 1)))%list.
Proof.
  intros Hfail.
  induction fuel as [|fuel IH]; intros attempt s calls slept Hsum Hpos; [lia|].
  cbn [retry_loop]. pose proof (Hfail s) as Hs.
  destruct (operation s) as [res s']. cbn [fst] in Hs. subst res.
  destruct (Nat.eqb_spec attempt retries) as [->|Hne]; cbn [outcome attempts delays].
  - assert (fuel = 0)%nat by lia. subst fuel. cbn [Nat.sub seq map].
    rewrite app_nil_r. repeat split; lia.
  - destruct fuel as [|fuel']; [lia|].
    destruct (IH (attempt + 1)%nat s' (calls + 1)%nat
                (slept ++ [INITIAL_RETRY_DELAY * 2 ^ Z.of_nat attempt])%list)
      as (Ho & Ha & Hd); [lia|lia|].
    split; [exact Ho|]. split; [lia|].
    rewrite Hd. rewrite <- app_assoc. cbn [app Nat.sub seq map].
    rewrite Nat.sub_0_r, Nat.add_1_r. reflexivity.
Qed.

(** The loop when every call rejects, with errors of one kind. *)
Lemma retry_loop_all_fail_kind (P : JsError -> Prop) :
  (forall s, exists e, fst (operation s) = inr e /\ P e) ->
  forall fuel attempt s calls slept,
    (attempt + fuel = retries + 1)%nat -> (0 < fuel)%nat ->
    exists e,
      outcome (retry_loop operation retries fuel attempt s calls slept) = inr e
      /\ P e.
Proof.
  intros Hfail.
  induction fuel as [|fuel IH]; intros attempt s calls slept Hsum Hpos; [lia|].
  cbn [retry_loop]. destruct (Hfail s) as (e & He & HP).
  destruct (operation s) as [res s']. cbn [fst] in He. subst res.
  destruct (Nat.eqb_spec attempt retries) as [->|Hne]; cbn [outcome].
  - now exists e.
  - apply IH; lia.
Qed.

End RetryFacts.

Section RetryTheorems.

Import Retry.

(** C1 (as the code has it): the executor asks no classifier; whatever an
    operation rejects with, it is called again until the retries are used
    up.  An operation that rejects with the same error at every call is
    called [retries + 1] times, the delays awaited in between are
    [INITIAL_RETRY_DELAY * 2 ^ attempt], and the error comes out unchanged. *)
Theorem executeWithRetry_retries_every_failure :
  forall (W T : Type) (operation : Operation W T) (error : JsError)
         (retries : nat) (s : W),
    (forall s', fst (operation s') = inr error) ->
    outcome (executeWithRetry operation retries s) = inr error
    /\ attempts (executeWithRetry operation retries s) = (retries + 1)%nat
    /\ delays (executeWithRetry operation retries s) = backoff_schedule retries.
Proof.
  intros W T operation error retries s Hfail.
  unfold executeWithRetry, backoff_schedule.
  destruct (retry_loop_all_fail operation retries error Hfail
              (retries + 1)%nat 0%nat s 0%nat [])
    as (Ho & Ha & Hd); [lia|lia|].
  split; [exact Ho|]. split; [exact Ha|].
  rewrite Hd. simpl. now rewrite Nat.add_sub.
Qed.

(** An HTTP 400 failure is what the classifier turns into a validation
    error, and the executor still retries it: four calls and three delays
    with the default number of retries, not one call and no delay. *)
Lemma executeWithRetry_400_is_retried :
  let r := executeWithRetry (T := unit) (always_fails (http_failure 400))
             MAX_RETRIES tt in
  ConfiguredService.handleError (http_failure 400) = ValidationError "Request failed"
  /\ outcome r = inr (http_failure 400)
  /\ attempts r = 4%nat
  /\ delays r = [1000; 2000; 4000]
  /\ ~ (attempts r = 1%nat /\ delays r = []).
Proof.
  cbv zeta. repeat split; try reflexivity.
  intros [H _]. vm_compute in H. discriminate.
Qed.

(** C7: an operation that rejects with an HTTP 429 failure at its first two
    calls and resolves at the third is called three times (with delays of
    1000 and 2000 ms) and its value is returned; and no operation is ever
    called more than [retries + 1] times, that is 4 times with the default
    [MAX_RETRIES], nor fewer than once. *)
Theorem executeWithRetry_attempts :
  (forall (T : Type) (value : T),
     let r := executeWithRetry
                (fails_then_succeeds 2 (http_failure 429) value) MAX_RETRIES 0%nat in
     outcome r = inl value /\ attempts r = 3%nat
     /\ final r = 3%nat /\ delays r = [1000; 2000])
  /\ (forall (W T : Type) (operation : Operation W T) (retries : nat) (s : W),
        (1 <= attempts (executeWithRetry operation retries s) <= retries + 1)%nat)
  /\ (MAX_RETRIES + 1 = 4)%nat.
Proof.
  split; [|split].
  - intros T value. cbv zeta. repeat split; reflexivity.
  - intros W T operation retries s. unfold executeWithRetry. split.
    + apply (retry_loop_attempts_ge operation retries (retries + 1) 0 s 0 []). lia.
    + apply (retry_loop_attempts_le operation retries (retries + 1) 0 s 0 []).
  - reflexivity.
Qed.

End RetryTheorems.

(** ** The encryption helpers *)

Section CodecFacts.

Import Encryption.

Ltac zarith := Z.div_mod_to_equations; lia.

Ltac zcase :=
  match goal with
  | |- context [?a =? ?b] => destruct (Z.eqb_spec a b)
  | |- context [?a <? ?b] => destruct (Z.ltb_spec a b)
  | |- context [?a <=? ?b] => destruct (Z.leb_spec a b)
  end.

Ltac zcases := repeat (zcase; try (exfalso; zarith)).

Lemma is_byte_iff b : is_byte b = true <-> 0 <= b < 256.
Proof. unfold is_byte. rewrite andb_true_iff, Z.leb_le, Z.ltb_lt. tauto. Qed.

Lemma is_unit_iff u : is_unit u = true <-> 0 <= u < 65536.
Proof. unfold is_unit. rewrite andb_true_iff, Z.leb_le, Z.ltb_lt. tauto. Qed.

Lemma forallb_cons {A} (f : A -> bool) a l :
  forallb f (a :: l) = true <-> f a = true /\ forallb f l = true.
Proof. simpl. apply andb_true_iff. Qed.

Lemma list_ind3 {A} (P : list A -> Prop) :
  P [] -> (forall a, P [a]) -> (forall a b, P [a; b]) ->
  (forall a b c l, P l -> P (a :: b :: c :: l)) ->
  forall l, P l.
Proof.
  intros H0 H1 H2 H3 l.
  assert (H : P l /\ (forall a, P (a :: l)) /\ (forall a b, P (a :: b :: l))).
  { induction l as [|x l (IH0 & IH1 & IH2)]; repeat split; auto. }
  apply H.
Qed.

(** *** base64 *)

Lemma base64_value_char n :
  0 <= n < 64 -> base64_value (base64_char n) = Some n /\ base64_char n <> 61.
Proof.
  intros Hn. unfold base64_value, base64_char.
  zcases; cbn [andb orb]; split; try lia; f_equal; lia.
Qed.

Lemma base64_values_char n r :
  0 <= n < 64 -> base64_values (base64_char n :: r) = n :: base64_values r.
Proof.
  intros Hn. destruct (base64_value_char n Hn) as [Hv Hne].
  cbn [base64_values]. rewrite Hv.
  destruct (Z.eqb_spec (base64_char n) 61); [contradiction|reflexivity].
Qed.

Lemma base64_decode_encode bs :
  forallb is_byte bs = true -> base64_decode (base64_encode bs) = bs.
Proof.
  unfold base64_decode.
  induction bs as [|a|a b|a b c l IH] using list_ind3; intros Hb.
  - reflexivity.
  - apply forallb_cons in Hb as [Ha _]. apply is_byte_iff in Ha.
    cbn [base64_encode].
    rewrite !base64_values_char by zarith.
    cbn [base64_values Z.eqb Pos.eqb base64_bytes].
    f_equal. zarith.
  - apply forallb_cons in Hb as [Ha Hb]. apply forallb_cons in Hb as [Hb _].
    apply is_byte_iff in Ha, Hb.
    cbn [base64_encode].
    rewrite !base64_values_char by zarith.
    cbn [base64_values Z.eqb Pos.eqb base64_bytes].
    f_equal; [|f_equal]; zarith.
  - apply forallb_cons in Hb as [Ha Hb]. apply forallb_cons in Hb as [Hb Hc].
    apply forallb_cons in Hc as [Hc Hl].
    apply is_byte_iff in Ha, Hb, Hc.
    cbn [base64_encode].
    rewrite !base64_values_char by zarith.
    cbn [base64_bytes]. rewrite (IH Hl).
    f_equal; [|f_equal; [|f_equal]]; zarith.
Qed.

(** *** UTF-8 *)

Ltac zstep :=
  first [ zcase; try (exfalso; zarith)
        | progress unfold lead | progress unfold units_of ];
  cbn [andb orb negb app fst snd utf8_decode_from decoder_step].

Lemma utf8_decode_bytes cp r :
  scalar_value cp ->
  utf8_decode_from Idle (utf8_bytes cp ++ r)%list
  = (units_of cp ++ utf8_decode_from Idle r)%list.
Proof.
  intros [Hr Hs]. unfold utf8_bytes.
  destruct (Z.ltb_spec cp 0x80);
    [|destruct (Z.ltb_spec cp 0x800); [|destruct (Z.ltb_spec cp 0x10000)]];
    cbn [app utf8_decode_from decoder_step]; unfold units_of;
    repeat zstep; cbn [app]; repeat f_equal; zarith.
Qed.

Lemma units_of_pair hi lo :
  is_high_surrogate hi = true -> is_low_surrogate lo = true ->
  scalar_value (pair_code_point hi lo)
  /\ units_of (pair_code_point hi lo) = [hi; lo].
Proof.
  unfold is_high_surrogate, is_low_surrogate, scalar_value, pair_code_point, units_of.
  rewrite !andb_true_iff, !Z.leb_le. intros [H1 H2] [H3 H4].
  split; [lia|].
  zcases. repeat f_equal; zarith.
Qed.

Lemma utf8_serializable_cons u rest :
  utf8_serializable (u :: rest) = true ->
  (is_high_surrogate u = true /\ exists l rest',
      rest = l :: rest' /\ is_low_surrogate l = true
      /\ utf8_serializable rest' = true)
  \/ (is_high_surrogate u = false /\ is_low_surrogate u = false
      /\ 0 <= u < 65536 /\ utf8_serializable rest = true).
Proof.
  cbn [utf8_serializable].
  destruct (is_high_surrogate u).
  - destruct rest as [|l rest']; [discriminate|].
    rewrite andb_true_iff. intros [Hl Hr]. left. split; [reflexivity|].
    now exists l, rest'.
  - rewrite !andb_true_iff, negb_true_iff, is_unit_iff. intros [[Hu Hl] Hr].
    right. auto.
Qed.

Lemma not_surrogate_scalar u :
  is_high_surrogate u = false -> is_low_surrogate u = false ->
  0 <= u < 65536 -> scalar_value u /\ units_of u = [u].
Proof.
  unfold is_high_surrogate, is_low_surrogate, scalar_value, units_of.
  rewrite !andb_false_iff, !Z.leb_gt. intros Hh Hl Hu.
  split; [lia|]. zcases. reflexivity.
Qed.

Lemma utf8_decode_encode_bounded n : forall s,
  (List.length s <= n)%nat ->
  utf8_serializable s = true -> utf8_decode (utf8_encode s) = s.
Proof.
  unfold utf8_decode.
  induction n as [|n IH]; intros [|u rest] Hlen Hs; try reflexivity;
    cbn [List.length] in Hlen; [lia|].
  destruct (utf8_serializable_cons _ _ Hs)
    as [(Hh & l & rest' & -> & Hl & Hr)|(Hh & Hl & Hu & Hr)].
  - cbn [utf8_encode]. rewrite Hh, Hl.
    destruct (units_of_pair u l Hh Hl) as [Hsv Hunits].
    rewrite (utf8_decode_bytes _ _ Hsv), Hunits.
    cbn [List.length] in Hlen.
    destruct n as [|n']; [lia|].
    rewrite (IH rest') by (auto; lia). reflexivity.
  - cbn [utf8_encode]. rewrite Hh, Hl.
    destruct (not_surrogate_scalar u Hh Hl Hu) as [Hsv Hunits].
    rewrite (utf8_decode_bytes _ _ Hsv), Hunits.
    rewrite (IH rest) by (auto; lia). reflexivity.
Qed.

(** Decoding the encoding of a string gives the string back. *)
Lemma utf8_decode_encode s :
  utf8_serializable s = true -> utf8_decode (utf8_encode s) = s.
Proof. apply (utf8_decode_encode_bounded (List.length s)). lia. Qed.

Lemma utf8_bytes_are_bytes cp :
  0 <= cp < 0x110000 -> forallb is_byte (utf8_bytes cp) = true.
Proof.
  intros Hcp. unfold utf8_bytes.
  zcases; cbn [forallb]; rewrite ?andb_true_iff; repeat split;
    try reflexivity; apply is_byte_iff; zarith.
Qed.

Lemma utf8_encode_bytes_bounded n : forall s,
  (List.length s <= n)%nat ->
  forallb is_unit s = true -> forallb is_byte (utf8_encode s) = true.
Proof.
  induction n as [|n IH]; intros [|u rest] Hlen Hs; try reflexivity;
    cbn [List.length] in Hlen; [lia|].
  apply forallb_cons in Hs as [Hu Hrest]. apply is_unit_iff in Hu.
  assert (Hfffd : forallb is_byte (utf8_bytes 0xFFFD) = true) by reflexivity.
  cbn [utf8_encode].
  destruct (is_high_surrogate u) eqn:Hh.
  - destruct rest as [|l rest']; [exact Hfffd|].
    destruct (is_low_surrogate l) eqn:Hl; rewrite forallb_app.
    + destruct (units_of_pair u l Hh Hl) as [[Hsv _] _].
      rewrite (utf8_bytes_are_bytes _ Hsv). cbn [andb].
      apply forallb_cons in Hrest as [_ Hrest'].
      apply IH; [cbn [List.length] in Hlen; lia|exact Hrest'].
    + rewrite Hfffd. cbn [andb]. apply IH; [lia|exact Hrest].
  - destruct (is_low_surrogate u); rewrite forallb_app.
    + rewrite Hfffd. cbn [andb]. apply IH; [lia|exact Hrest].
    + rewrite utf8_bytes_are_bytes by lia. cbn [andb]. apply IH; [lia|exact Hrest].
Qed.

(** The encoding of a string is a sequence of bytes. *)
Lemma utf8_encode_bytes s :
  forallb is_unit s = true -> forallb is_byte (utf8_encode s) = true.
Proof. apply (utf8_encode_bytes_bounded (List.length s)). lia. Qed.

Lemma utf8_serializable_units_bounded n : forall s,
  (List.length s <= n)%nat ->
  utf8_serializable s = true -> forallb is_unit s = true.
Proof.
  induction n as [|n IH]; intros [|u rest] Hlen Hs; try reflexivity;
    cbn [List.length] in Hlen; [lia|].
  destruct (utf8_serializable_cons _ _ Hs)
    as [(Hh & l & rest' & -> & Hl & Hr)|(Hh & Hl & Hu & Hr)].
  - unfold is_high_surrogate, is_low_surrogate in Hh, Hl.
    rewrite !andb_true_iff, !Z.leb_le in Hh, Hl.
    cbn [forallb List.length] in *. rewrite !andb_true_iff. repeat split.
    + apply is_unit_iff; lia.
    + apply is_unit_iff; lia.
    + destruct n as [|n']; [lia|]. apply IH; [lia|exact Hr].
  - cbn [forallb]. rewrite andb_true_iff. split; [now apply is_unit_iff|].
    apply IH; [lia|exact Hr].
Qed.

Lemma utf8_serializable_units s :
  utf8_serializable s = true -> forallb is_unit s = true.
Proof. apply (utf8_serializable_units_bounded (List.length s)). lia. Qed.

(** A string of ASCII characters is its own encoding. *)
Lemma utf8_encode_ascii s :
  forallb (fun u => (0 <=? u) && (u <? 128)) s = true -> utf8_encode s = s.
Proof.
  induction s as [|u rest IH]; [reflexivity|].
  rewrite forallb_cons, andb_true_iff, Z.leb_le, Z.ltb_lt. intros [Hu Hrest].
  cbn [utf8_encode]. unfold is_high_surrogate, is_low_surrogate, utf8_bytes.
  zcases; cbn [andb app]. now rewrite IH.
Qed.

(** *** The hexadecimal digest *)

Lemma hex_encode_length bs : List.length (hex_encode bs) = (2 * List.length bs)%nat.
Proof.
  unfold hex_encode. induction bs as [|b r IH]; [reflexivity|].
  cbn [flat_map app List.length]. rewrite IH. lia.
Qed.

Lemma hex_encode_ascii bs :
  forallb is_byte bs = true ->
  forallb (fun u => (0 <=? u) && (u <? 128)) (hex_encode bs) = true.
Proof.
  unfold hex_encode. induction bs as [|b r IH]; [reflexivity|].
  rewrite forallb_cons, is_byte_iff. intros [Hb Hr].
  cbn [flat_map app forallb]. rewrite (IH Hr), !andb_true_r.
  unfold hex_digit. rewrite !andb_true_iff, !Z.leb_le, !Z.ltb_lt.
  zcases; zarith.
Qed.

(** *** Padding *)

Lemma forallb_firstn {A} (f : A -> bool) n l :
  forallb f l = true -> forallb f (firstn n l) = true.
Proof.
  revert n. induction l as [|a l IH]; intros [|n]; simpl; auto.
  rewrite !andb_true_iff. intros [Ha Hl]. auto.
Qed.

Lemma forallb_skipn {A} (f : A -> bool) n l :
  forallb f l = true -> forallb f (skipn n l) = true.
Proof.
  revert n. induction l as [|a l IH]; intros [|n]; simpl; auto.
  rewrite !andb_true_iff. intros [Ha Hl]. auto.
Qed.

Lemma forallb_repeat {A} (f : A -> bool) x n :
  f x = true -> forallb f (repeat x n) = true.
Proof. intros Hx. induction n; simpl; [reflexivity|now rewrite Hx]. Qed.

Lemma last_app_repeat (d : list Z) x n :
  (0 < n)%nat -> last (d ++ repeat x n)%list 0 = x.
Proof.
  intros Hn. destruct n as [|n]; [lia|].
  replace (repeat x (S n)) with (repeat x n ++ [x])%list
    by (now rewrite <- repeat_cons).
  rewrite app_assoc. apply last_last.
Qed.

Lemma pad_count (len : nat) : (1 <= 16 - len mod 16 <= 16)%nat.
Proof. pose proof (Nat.mod_upper_bound len 16). lia. Qed.

Lemma pkcs7_pad_length data :
  List.length (pkcs7_pad data) = (16 * (List.length data / 16 + 1))%nat.
Proof.
  unfold pkcs7_pad. rewrite length_app, repeat_length.
  pose proof (Nat.div_mod_eq (List.length data) 16).
  pose proof (Nat.mod_upper_bound (List.length data) 16). lia.
Qed.

Lemma pkcs7_pad_bytes data :
  forallb is_byte data = true -> forallb is_byte (pkcs7_pad data) = true.
Proof.
  intros Hd. unfold pkcs7_pad. rewrite forallb_app, Hd. cbn [andb].
  apply forallb_repeat. apply is_byte_iff.
  pose proof (pad_count (List.length data)). lia.
Qed.

Lemma pkcs7_unpad_pad data : pkcs7_unpad (pkcs7_pad data) = Some data.
Proof.
  unfold pkcs7_unpad, pkcs7_pad.
  pose proof (pad_count (List.length data)) as Hn.
  set (n := (16 - List.length data mod 16)%nat) in *.
  rewrite last_app_repeat by lia. rewrite Nat2Z.id.
  rewrite length_app, repeat_length.
  replace (List.length data + n - n)%nat with (List.length data) by lia.
  rewrite skipn_app, Nat.sub_diag, skipn_all. cbn [skipn app].
  rewrite firstn_app, Nat.sub_diag, firstn_all. cbn [firstn]. rewrite app_nil_r.
  replace ((1 <=? n)%nat && (n <=? 16)%nat && (n <=? List.length data + n)%nat)
    with true
    by (symmetry; rewrite !andb_true_iff, !Nat.leb_le; lia).
  rewrite forallb_repeat by apply Z.eqb_refl. reflexivity.
Qed.

(** *** Chaining *)

Lemma lxor_byte a b : 0 <= a < 256 -> 0 <= b < 256 -> 0 <= Z.lxor a b < 256.
Proof.
  intros Ha Hb.
  assert (Hnn : 0 <= Z.lxor a b) by (apply Z.lxor_nonneg; lia).
  split; [exact Hnn|].
  destruct (Z.eq_dec (Z.lxor a b) 0) as [->|Hne]; [lia|].
  change 256 with (2 ^ 8). apply Z.log2_lt_pow2; [lia|].
  pose proof (Z.log2_lxor a b ltac:(lia) ltac:(lia)) as Hl.
  assert (Hla : Z.log2 a < 8).
  { destruct (Z.eq_dec a 0) as [->|]; [simpl; lia|].
    apply Z.log2_lt_pow2; lia. }
  assert (Hlb : Z.log2 b < 8).
  { destruct (Z.eq_dec b 0) as [->|]; [simpl; lia|].
    apply Z.log2_lt_pow2; lia. }
  lia.
Qed.

Lemma xor_bytes_length a b :
  List.length a = List.length b -> List.length (xor_bytes a b) = List.length a.
Proof.
  intros H. unfold xor_bytes. rewrite length_map, length_combine. lia.
Qed.

Lemma xor_bytes_bytes a b :
  forallb is_byte a = true -> forallb is_byte b = true ->
  forallb is_byte (xor_bytes a b) = true.
Proof.
  unfold xor_bytes. revert b.
  induction a as [|x a IH]; intros [|y b]; try reflexivity.
  rewrite !forallb_cons. intros [Hx Ha] [Hy Hb]. cbn [combine map forallb].
  rewrite (IH b Ha Hb), andb_true_r. apply is_byte_iff.
  apply lxor_byte; now apply is_byte_iff.
Qed.

Lemma xor_bytes_involutive a b :
  List.length a = List.length b -> xor_bytes (xor_bytes a b) b = a.
Proof.
  unfold xor_bytes. revert b.
  induction a as [|x a IH]; intros [|y b]; try discriminate; [reflexivity|].
  cbn [List.length combine map fst snd]. intros [= H].
  rewrite (IH b H). f_equal.
  now rewrite Z.lxor_assoc, Z.lxor_nilpotent, Z.lxor_0_r.
Qed.

Section Chaining.

Context {crypto : NodeCrypto}.

Lemma cbc_decrypt_encrypt blocks : forall key previous data,
  List.length key = 32%nat ->
  List.length previous = 16%nat -> forallb is_byte previous = true ->
  List.length data = (16 * blocks)%nat -> forallb is_byte data = true ->
  List.length (cbc_encrypt blocks key previous data) = (16 * blocks)%nat
  /\ forallb is_byte (cbc_encrypt blocks key previous data) = true
  /\ cbc_decrypt blocks key previous (cbc_encrypt blocks key previous data) = data.
Proof.
  induction blocks as [|n IH]; intros key previous data Hk Hp Hpb Hd Hdb.
  - destruct data; [|discriminate]. repeat split.
  - cbn [cbc_encrypt cbc_decrypt]. cbv zeta.
    set (p := firstn 16 data).
    assert (Hpl : List.length p = 16%nat) by (unfold p; rewrite length_firstn; lia).
    assert (Hpby : forallb is_byte p = true) by (now apply forallb_firstn).
    set (x := xor_bytes p previous).
    assert (Hxl : List.length x = 16%nat)
      by (unfold x; rewrite xor_bytes_length; lia).
    assert (Hxb : forallb is_byte x = true) by (now apply xor_bytes_bytes).
    set (c := aes_encrypt_block key x).
    assert (Hcl : List.length c = 16%nat) by (now apply aes_block_length).
    assert (Hcb : forallb is_byte c = true) by (now apply aes_block_bytes).
    destruct (IH key c (skipn 16 data)) as (Hl & Hb & Hr); auto.
    { rewrite length_skipn. lia. }
    { now apply forallb_skipn. }
    rewrite length_app, Hl, Hcl, forallb_app, Hcb, Hb.
    split; [lia|]. split; [reflexivity|].
    rewrite firstn_app, Hcl, Nat.sub_diag, firstn_all2 by lia.
    rewrite firstn_O, app_nil_r.
    rewrite skipn_app, Hcl, Nat.sub_diag, skipn_all2 by lia.
    rewrite skipn_O. cbn [app]. rewrite Hr.
    unfold c. rewrite aes_decrypt_encrypt by assumption.
    unfold x. rewrite xor_bytes_involutive by lia.
    apply firstn_skipn.
Qed.

Lemma formattedKey_bytes key :
  utf8_encode (formattedKey key) = formattedKey key
  /\ List.length (formattedKey key) = 32%nat.
Proof.
  unfold formattedKey. split.
  - apply utf8_encode_ascii, forallb_firstn, hex_encode_ascii, sha256_bytes.
  - rewrite length_firstn, hex_encode_length, sha256_length. reflexivity.
Qed.

End Chaining.

(** *** Round trip *)

Section RoundTrip.

Context {crypto : NodeCrypto}.

(** An initialisation vector of ASCII characters is always accepted. *)
Lemma ascii_iv_usable iv :
  forallb (fun u => (0 <=? u) && (u <? 128)) iv = true -> usable_iv iv = true.
Proof.
  intros Hiv. unfold usable_iv, formattedIV.
  assert (Hpad : forallb (fun u => (0 <=? u) && (u <? 128))
                   (firstn 16 (padEnd16 iv)) = true).
  { apply forallb_firstn. unfold padEnd16. rewrite forallb_app, Hiv.
    now apply forallb_repeat. }
  rewrite (utf8_encode_ascii _ Hpad).
  apply andb_true_iff. split.
  - apply forallb_forall. intros u Hu.
    pose proof (proj1 (forallb_forall _ _) Hiv u Hu) as H.
    rewrite andb_true_iff, Z.leb_le, Z.ltb_lt in H. apply is_unit_iff. lia.
  - apply Nat.eqb_eq. unfold padEnd16.
    rewrite length_firstn, length_app, repeat_length. lia.
Qed.

(** The round trip: for every text that UTF-8 can carry, every
    key, and every initialisation vector the cipher accepts (one whose
    first 16 characters, after padding with "0", take 16 bytes: every ASCII
    one in particular), [encrypt] returns a ciphertext and [decrypt] gives
    the text back from it. *)
Lemma decrypt_encrypt :
  forall text key iv : jsstring,
    utf8_serializable text = true ->
    usable_iv iv = true ->
    exists encrypted,
      encrypt text key iv = inl encrypted
      /\ decrypt encrypted key iv = inl text.
Proof.
  intros text key iv Htext Hiv.
  unfold usable_iv in Hiv. apply andb_true_iff in Hiv as [Hunits Hlen].
  apply Nat.eqb_eq in Hlen.
  destruct (formattedKey_bytes key) as [Hkey Hkeylen].
  assert (Hvalid : valid_key_iv (utf8_encode (formattedKey key)) (formattedIV iv) = true).
  { unfold valid_key_iv. rewrite Hkey, Hkeylen, Hlen. reflexivity. }
  assert (Hivb : forallb is_byte (formattedIV iv) = true).
  { unfold formattedIV. apply utf8_encode_bytes, forallb_firstn.
    unfold padEnd16. rewrite forallb_app, Hunits. now apply forallb_repeat. }
  set (padded := pkcs7_pad (utf8_encode text)).
  set (blocks := (List.length (utf8_encode text) / 16 + 1)%nat).
  assert (Hplen : List.length padded = (16 * blocks)%nat)
    by apply pkcs7_pad_length.
  assert (Hpb : forallb is_byte padded = true)
    by (apply pkcs7_pad_bytes, utf8_encode_bytes, utf8_serializable_units, Htext).
  assert (Hdiv : (List.length padded / 16 = blocks)%nat)
    by (rewrite Hplen, Nat.mul_comm; apply Nat.div_mul; lia).
  destruct (cbc_decrypt_encrypt blocks (utf8_encode (formattedKey key))
              (formattedIV iv) padded) as (Hcl & Hcb & Hround);
    try assumption; [now rewrite Hkey|].
  eexists. split.
  - unfold encrypt. rewrite Hvalid. fold padded. rewrite Hdiv. reflexivity.
  - unfold decrypt. rewrite Hvalid.
    rewrite (base64_decode_encode _ Hcb), Hcl.
    replace ((16 * blocks) mod 16 =? 0)%nat with true
      by (symmetry; apply Nat.eqb_eq; rewrite Nat.mul_comm; apply Nat.Div0.mod_mul).
    replace (16 * blocks =? 0)%nat with false
      by (symmetry; apply Nat.eqb_neq; unfold blocks; lia).
    cbn [andb negb].
    replace (16 * blocks / 16)%nat with blocks
      by (symmetry; rewrite Nat.mul_comm; apply Nat.div_mul; lia).
    rewrite Hround. unfold padded. rewrite pkcs7_unpad_pad.
    now rewrite (utf8_decode_encode _ Htext).
Qed.

End RoundTrip.

(** An initialisation vector with a character outside ASCII among its
    first 16 is longer than 16 bytes once encoded; [createCipheriv] rejects
    it and [encrypt] throws, so the round trip does not hold for every
    pair of strings. *)
Lemma encrypt_rejects_wide_iv :
  ~ (forall (crypto : NodeCrypto) (text key iv : jsstring),
        utf8_serializable text = true ->
        forallb is_unit iv = true ->
        exists encrypted,
          encrypt text key iv = inl encrypted
          /\ decrypt encrypted key iv = inl text).
Proof.
  intros H.
  destruct (H toy_crypto (js "4111") (js "secret") [0xE9] eq_refl eq_refl)
    as (encrypted & Henc & _).
  vm_compute in Henc. discriminate.
Qed.

(** The round trip on an example, with the stand-in primitives. *)
Lemma decrypt_encrypt_example :
  exists encrypted,
    @encrypt toy_crypto (js "4111 1111") (js "test-encryption-key")
      (js "test-encryption-iv") = inl encrypted
    /\ @decrypt toy_crypto encrypted (js "test-encryption-key")
         (js "test-encryption-iv") = inl (js "4111 1111").
Proof.
  apply (@decrypt_encrypt toy_crypto); reflexivity.
Defined.

End CodecFacts.

(** ** The payment operations *)

Section OperationFacts.

Import Status Orchestrator.

Context {crypto : Encryption.NodeCrypto}.
Variable config : Config.
Variable gateway : Gateway.
Variable JSON_parse_card : Encryption.jsstring -> ParsedCard.
Variable JSON_parse_gateway : string -> ParsedGateway.

(** C5 (what the code does): a payment whose card carries no encrypted
    field makes [authorizePayment] reject before anything is sent to the
    gateway (the state, and with it the list of requests, is untouched), but
    the [ValidationError] thrown inside the [try] is caught by the method's
    own [catch] and comes out wrapped in a [PaymentError]. *)
Theorem authorizePayment_without_envelope :
  forall (reference : string) (amount : Z) (currency : string)
         (provider_reference : option string) (w : World),
    let payment := mkPayment reference amount currency provider_reference None in
    authorizePayment config gateway JSON_parse_card payment w
    = (inr (PaymentError
              "Failed to authorize payment: No encrypted card details found"
              (ValidationError "No encrypted card details found")),
       w)
    /\ isValidationError
         (PaymentError
            "Failed to authorize payment: No encrypted card details found"
            (ValidationError "No encrypted card details found")) = false.
Proof. intros. split; reflexivity. Qed.

(** The same with an empty [encrypted] string, which [!cardDetails.encrypted]
    treats alike. *)
Lemma authorizePayment_empty_envelope payment w :
  card_encrypted payment = Some [] ->
  authorizePayment config gateway JSON_parse_card payment w
  = (inr (PaymentError
            "Failed to authorize payment: No encrypted card details found"
            (ValidationError "No encrypted card details found")),
     w).
Proof.
  intros H. unfold authorizePayment, try_catch, bind. now rewrite H.
Qed.

(** The retried request when the gateway rejects it every time. *)
Lemma executeWithRetry_rejected request code w :
  rejects_with gateway code ->
  exists message transport response,
    fst (executeWithRetry (axios gateway request) w)
    = inr (AxiosError message transport (Some response))
    /\ err_status response = code.
Proof.
  intros Hgw. unfold executeWithRetry, Retry.executeWithRetry.
  destruct (retry_loop_all_fail_kind (axios gateway request) Retry.MAX_RETRIES
              (fun e => exists message transport response,
                   e = AxiosError message transport (Some response)
                   /\ err_status response = code)
              ) with (fuel := (Retry.MAX_RETRIES + 1)%nat) (attempt := 0%nat)
                     (s := w) (calls := 0%nat) (slept := @nil Z)
    as (e & He & (message & transport & response & -> & Hc)).
  - intros s. unfold axios. cbn [fst].
    destruct (Hgw (List.length (requests s)) request)
      as (message & transport & response & Hg & Hc).
    eexists. split; [exact Hg|]. now exists message, transport, response.
  - reflexivity.
  - unfold Retry.MAX_RETRIES. lia.
  - exists message, transport, response. cbn [fst]. split; [exact He|exact Hc].
Qed.

(** C6: for a payment id that is not empty, when the gateway answers the
    request (and each of its retries) with HTTP 404, [retrievePayment]
    resolves with the status FAILED and the message "Payment not found";
    when it answers with any other failure status, [retrievePayment]
    rejects, with a [PaymentError] that carries the failure. *)
Theorem retrievePayment_not_found :
  forall (paymentId : string) (w : World) (code : Z),
    paymentId <> "" ->
    rejects_with gateway code ->
    (code = 404 ->
     fst (retrievePayment gateway JSON_parse_gateway paymentId w)
     = inl (mkOutput paymentId FAILED "Payment not found" None None None))
    /\ (code <> 404 ->
        exists error,
          fst (retrievePayment gateway JSON_parse_gateway paymentId w)
          = inr (PaymentError "Failed to retrieve payment" error)
          /\ response_status error = Some code).
Proof.
  intros paymentId w code Hid Hgw.
  destruct (executeWithRetry_rejected (GetPayment paymentId) code w Hgw)
    as (message & transport & response & He & Hc).
  destruct (executeWithRetry (axios gateway (GetPayment paymentId)) w)
    as [res w'] eqn:E.
  cbn [fst] in He. subst res.
  unfold retrievePayment, try_catch, bind.
  destruct (String.eqb_spec paymentId ""); [contradiction|].
  change (ret tt w) with (@inl unit JsError tt, w). cbv beta iota. rewrite E.
  unfold status_is. cbn [isValidationError isAxiosError response_status].
  rewrite Hc. split.
  - intros ->. reflexivity.
  - intros Hcode. exists (AxiosError message transport (Some response)).
    cbn [response_status]. rewrite Hc. split; [|reflexivity].
    destruct (Z.eqb_spec code 404); [contradiction|reflexivity].
Qed.

End OperationFacts.

(** ** The statements above on concrete inputs *)

Section Instances.

Import Status Retry ConfiguredService Service Orchestrator.

(** The executor on an operation that always fails with HTTP 400. *)
Lemma executeWithRetry_retries_every_failure_400 :
  (forall s' : unit,
      fst (always_fails (T := unit) (http_failure 400) s') = inr (http_failure 400))
  /\ outcome (Retry.executeWithRetry (always_fails (T := unit) (http_failure 400)) 3 tt)
     = inr (http_failure 400)
  /\ attempts (Retry.executeWithRetry (always_fails (T := unit) (http_failure 400)) 3 tt)
     = (3 + 1)%nat
  /\ delays (Retry.executeWithRetry (always_fails (T := unit) (http_failure 400)) 3 tt)
     = backoff_schedule 3.
Proof.
  split; [intros s'; reflexivity|].
  apply (executeWithRetry_retries_every_failure unit unit
           (always_fails (http_failure 400)) (http_failure 400) 3 tt).
  intros s'. reflexivity.
Defined.

(** A map with one subaccount below the threshold and one above. *)
Lemma selectBestSubaccount_threshold_example :
  let m := [("A", mkMetrics "A" (1 # 2) 0 10 5); ("B", mkMetrics "B" (9 # 10) 0 10 9)] in
  (0 <= successRateWeight defaultConfig)%Q
  /\ (0 <= recencyWeight defaultConfig)%Q
  /\ (0 <= minSuccessRate defaultConfig)%Q
  /\ (forall id, selectBestSubaccount defaultConfig 1000 m = Some id ->
        exists v, In (id, v) m /\ (minSuccessRate defaultConfig <= successRate v)%Q)
  /\ ((exists id v, In (id, v) m /\ (minSuccessRate defaultConfig <= successRate v)%Q) ->
      exists id v,
        selectBestSubaccount defaultConfig 1000 m = Some id
        /\ In (id, v) m /\ (minSuccessRate defaultConfig <= successRate v)%Q).
Proof.
  cbv zeta.
  split; [unfold Qle; simpl; lia|].
  split; [unfold Qle; simpl; lia|].
  split; [unfold Qle; simpl; lia|].
  apply (selectBestSubaccount_threshold defaultConfig 1000);
    unfold Qle; simpl; lia.
Defined.

(** Two subaccounts last used at the same time, with rates 0.95 and 0.99. *)
Lemma selectBestSubaccount_highest_score_example :
  (successRate (mkMetrics "A" (95 # 100) 500 20 19) == 95 # 100)%Q
  /\ (successRate (mkMetrics "B" (99 # 100) 500 100 99) == 99 # 100)%Q
  /\ lastUsed (mkMetrics "A" (95 # 100) 500 20 19)
     = lastUsed (mkMetrics "B" (99 # 100) 500 100 99)
  /\ selectBestSubaccount defaultConfig 1000
       [("A", mkMetrics "A" (95 # 100) 500 20 19);
        ("B", mkMetrics "B" (99 # 100) 500 100 99)] = Some "B"
  /\ selectBestSubaccount defaultConfig 1000
       [("B", mkMetrics "B" (99 # 100) 500 100 99);
        ("A", mkMetrics "A" (95 # 100) 500 20 19)] = Some "B".
Proof.
  split; [reflexivity|]. split; [reflexivity|]. split; [reflexivity|].
  apply (proj2 (proj2 selectBestSubaccount_highest_score) 1000 "A" "B"
           (mkMetrics "A" (95 # 100) 500 20 19)
           (mkMetrics "B" (99 # 100) 500 100 99));
    reflexivity.
Defined.

(** A subaccount registered by a first selection, then three outcomes. *)
Lemma recordOutcomes_successRate_example :
  let m := snd (selectOptimalSubaccount ["A"] 1000 JsMap.empty) in
  reachable m
  /\ JsMap.get "A" m = Some (mkMetrics "A" 1 1000 0 0)
  /\ [true; false; true] <> []
  /\ exists v',
       JsMap.get "A" (recordOutcomes "A" [true; false; true] m) = Some v'
       /\ totalTransactions v' = 0 + Z.of_nat (List.length [true; false; true])
       /\ successfulTransactions v' = 0 + Z.of_nat (count_true [true; false; true])
       /\ successRate v'
          = (inject_Z (successfulTransactions v') / inject_Z (totalTransactions v'))%Q
       /\ (0 <= successRate v' <= 1)%Q.
Proof.
  cbv zeta.
  split; [apply reach_select, reach_init|].
  split; [reflexivity|].
  split; [discriminate|].
  apply (recordOutcomes_successRate
           (snd (selectOptimalSubaccount ["A"] 1000 JsMap.empty)) "A"
           (mkMetrics "A" 1 1000 0 0) [true; false; true]).
  - apply reach_select, reach_init.
  - reflexivity.
  - discriminate.
Defined.

(** An outcome recorded for an id the map does not know. *)
Lemma updateSubaccountMetrics_unknown_example :
  let m := [("A", fresh "A")] in
  JsMap.get "B" m = None
  /\ Service.updateSubaccountMetrics "B" true m = m
  /\ (forall k, JsMap.get k (Service.updateSubaccountMetrics "B" true m) = JsMap.get k m)
  /\ JsMap.has "B" (Service.updateSubaccountMetrics "B" true m) = false.
Proof.
  cbv zeta. split; [reflexivity|].
  apply (updateSubaccountMetrics_unknown [("A", fresh "A")] "B" true).
  reflexivity.
Defined.

(** A gateway that answers 404 to everything, and one that answers 500. *)
Lemma retrievePayment_not_found_example :
  let gateway404 : Gateway := fun _ _ => inr (http_failure 404) in
  let gateway500 : Gateway := fun _ _ => inr (http_failure 500) in
  let parse : string -> ParsedGateway := fun _ => GatewaySyntaxError in
  "missing-id" <> ""
  /\ rejects_with gateway404 404
  /\ rejects_with gateway500 500
  /\ fst (retrievePayment gateway404 parse "missing-id" initial_world)
     = inl (mkOutput "missing-id" FAILED "Payment not found" None None None)
  /\ exists error,
       fst (retrievePayment gateway500 parse "missing-id" initial_world)
       = inr (PaymentError "Failed to retrieve payment" error)
       /\ response_status error = Some 500.
Proof.
  cbv zeta.
  assert (H404 : rejects_with (fun _ _ => inr (http_failure 404)) 404)
    by (intros n request; repeat eexists).
  assert (H500 : rejects_with (fun _ _ => inr (http_failure 500)) 500)
    by (intros n request; repeat eexists).
  split; [discriminate|]. split; [exact H404|]. split; [exact H500|].
  split.
  - apply (retrievePayment_not_found (fun _ _ => inr (http_failure 404))
             (fun _ => GatewaySyntaxError) "missing-id" initial_world 404);
      [discriminate|exact H404|reflexivity].
  - apply (retrievePayment_not_found (fun _ _ => inr (http_failure 500))
             (fun _ => GatewaySyntaxError) "missing-id" initial_world 500);
      [discriminate|exact H500|discriminate].
Defined.

End Instances.

(* ================================================================== *)
(** * Further properties *)
(* ================================================================== *)

(** ** The metrics map of the service *)

Section ServiceStateFacts.

Import Service ServiceState.

Lemma keys_set_known k v m :
  In k (map fst m) -> map fst (JsMap.set k v m) = map fst m.
Proof.
  induction m as [|[k0 v0] r IH]; simpl; [tauto|].
  destruct (String.eqb_spec k0 k) as [->|Hne]; simpl; [reflexivity|].
  intros [H|H]; [congruence|]. now rewrite IH.
Qed.

Lemma keys_set_new k v m :
  ~ In k (map fst m) -> map fst (JsMap.set k v m) = (map fst m ++ [k])%list.
Proof.
  induction m as [|[k0 v0] r IH]; simpl; [reflexivity|].
  destruct (String.eqb_spec k0 k) as [->|Hne]; simpl; [tauto|].
  intros H. rewrite IH by tauto. reflexivity.
Qed.

Lemma get_None_keys k m : JsMap.get k m = None <-> ~ In k (map fst m).
Proof.
  induction m as [|[k0 v0] r IH]; simpl; [tauto|].
  destruct (String.eqb_spec k0 k) as [->|Hne].
  - split; [discriminate|tauto].
  - rewrite IH. tauto.
Qed.

Lemma get_Some_keys k v m : JsMap.get k m = Some v -> In k (map fst m).
Proof.
  intros H. destruct (in_dec string_dec k (map fst m)) as [Hin|Hn]; [exact Hin|].
  apply get_None_keys in Hn. congruence.
Qed.

Lemma has_true_iff k m : JsMap.has k m = true <-> In k (map fst m).
Proof.
  unfold JsMap.has. destruct (JsMap.get k m) eqn:E.
  - split; [intros _; eapply get_Some_keys; eauto|reflexivity].
  - split; [discriminate|]. intros H. apply get_None_keys in E. contradiction.
Qed.

Lemma keys_set_incl k v m x : In x (map fst m) -> In x (map fst (JsMap.set k v m)).
Proof.
  intros Hx. destruct (in_dec string_dec k (map fst m)) as [Hin|Hn].
  - now rewrite keys_set_known.
  - rewrite keys_set_new by assumption. apply in_or_app. now left.
Qed.

Lemma in_get_unique k v m : NoDup (map fst m) -> In (k, v) m -> JsMap.get k m = Some v.
Proof.
  induction m as [|[k0 v0] r IH]; simpl; [tauto|].
  intros Hnd. inversion Hnd as [|? ? Hnotin Hnd']; subst.
  intros [[= -> ->]|Hin].
  - now rewrite String.eqb_refl.
  - destruct (String.eqb_spec k0 k) as [->|Hne]; [|auto].
    exfalso. apply Hnotin. apply in_map_iff. now exists (k, v).
Qed.

Lemma set_well_keyed k v m :
  well_keyed m -> uuid v = k -> well_keyed (JsMap.set k v m).
Proof.
  intros [Hnd Hk] Hv. split.
  - destruct (in_dec string_dec k (map fst m)) as [Hin|Hn].
    + now rewrite keys_set_known.
    + rewrite keys_set_new by assumption.
      apply NoDup_app; [exact Hnd|repeat constructor; simpl; tauto|].
      intros x Hx [<-|[]]. contradiction.
  - intros k' v' Hin. destruct (in_set_inv _ _ _ _ Hin) as [[= -> ->]|H]; eauto.
Qed.

Lemma register_well_keyed subaccounts : forall m,
  well_keyed m -> well_keyed (register subaccounts m).
Proof.
  unfold register.
  induction subaccounts as [|sub r IH]; simpl; intros m Hm; [exact Hm|].
  apply IH. destruct (JsMap.has sub m); [exact Hm|].
  now apply set_well_keyed.
Qed.

Lemma register_keys_incl subaccounts : forall m x,
  In x (map fst m) -> In x (map fst (register subaccounts m)).
Proof.
  unfold register.
  induction subaccounts as [|sub r IH]; simpl; intros m x Hx; [exact Hx|].
  apply IH. destruct (JsMap.has sub m); [exact Hx|]. now apply keys_set_incl.
Qed.

Lemma register_has subaccounts : forall m sub,
  In sub subaccounts -> In sub (map fst (register subaccounts m)).
Proof.
  induction subaccounts as [|s r IH]; intros m sub Hin; [destruct Hin|].
  destruct Hin as [<-|Hin].
  - change (register (s :: r) m)
      with (register r (if JsMap.has s m then m else JsMap.set s (fresh s) m)).
    apply register_keys_incl. destruct (JsMap.has s m) eqn:E.
    + now apply has_true_iff.
    + apply has_true_iff. unfold JsMap.has. now rewrite get_set_same.
  - change (register (s :: r) m)
      with (register r (if JsMap.has s m then m else JsMap.set s (fresh s) m)).
    now apply IH.
Qed.

Lemma register_get_known subaccounts : forall m k v,
  JsMap.get k m = Some v -> JsMap.get k (register subaccounts m) = Some v.
Proof.
  unfold register.
  induction subaccounts as [|sub r IH]; simpl; intros m k v Hg; [exact Hg|].
  apply IH. destruct (JsMap.has sub m) eqn:E; [exact Hg|].
  destruct (string_dec sub k) as [->|Hne].
  - unfold JsMap.has in E. now rewrite Hg in E.
  - now rewrite get_set_other.
Qed.

(** The candidates of a selection and the one it picks. *)
Lemma selectOptimalSubaccount_inv subaccounts now m :
  let m1 := register subaccounts m in
  let candidates :=
    filter (fun metrics => existsb (fun sub => String.eqb sub (uuid metrics)) subaccounts)
      (JsMap.values m1) in
  match sort (compareFn now) candidates with
  | [] => selectOptimalSubaccount subaccounts now m = (None, m1)
  | selected :: _ =>
      selectOptimalSubaccount subaccounts now m
      = (Some (uuid selected),
         JsMap.set (uuid selected)
           (mkMetrics (uuid selected) (successRate selected) now
              (totalTransactions selected) (successfulTransactions selected)) m1)
      /\ In selected candidates
  end.
Proof.
  cbv zeta. unfold selectOptimalSubaccount.
  destruct (sort _ _) as [|selected rest] eqn:Hs; [reflexivity|].
  split; [reflexivity|].
  apply (in_sort (compareFn now)). rewrite Hs. now left.
Qed.

Lemma candidate_inv subaccounts (m1 : JsMap.t) x :
  In x (filter (fun metrics => existsb (fun sub => String.eqb sub (uuid metrics)) subaccounts)
          (JsMap.values m1)) ->
  In (uuid x) subaccounts /\ exists k, In (k, x) m1.
Proof.
  intros H. apply filter_In in H as [Hv He].
  apply existsb_exists in He as (sub & Hsub & Heq).
  apply String.eqb_eq in Heq. subst sub. split; [exact Hsub|].
  unfold JsMap.values in Hv. apply in_map_iff in Hv as [[k v] [<- Hin]].
  now exists k.
Qed.

Lemma select_well_keyed subaccounts now m :
  well_keyed m -> well_keyed (snd (selectOptimalSubaccount subaccounts now m)).
Proof.
  intros Hm. pose proof (register_well_keyed subaccounts m Hm) as Hr.
  pose proof (selectOptimalSubaccount_inv subaccounts now m) as H. cbv zeta in H.
  destruct (sort _ _) as [|selected rest]; [now rewrite H|].
  destruct H as [-> _]. simpl. now apply set_well_keyed.
Qed.

Lemma update_well_keyed id success m :
  well_keyed m -> well_keyed (updateSubaccountMetrics id success m).
Proof.
  intros Hm. unfold updateSubaccountMetrics.
  destruct (JsMap.get id m) as [v|] eqn:Hg; [|exact Hm].
  apply set_well_keyed; [exact Hm|]. simpl.
  destruct Hm as [_ Hk]. apply Hk. now apply get_in.
Qed.

Lemma adjust_well_keyed id rate m :
  well_keyed m -> well_keyed (adjustSubaccountMetrics id rate m).
Proof.
  intros Hm. unfold adjustSubaccountMetrics.
  destruct (JsMap.get id m) as [v|] eqn:Hg; [|exact Hm].
  apply set_well_keyed; [exact Hm|]. simpl.
  destruct Hm as [_ Hk]. apply Hk. now apply get_in.
Qed.

Lemma reachable_well_keyed m : reachable m -> well_keyed m.
Proof.
  induction 1.
  - split; [constructor|intros k v []].
  - now apply select_well_keyed.
  - now apply update_well_keyed.
  - now apply adjust_well_keyed.
Qed.






End ServiceStateFacts.

(** ** Selecting the optimal subaccount *)

Section OptimalSelectionFacts.

Import Service ServiceState.

Lemma compare_le now x y :
  Qle_bool (compareFn now x y) 0 = true <-> (weightedScore now y <= weightedScore now x)%Q.
Proof. unfold compareFn. rewrite Qle_bool_iff. split; intros; lra. Qed.

Lemma in_insert_sorted_intro cmp x l y :
  y = x \/ In y l -> In y (insert_sorted cmp x l).
Proof.
  induction l as [|z r IH]; simpl.
  - intros [->|[]]. now left.
  - destruct (Qle_bool (cmp x z) 0); simpl.
    + intros [->|H]; [now left|now right].
    + intros [->|[->|H]]; [right; apply IH; now left|now left|right; apply IH; now right].
Qed.

Lemma in_sort_intro cmp l y : In y l -> In y (sort cmp l).
Proof.
  unfold sort. induction l as [|x r IH]; simpl; [tauto|].
  intros [->|H]; apply in_insert_sorted_intro; [now left|right; auto].
Qed.



(** An element that nothing after it beats stays in front. *)
Lemma sort_keeps_head now a l :
  (forall x, In x l -> (weightedScore now x <= weightedScore now a)%Q) ->
  sort (compareFn now) (a :: l) = a :: sort (compareFn now) l.
Proof.
  intros Hall. unfold sort. simpl. fold (sort (compareFn now) l).
  destruct (sort (compareFn now) l) as [|y r] eqn:E; [reflexivity|].
  simpl. assert (Hy : In y l) by (apply (in_sort (compareFn now)); rewrite E; now left).
  now rewrite (proj2 (compare_le now a y) (Hall y Hy)).
Qed.

(** X2: with at least one fetched subaccount, in any state the service can
    reach, [selectOptimalSubaccount] returns an id, that id is one of the
    fetched uuids, and it has an entry in the map afterwards; with an empty
    fetched list nothing is selected (the method throws) and the map is
    unchanged. *)
Theorem selectOptimalSubaccount_member :
  forall (m : JsMap.t) (subaccounts : list string) (now : Z),
    reachable m ->
    (subaccounts = [] -> selectOptimalSubaccount subaccounts now m = (None, m))
    /\ (subaccounts <> [] ->
        exists id,
          fst (selectOptimalSubaccount subaccounts now m) = Some id
          /\ In id subaccounts
          /\ JsMap.has id (snd (selectOptimalSubaccount subaccounts now m)) = true).
Proof.
  intros m subaccounts now Hr. split.
  - intros ->.
    pose proof (selectOptimalSubaccount_inv [] now m) as H. cbv zeta in H.
    destruct (sort _ _) as [|selected rest]; [exact H|].
    destruct H as [_ Hin]. destruct (proj1 (candidate_inv _ _ _ Hin)).
  - intros Hne.
    pose proof (register_well_keyed subaccounts m (reachable_well_keyed m Hr)) as Hwk.
    pose proof (selectOptimalSubaccount_inv subaccounts now m) as H. cbv zeta in H.
    destruct (sort _ _) as [|selected rest] eqn:Hs.
    + exfalso. destruct subaccounts as [|sub0 r]; [congruence|].
      assert (Hk : In sub0 (map fst (register (sub0 :: r) m)))
        by (apply register_has; now left).
      destruct (JsMap.get sub0 (register (sub0 :: r) m)) as [v|] eqn:Hg;
        [|apply get_None_keys in Hg; contradiction].
      pose proof (get_in _ _ _ Hg) as Hin.
      assert (Hu : uuid v = sub0) by (exact (proj2 Hwk _ _ Hin)).
      assert (Hc : In v (sort (compareFn now)
                  (filter (fun metrics =>
                     existsb (fun sub => String.eqb sub (uuid metrics)) (sub0 :: r))
                     (JsMap.values (register (sub0 :: r) m))))).
      { apply in_sort_intro, filter_In. split.
        - unfold JsMap.values. apply in_map_iff. now exists (sub0, v).
        - apply existsb_exists. exists sub0. split; [now left|].
          rewrite Hu. apply String.eqb_refl. }
      rewrite Hs in Hc. destruct Hc.
    + destruct H as [Hsel Hin]. rewrite Hsel. simpl.
      exists (uuid selected). split; [reflexivity|].
      split; [exact (proj1 (candidate_inv _ _ _ Hin))|].
      unfold JsMap.has. now rewrite get_set_same.
Qed.


(** X4: a selection changes no counter and no rate: an entry that was in
    the map is still there with the same uuid, success rate and counters;
    its [lastUsed] is set to [now] if it is the one selected and is
    untouched otherwise. *)
Theorem selectOptimalSubaccount_touches_lastUsed_only :
  forall (m : JsMap.t) (subaccounts : list string) (now : Z)
         (k : string) (v : SubaccountMetrics),
    reachable m ->
    JsMap.get k m = Some v ->
    exists v',
      JsMap.get k (snd (selectOptimalSubaccount subaccounts now m)) = Some v'
      /\ same_counters v v'
      /\ ((fst (selectOptimalSubaccount subaccounts now m) = Some k
           /\ lastUsed v' = now)
          \/ (fst (selectOptimalSubaccount subaccounts now m) <> Some k
              /\ lastUsed v' = lastUsed v)).
Proof.
  intros m subaccounts now k v Hr Hg.
  pose proof (register_well_keyed subaccounts m (reachable_well_keyed m Hr)) as Hwk.
  pose proof (register_get_known subaccounts m k v Hg) as Hg1.
  pose proof (selectOptimalSubaccount_inv subaccounts now m) as H. cbv zeta in H.
  destruct (sort _ _) as [|selected rest].
  - rewrite H. simpl. exists v. split; [exact Hg1|].
    split; [repeat split|]. right. split; [discriminate|reflexivity].
  - destruct H as [-> Hin]. simpl.
    destruct (string_dec (uuid selected) k) as [Hk|Hk].
    + destruct (candidate_inv _ _ _ Hin) as [_ [k0 Hk0]].
      assert (k0 = k) by (rewrite <- Hk; symmetry; exact (proj2 Hwk _ _ Hk0)).
      subst k0. pose proof (in_get_unique _ _ _ (proj1 Hwk) Hk0) as Hgs.
      rewrite Hg1 in Hgs. injection Hgs as <-.
      eexists. rewrite Hk at 1. split; [apply get_set_same|].
      split; [repeat split|]. left. split; [now rewrite Hk|reflexivity].
    + exists v. rewrite get_set_other by exact Hk. split; [exact Hg1|].
      split; [repeat split|]. right. split; [congruence|reflexivity].
Qed.

Lemma set_cons_other k v e (m : JsMap.t) :
  String.eqb (fst e) k = false -> JsMap.set k v (e :: m) = e :: JsMap.set k v m.
Proof. destruct e as [k0 v0]. simpl. now intros ->. Qed.

Lemma register_keeps_head subaccounts : forall e m,
  exists tl, register subaccounts (e :: m) = e :: tl.
Proof.
  unfold register.
  induction subaccounts as [|sub r IH]; intros e m; cbn [fold_left].
  - now exists m.
  - destruct (JsMap.has sub (e :: m)) eqn:E; [apply IH|].
    assert (Hk : String.eqb (fst e) sub = false).
    { destruct e as [k0 v0]. unfold JsMap.has in E. simpl in *.
      destruct (String.eqb k0 sub); [discriminate|reflexivity]. }
    rewrite (set_cons_other _ _ _ _ Hk). apply IH.
Qed.

Lemma register_entries (allowed : list string) subaccounts : forall m,
  (forall k v, In (k, v) m -> v = fresh k /\ In k allowed) ->
  (forall s, In s subaccounts -> In s allowed) ->
  forall k v, In (k, v) (register subaccounts m) -> v = fresh k /\ In k allowed.
Proof.
  unfold register.
  induction subaccounts as [|sub r IH]; simpl; intros m Hm Hs; [exact Hm|].
  apply IH; [|auto].
  destruct (JsMap.has sub m); [exact Hm|].
  intros k v Hin. destruct (in_set_inv _ _ _ _ Hin) as [[= -> ->]|H]; auto.
Qed.

Lemma filter_all {A} (f : A -> bool) l :
  (forall x, In x l -> f x = true) -> filter f l = l.
Proof.
  induction l as [|a l IH]; simpl; [reflexivity|].
  intros H. rewrite (H a) by now left. f_equal. apply IH. auto.
Qed.

(** X5: in a service that has recorded nothing yet every fetched
    subaccount starts with the same score, whatever the gateway reports
    about it, and the tie goes to the first one fetched. *)
Theorem selectOptimalSubaccount_first_fetch :
  forall (sub0 : string) (rest : list string) (now : Z),
    fst (selectOptimalSubaccount (sub0 :: rest) now JsMap.empty) = Some sub0.
Proof.
  intros sub0 rest now.
  pose proof (selectOptimalSubaccount_inv (sub0 :: rest) now JsMap.empty) as H.
  cbv zeta in H.
  assert (Hreg : register (sub0 :: rest) JsMap.empty
                 = register rest [(sub0, fresh sub0)]) by reflexivity.
  destruct (register_keeps_head rest (sub0, fresh sub0) []) as [tl Htl].
  assert (Hall : forall k v, In (k, v) (register (sub0 :: rest) JsMap.empty) ->
                   v = fresh k /\ In k (sub0 :: rest)).
  { apply (register_entries (sub0 :: rest)); [intros k v []|auto]. }
  rewrite Hreg, Htl in *.
  assert (Hvals : forall x, In x (JsMap.values ((sub0, fresh sub0) :: tl)) ->
                    exists k, x = fresh k /\ In k (sub0 :: rest)).
  { intros x Hx. unfold JsMap.values in Hx. apply in_map_iff in Hx as [[k v] [<- Hin]].
    exists k. exact (Hall k v Hin). }
  rewrite filter_all in H.
  2:{ intros x Hx. destruct (Hvals x Hx) as (k & -> & Hk).
      apply existsb_exists. exists k. split; [exact Hk|apply String.eqb_refl]. }
  change (JsMap.values ((sub0, fresh sub0) :: tl))
    with (fresh sub0 :: JsMap.values tl) in H.
  rewrite sort_keeps_head in H.
  - destruct H as [-> _]. reflexivity.
  - intros x Hx.
    destruct (Hvals x (or_intror Hx)) as (k & -> & _). apply Qle_refl.
Qed.


(** X7: recording an outcome or adjusting a rate never adds or removes a
    key of the map, keeps the iteration order, and leaves the entry of
    every other id as it was. *)
Theorem metrics_updates_are_local :
  forall (m : JsMap.t) (id : string) (success : bool) (rate : Q),
    map fst (updateSubaccountMetrics id success m) = map fst m
    /\ map fst (adjustSubaccountMetrics id rate m) = map fst m
    /\ forall k, k <> id ->
         JsMap.get k (updateSubaccountMetrics id success m) = JsMap.get k m
         /\ JsMap.get k (adjustSubaccountMetrics id rate m) = JsMap.get k m.
Proof.
  intros m id success rate.
  unfold updateSubaccountMetrics, adjustSubaccountMetrics.
  destruct (JsMap.get id m) as [v|] eqn:Hg.
  - pose proof (get_Some_keys _ _ _ Hg) as Hk.
    rewrite !keys_set_known by exact Hk. repeat split;
      apply get_set_other; congruence.
  - repeat split.
Qed.

End OptimalSelectionFacts.

(** ** More on the retry executor *)

Section RetryMoreFacts.

Import Retry ServiceState.

Context {W T : Type}.
Variable operation : Operation W T.
Variable retries : nat.

(** The delays awaited so far are the schedule of the failed attempts. *)
Lemma retry_loop_delays fuel : forall attempt s calls slept,
  (attempt + fuel = retries + 1)%nat -> (0 < fuel)%nat ->
  let r := retry_loop operation retries fuel attempt s calls slept in
  (calls + 1 <= attempts r)%nat
  /\ delays r =
       (slept ++ map (fun k => INITIAL_RETRY_DELAY * 2 ^ Z.of_nat k)
                   (seq attempt (attempts r - calls - 1)))%list.
Proof.
  induction fuel as [|fuel IH]; intros attempt s calls slept Hsum Hpos; [lia|].
  cbn [retry_loop].
  destruct (operation s) as [[v|error] s']; cbn [attempts delays].
  - replace (calls + 1 - calls - 1)%nat with 0%nat by lia.
    cbn [seq map]. rewrite app_nil_r. split; [lia|reflexivity].
  - destruct (Nat.eqb_spec attempt retries) as [->|Hne]; cbn [attempts delays].
    + replace (calls + 1 - calls - 1)%nat with 0%nat by lia.
      cbn [seq map]. rewrite app_nil_r. split; [lia|reflexivity].
    + destruct (IH (attempt + 1)%nat s' (calls + 1)%nat
                  (slept ++ [INITIAL_RETRY_DELAY * 2 ^ Z.of_nat attempt])%list)
        as [Hge Hd]; [lia|lia|].
      split; [lia|]. rewrite Hd, <- app_assoc. f_equal.
      set (n := attempts _) in *.
      replace (n - calls - 1)%nat with (S (n - (calls + 1) - 1)) by lia.
      cbn [seq map app]. now rewrite Nat.add_1_r.
Qed.

(** What the loop settles with is what some call of the operation settled
    with. *)
Lemma retry_loop_outcome fuel : forall attempt s calls slept,
  (attempt + fuel = retries + 1)%nat -> (0 < fuel)%nat ->
  exists s', outcome (retry_loop operation retries fuel attempt s calls slept)
             = fst (operation s').
Proof.
  induction fuel as [|fuel IH]; intros attempt s calls slept Hsum Hpos; [lia|].
  cbn [retry_loop].
  destruct (operation s) as [[v|error] s'] eqn:E; cbn [outcome].
  - exists s. now rewrite E.
  - destruct (Nat.eqb_spec attempt retries) as [->|Hne]; cbn [outcome].
    + exists s. now rewrite E.
    + apply IH; lia.
Qed.

End RetryMoreFacts.

Section RetryMoreTheorems.

Import Retry ServiceState.

Lemma total_delay_app a b : total_delay (a ++ b) = total_delay a + total_delay b.
Proof.
  unfold total_delay. induction a as [|x a IH]; simpl fold_right; [lia|].
  rewrite IH. lia.
Qed.

Lemma backoff_schedule_S n :
  backoff_schedule (S n)
  = (backoff_schedule n ++ [INITIAL_RETRY_DELAY * 2 ^ Z.of_nat n])%list.
Proof. unfold backoff_schedule. now rewrite seq_S, map_app. Qed.

Lemma total_delay_schedule n :
  total_delay (backoff_schedule n) = 1000 * (2 ^ Z.of_nat n - 1).
Proof.
  induction n as [|n IH]; [reflexivity|].
  rewrite backoff_schedule_S, total_delay_app, IH.
  unfold total_delay, INITIAL_RETRY_DELAY. cbn [fold_right].
  rewrite Nat2Z.inj_succ, Z.pow_succ_r by lia. lia.
Qed.

(** X8: whatever the operation does, the delays awaited are exactly the
    first [attempts - 1] terms of the schedule 1000, 2000, 4000, ...: one
    delay after each failed attempt but the last, none after a success; so
    the total wait is [1000 * (2 ^ (attempts - 1) - 1)] ms, at most
    [1000 * (2 ^ retries - 1)] (7 seconds with the default 3 retries). *)
Theorem executeWithRetry_delays :
  forall (W T : Type) (operation : Operation W T) (retries : nat) (s : W),
    let r := executeWithRetry operation retries s in
    delays r = backoff_schedule (attempts r - 1)
    /\ total_delay (delays r) = 1000 * (2 ^ Z.of_nat (attempts r - 1) - 1)
    /\ total_delay (delays r) <= 1000 * (2 ^ Z.of_nat retries - 1).
Proof.
  intros W T operation retries s. cbv zeta.
  pose proof (retry_loop_delays operation retries (retries + 1) 0 s 0 []
                ltac:(lia) ltac:(lia)) as [Hge Hd].
  pose proof (retry_loop_attempts_le operation retries (retries + 1) 0 s 0 []) as Hle.
  unfold executeWithRetry.
  set (r := retry_loop operation retries (retries + 1) 0 s 0 []) in *.
  assert (E : delays r = backoff_schedule (attempts r - 1)).
  { rewrite Hd. unfold backoff_schedule. cbn [app].
    now replace (attempts r - 0 - 1)%nat with (attempts r - 1)%nat by lia. }
  split; [exact E|]. rewrite E, total_delay_schedule. split; [reflexivity|].
  assert (2 ^ Z.of_nat (attempts r - 1) <= 2 ^ Z.of_nat retries)
    by (apply Z.pow_le_mono_r; lia).
  lia.
Qed.

(** X9: the executor adds nothing of its own: the value it returns is a
    value some call of the operation resolved with, and the error it throws
    is an error some call of the operation rejected with (the final
    'All retry attempts exhausted' is never reached). *)
Theorem executeWithRetry_outcome_from_operation :
  forall (W T : Type) (operation : Operation W T) (retries : nat) (s : W),
    exists s',
      outcome (executeWithRetry operation retries s) = fst (operation s').
Proof.
  intros W T operation retries s. unfold executeWithRetry.
  apply retry_loop_outcome; lia.
Qed.

Lemma retry_loop_fails_then_succeeds {T} (failures : nat) (error : JsError)
  (value : T) (retries : nat) fuel : forall attempt calls slept,
  (attempt + fuel = retries + 1)%nat -> (0 < fuel)%nat -> (attempt <= failures)%nat ->
  let r := retry_loop (fails_then_succeeds failures error value) retries
             fuel attempt attempt calls slept in
  ((failures <= retries)%nat ->
     outcome r = inl value
     /\ attempts r = (calls + (failures - attempt) + 1)%nat
     /\ final r = (failures + 1)%nat
     /\ delays r =
          (slept ++ map (fun k => INITIAL_RETRY_DELAY * 2 ^ Z.of_nat k)
                      (seq attempt (failures - attempt)))%list)
  /\ ((retries < failures)%nat ->
      outcome r = inr error
      /\ attempts r = (calls + fuel)%nat
      /\ final r = (retries + 1)%nat
      /\ delays r =
           (slept ++ map (fun k => INITIAL_RETRY_DELAY * 2 ^ Z.of_nat k)
                       (seq attempt (fuel - 1)))%list).
Proof.
  induction fuel as [|fuel IH]; intros attempt calls slept Hsum Hpos Hle; [lia|].
  cbn [retry_loop].
  assert (E : fails_then_succeeds failures error value attempt
              = (if (attempt <? failures)%nat then inr error else inl value,
                 S attempt)) by reflexivity.
  rewrite E. clear E.
  destruct (Nat.ltb_spec attempt failures) as [Hlt|Hge].
  - destruct (Nat.eqb_spec attempt retries) as [->|Hne];
      cbn [outcome attempts final delays].
    + split; [intros; lia|]. intros _. assert (fuel = 0)%nat by lia. subst fuel.
      cbn [Nat.sub seq map]. rewrite app_nil_r. repeat split; lia.
    + rewrite Nat.add_1_r.
      destruct (IH (S attempt) (calls + 1)%nat
                  (slept ++ [INITIAL_RETRY_DELAY * 2 ^ Z.of_nat attempt])%list)
        as [Hok Hko]; [lia|lia|lia|].
      split.
      * intros Hk. destruct (Hok Hk) as (Ho & Ha & Hf & Hd).
        split; [exact Ho|]. split; [lia|]. split; [exact Hf|].
        rewrite Hd, <- app_assoc. f_equal.
        replace (failures - attempt)%nat with (S (failures - S attempt)) by lia.
        reflexivity.
      * intros Hk. destruct (Hko Hk) as (Ho & Ha & Hf & Hd).
        split; [exact Ho|]. split; [lia|]. split; [exact Hf|].
        rewrite Hd, <- app_assoc. f_equal.
        replace (S fuel - 1)%nat with (S (fuel - 1)) by lia.
        reflexivity.
  - assert (attempt = failures) by lia. subst attempt.
    cbn [outcome attempts final delays]. split; [|intros; lia]. intros _.
    rewrite Nat.sub_diag. cbn [seq map]. rewrite app_nil_r.
    repeat split; lia.
Qed.

(** X10: an operation that rejects at its first [failures] calls and
    resolves afterwards is called [failures + 1] times and its value is
    returned, after the delays 1000, 2000, ... of the failed attempts,
    provided [failures <= retries]; with more failures than retries it is
    called [retries + 1] times and the error comes out. *)
Theorem executeWithRetry_fails_then_succeeds :
  forall (T : Type) (failures : nat) (error : JsError) (value : T) (retries : nat),
    let r := executeWithRetry (fails_then_succeeds failures error value) retries 0%nat in
    ((failures <= retries)%nat ->
       outcome r = inl value /\ attempts r = (failures + 1)%nat
       /\ delays r = backoff_schedule failures)
    /\ ((retries < failures)%nat ->
        outcome r = inr error /\ attempts r = (retries + 1)%nat
        /\ delays r = backoff_schedule retries).
Proof.
  intros T failures error value retries. cbv zeta. unfold executeWithRetry.
  destruct (retry_loop_fails_then_succeeds failures error value retries
              (retries + 1) 0 0 []) as [Hok Hko]; [lia|lia|lia|].
  split.
  - intros Hk. destruct (Hok Hk) as (Ho & Ha & _ & Hd).
    split; [exact Ho|]. split; [lia|].
    rewrite Hd. unfold backoff_schedule. cbn [app]. now rewrite Nat.sub_0_r.
  - intros Hk. destruct (Hko Hk) as (Ho & Ha & _ & Hd).
    split; [exact Ho|]. split; [lia|].
    rewrite Hd. unfold backoff_schedule. cbn [app]. now rewrite Nat.add_sub.
Qed.

End RetryMoreTheorems.

(** ** The configured variant *)

Section ConfiguredFacts.

Import Status ConfiguredService ConfiguredOperations.

(** X11: with weights and threshold that are not negative,
    [selectBestSubaccount] returns [null] exactly when no known subaccount
    reaches the threshold: there is no fallback to the best of the
    rest. *)
Theorem selectBestSubaccount_null :
  forall (cfg : SubaccountSelection) (now : Z) (m : JsMap.t),
    (0 <= successRateWeight cfg)%Q ->
    (0 <= recencyWeight cfg)%Q ->
    (0 <= minSuccessRate cfg)%Q ->
    (selectBestSubaccount cfg now m = None
     <-> forall k v, In (k, v) m -> (successRate v < minSuccessRate cfg)%Q).
Proof.
  intros cfg now m Hws Hwr Hmin. split.
  - intros Hnone k v Hin.
    destruct (Qlt_le_dec (successRate v) (minSuccessRate cfg)) as [Hlt|Hle];
      [exact Hlt|].
    exfalso.
    destruct (selectBestSubaccount_finds cfg now m k v Hin) as [id Hid].
    + now apply eligible_iff.
    + assert (0 <= score cfg now v)%Q by (apply score_nonneg; auto; lra). lra.
    + congruence.
  - intros Hall.
    destruct (selectBestSubaccount cfg now m) as [id|] eqn:Hsel; [|reflexivity].
    exfalso.
    destruct (selectBestSubaccount_Some cfg now m id Hsel)
      as (pre & v & post & -> & He & _).
    apply eligible_iff in He.
    specialize (Hall id v (in_elt _ _ _)). lra.
Qed.

(** X12: in this variant recording an outcome always leaves an entry for
    the id: an unknown id gets one, counted from zero.  The entry has one
    more transaction, one more success if [success], the rate
    successful / total (in [0,1] when the counters were consistent), and
    [lastUsed] set to [now]. *)
Theorem configured_updateSubaccountMetrics_creates :
  forall (m : JsMap.t) (id : string) (success : bool) (now : Z),
    let before :=
      match JsMap.get id m with
      | Some v => (totalTransactions v, successfulTransactions v)
      | None => (0, 0)
      end in
    exists v',
      JsMap.get id (updateSubaccountMetrics id success now m) = Some v'
      /\ totalTransactions v' = fst before + 1
      /\ successfulTransactions v' = snd before + (if success then 1 else 0)
      /\ successRate v'
         = (inject_Z (successfulTransactions v') / inject_Z (totalTransactions v'))%Q
      /\ lastUsed v' = now
      /\ (0 <= snd before <= fst before -> (0 <= successRate v' <= 1)%Q).
Proof.
  intros m id success now. cbv zeta. unfold updateSubaccountMetrics.
  eexists. split; [apply get_set_same|]. cbn [totalTransactions
    successfulTransactions successRate lastUsed].
  destruct (JsMap.get id m) as [v|]; cbn [fst snd totalTransactions
    successfulTransactions];
    (split; [reflexivity|]); (split; [destruct success; lia|]);
    (split; [reflexivity|]); (split; [reflexivity|]);
    intros H; apply ratio_bounds; destruct success; lia.
Qed.

(** X13: a subaccount first heard of through a failed outcome has the rate
    0 and is never selected while the threshold is positive, whatever its
    recency. *)
Theorem configured_failed_newcomer_not_selected :
  forall (cfg : SubaccountSelection) (m : JsMap.t) (id : string) (now now' : Z),
    (0 < minSuccessRate cfg)%Q ->
    JsMap.get id m = None ->
    selectBestSubaccount cfg now' (updateSubaccountMetrics id false now m) <> Some id.
Proof.
  intros cfg m id now now' Hmin Hg Hsel.
  destruct (selectBestSubaccount_Some cfg now' _ id Hsel)
    as (pre & v & post & Hm & He & _).
  apply eligible_iff in He.
  assert (Hin : In (id, v) (updateSubaccountMetrics id false now m))
    by (rewrite Hm; apply in_elt).
  unfold updateSubaccountMetrics in Hin. rewrite Hg in Hin.
  destruct (in_set_inv _ _ _ _ Hin) as [[= ->]|Hold].
  - cbn [successRate totalTransactions successfulTransactions] in He.
    assert (E : (inject_Z 0 / inject_Z (0 + 1) == 0)%Q) by reflexivity.
    rewrite E in He. lra.
  - apply get_None_keys in Hg. apply Hg. apply in_map_iff. now exists (id, v).
Qed.

Lemma prefix_substring p : forall s n,
  (String.length p <= n)%nat ->
  String.prefix p (String.substring 0 n s) = String.prefix p s.
Proof.
  induction p as [|c p IH]; intros s n Hn.
  - destruct (String.substring 0 n s), s; reflexivity.
  - cbn [String.length] in Hn. destruct n as [|n]; [lia|].
    destruct s as [|d s]; [reflexivity|].
    cbn [String.substring String.prefix].
    destruct (ascii_dec c d); [apply IH; lia|reflexivity].
Qed.

Lemma get_substring i : forall s n,
  (i < n)%nat -> String.get i (String.substring 0 n s) = String.get i s.
Proof.
  induction i as [|i IH]; intros s n Hn; (destruct n as [|n]; [lia|]);
    (destruct s as [|d s]; [reflexivity|]); cbn [String.substring String.get].
  - reflexivity.
  - apply IH. lia.
Qed.

Lemma char_between_substring lo hi i s n :
  (i < n)%nat ->
  char_between lo hi i (String.substring 0 n s) = char_between lo hi i s.
Proof. intros H. unfold char_between. now rewrite get_substring. Qed.

(** X14: the brand [detectCardBrand] reports depends on the first four
    characters of the number only: nothing after them (length, other
    digits, a checksum) plays a part. *)
Theorem detectCardBrand_prefix :
  forall number : string,
    detectCardBrand number = detectCardBrand (String.substring 0 4 number).
Proof.
  intros number. unfold detectCardBrand.
  rewrite !prefix_substring by (cbn [String.length]; lia).
  rewrite !char_between_substring by lia.
  reflexivity.
Qed.

Lemma handleError_cases error :
  (exists message code response,
      error = AxiosError message code response
      /\ handleError error <> PaymentError "An unexpected error occurred" error
      /\ isAxiosError (handleError error) = false)
  \/ handleError error = PaymentError "An unexpected error occurred" error.
Proof.
  destruct error as [m|m|m|m|m|m o|m o|message code response];
    try (right; reflexivity).
  unfold handleError.
  repeat match goal with
  | |- context [if ?c then _ else _] =>
      destruct c; [left; exists message, code, response;
                   repeat split; [discriminate]|]
  end.
  right. reflexivity.
Qed.

(** X15: [handleError] never lets the transport error out as it is: what
    it throws is never an axios error, and an error that is not an axios
    error (one thrown by the code itself, such as a ValidationError)
    always comes out as PaymentError('An unexpected error occurred')
    carrying it. *)
Theorem handleError_wraps :
  forall error : JsError,
    isAxiosError (handleError error) = false
    /\ (isAxiosError error = false ->
        handleError error = PaymentError "An unexpected error occurred" error).
Proof.
  intros error. split.
  - destruct (handleError_cases error)
      as [(message & code & response & _ & _ & H)|H]; [exact H|now rewrite H].
  - destruct error; try reflexivity. discriminate.
Qed.

(** X16: the variant's [initializePayment] never resolves with the status
    FAILED: it resolves with SUCCESS exactly when the gateway's status is
    the string "success" and with PENDING for every other answer, "failed"
    included; and a payment without card details is rejected with
    PaymentError('An unexpected error occurred'), not with the
    ValidationError the method throws. *)
Theorem configured_initializePayment_outcomes :
  forall (device : option JsError) (answer : option ChargeResponse + JsError),
    initializePayment false device answer
    = inr (PaymentError "An unexpected error occurred"
             (ValidationError "Card details are required"))
    /\ forall card_present result,
         initializePayment card_present device answer = inl result ->
         out_status result <> FAILED
         /\ (out_status result = SUCCESS <->
             exists response,
               answer = inl (Some response)
               /\ charge_status response = Some "success").
Proof.
  intros device answer. split; [reflexivity|].
  intros card_present result. unfold initializePayment.
  destruct card_present; cbn [negb]; [|discriminate].
  destruct device; [discriminate|].
  destruct answer as [[response|]|e]; try discriminate.
  intros [= <-]. unfold buildSuccessResponse. cbn [out_status].
  destruct (charge_status response) as [s|] eqn:Es.
  - destruct (String.eqb_spec s "success") as [->|Hne].
    + split; [discriminate|]. split; [|reflexivity].
      intros _. now exists response.
    + split; [discriminate|]. split; [discriminate|].
      intros (r & [= <-] & Hs). congruence.
  - split; [discriminate|]. split; [discriminate|].
    intros (r & [= <-] & Hs). congruence.
Qed.

End ConfiguredFacts.

(** ** More on the payment operations *)

Section EnvelopeFacts.

Import Encryption.

Context {crypto : NodeCrypto}.

Lemma base64_encode_nonempty bs : bs <> [] -> base64_encode bs <> [].
Proof. destruct bs as [|a [|b [|c r]]]; intros H; [congruence|discriminate..]. Qed.

(** What [encrypt] returns, and that [decrypt] opens it. *)
Lemma envelope_opens text key iv envelope :
  utf8_serializable text = true ->
  usable_iv iv = true ->
  encrypt text key iv = inl envelope ->
  envelope <> [] /\ decrypt envelope key iv = inl text.
Proof.
  intros Htext Hiv Henc.
  unfold usable_iv in Hiv. apply andb_true_iff in Hiv as [Hunits Hlen].
  apply Nat.eqb_eq in Hlen.
  destruct (formattedKey_bytes key) as [Hkey Hkeylen].
  assert (Hvalid : valid_key_iv (utf8_encode (formattedKey key)) (formattedIV iv) = true)
    by (unfold valid_key_iv; rewrite Hkey, Hkeylen, Hlen; reflexivity).
  assert (Hivb : forallb is_byte (formattedIV iv) = true).
  { unfold formattedIV. apply utf8_encode_bytes, forallb_firstn.
    unfold padEnd16. rewrite forallb_app, Hunits. now apply forallb_repeat. }
  pose proof (pkcs7_pad_length (utf8_encode text)) as Hplen.
  pose proof (pkcs7_pad_bytes _ (utf8_encode_bytes _ (utf8_serializable_units _ Htext)))
    as Hpb.
  set (blocks := (List.length (utf8_encode text) / 16 + 1)%nat) in *.
  assert (Hdiv : forall n, (16 * n / 16 = n)%nat)
    by (intros n; rewrite Nat.mul_comm; apply Nat.div_mul; lia).
  destruct (cbc_decrypt_encrypt blocks (utf8_encode (formattedKey key))
              (formattedIV iv) (pkcs7_pad (utf8_encode text)))
    as (Hcl & Hcb & Hround); try assumption; [now rewrite Hkey|].
  unfold encrypt in Henc. rewrite Hvalid, Hplen, Hdiv in Henc.
  injection Henc as <-. split.
  - apply base64_encode_nonempty. intros E. rewrite E in Hcl.
    cbn [List.length] in Hcl. unfold blocks in Hcl. lia.
  - unfold decrypt. rewrite Hvalid, (base64_decode_encode _ Hcb), Hcl, Hdiv, Hround.
    rewrite Nat.mul_comm, Nat.Div0.mod_mul. cbn [Nat.eqb andb].
    destruct (Nat.eqb_spec (blocks * 16) 0) as [E|_]; [unfold blocks in E; lia|].
    cbn [negb]. rewrite pkcs7_unpad_pad. now rewrite (utf8_decode_encode _ Htext).
Qed.

End EnvelopeFacts.

Section OperationMoreFacts.

Import Status Orchestrator.

Context {crypto : Encryption.NodeCrypto}.
Variable config : Config.
Variable gateway : Gateway.
Variable JSON_parse_card : Encryption.jsstring -> ParsedCard.
Variable JSON_parse_gateway : string -> ParsedGateway.

(** A request that the gateway answers at once. *)
Lemma executeWithRetry_first_try request body w :
  gateway (List.length (requests w)) request = inl body ->
  executeWithRetry (axios gateway request) w
  = (inl body,
     mkWorld (subaccountMetrics w) (requests w ++ [request])%list (slept w)).
Proof.
  intros Hg.
  assert (Hrun : Retry.executeWithRetry (axios gateway request) Retry.MAX_RETRIES w
                 = Retry.mkRun (inl body)
                     (mkWorld (subaccountMetrics w) (requests w ++ [request])%list
                        (slept w)) 1 []).
  { unfold Retry.executeWithRetry.
    change (Retry.MAX_RETRIES + 1)%nat with 4%nat. cbn [Retry.retry_loop].
    unfold axios. now rewrite Hg. }
  unfold executeWithRetry. rewrite Hrun.
  cbn [Retry.outcome Retry.final Retry.delays subaccountMetrics requests slept].
  now rewrite app_nil_r.
Qed.

(** X17: whatever goes wrong in [authorizePayment] (a missing or corrupt
    envelope, unparsable card data, a gateway failure, a malformed
    answer), the caller sees one kind of error only: a PaymentError whose
    message is "Failed to authorize payment: " followed by the message of
    the original error, which it carries. *)
Theorem authorizePayment_rejects_with_PaymentError :
  forall (payment : Payment) (w : World) (e : JsError),
    fst (authorizePayment config gateway JSON_parse_card payment w) = inr e ->
    exists original,
      e = PaymentError ("Failed to authorize payment: " ++ errorMessage original)
            original.
Proof.
  intros payment w e. unfold authorizePayment, try_catch.
  match goal with |- context [match ?body w with _ => _ end] =>
    destruct (body w) as [[out|original] w'] end; cbn [fst throw].
  - discriminate.
  - intros [= <-]. now exists original.
Qed.

(** X18: given the envelope [encrypt] made of a card text whose
    [subaccount_id] is [sub], and a gateway that answers the charge at
    once, [authorizePayment] sends exactly one request, the charge for
    that subaccount with the amount in major units, waits for nothing,
    records the outcome against [sub] (a success unless the mapped status
    is FAILED) and resolves with the mapped status. *)
Theorem authorizePayment_charges_envelope_subaccount :
  forall (payment : Payment) (w : World) (text envelope : Encryption.jsstring)
         (sub : string) (body : ResponseBody) (data : ResponseData),
    Encryption.utf8_serializable text = true ->
    Encryption.usable_iv (encryption_iv config) = true ->
    Encryption.encrypt text (encryption_key config) (encryption_iv config)
      = inl envelope ->
    card_encrypted payment = Some envelope ->
    JSON_parse_card text = CardValue (Some sub) ->
    sub <> "" ->
    let request :=
      PostCharge (mkChargePayload (provider_reference payment)
                    (formatAmount (amount payment)) (currency payment) (Some sub)) in
    gateway (List.length (requests w)) request = inl body ->
    body_data body = Some data ->
    authorizePayment config gateway JSON_parse_card payment w
    = (inl (mkOutput (or_else (data_reference data) (reference payment))
              (handleRexpayResponseStatus (data_status data))
              (or_else (body_message body) "Payment authorized")
              None None None),
       mkWorld
         (Service.updateSubaccountMetrics sub
            (match handleRexpayResponseStatus (data_status data) with
             | FAILED => false
             | _ => true
             end)
            (subaccountMetrics w))
         (requests w ++ [request])%list (slept w)).
Proof.
  intros payment w text envelope sub body data Htext Hiv Henc Hcard Hparse Hsub
    request Hgw Hdata.
  destruct (envelope_opens _ _ _ _ Htext Hiv Henc) as [Hne Hdec].
  unfold authorizePayment, try_catch, bind. rewrite Hcard.
  destruct envelope as [|u envelope]; [congruence|].
  unfold ret at 1. rewrite Hdec. unfold ret at 1. rewrite Hparse. unfold ret at 1.
  fold request. rewrite (executeWithRetry_first_try request body w Hgw).
  rewrite Hdata. unfold ret at 1.
  assert (Ht : truthy (Some sub) = true).
  { unfold truthy. destruct (String.eqb_spec sub ""); [contradiction|reflexivity]. }
  rewrite Ht.
  assert (Hor : or_else (Some sub) "" = sub).
  { unfold or_else. destruct (String.eqb_spec sub ""); [contradiction|reflexivity]. }
  rewrite Hor. reflexivity.
Qed.

(** X19: [retrievePayment] with an empty id rejects with the
    ValidationError itself and sends nothing; and whatever else goes
    wrong, what it rejects with is a ValidationError or a PaymentError,
    never the raw error of the transport or of the parsing. *)
Theorem retrievePayment_rejections :
  forall (w : World),
    retrievePayment gateway JSON_parse_gateway "" w
    = (inr (ValidationError "Payment ID is required"), w)
    /\ forall paymentId e,
         fst (retrievePayment gateway JSON_parse_gateway paymentId w) = inr e ->
         (exists message, e = ValidationError message)
         \/ (exists message original,
                e = PaymentError message original
                /\ (message = "Failed to retrieve payment"
                    \/ message = "Payment retrieval failed")).
Proof.
  intros w. split; [reflexivity|].
  intros paymentId e. unfold retrievePayment, try_catch.
  match goal with |- context [match ?body w with _ => _ end] =>
    destruct (body w) as [[out|original] w'] end; cbn [fst]; [discriminate|].
  destruct original; cbn [isValidationError isAxiosError throw fst ret];
    try (intros [= <-]; right; eexists; eexists; split; [reflexivity|now right]).
  - intros [= <-]. left. eexists. reflexivity.
  - destruct (status_is _ 404); cbn [throw ret fst]; [discriminate|].
    intros [= <-]. right. eexists. eexists. split; [reflexivity|now left].
Qed.

(** X20: when the gateway answers a retrieval at once and its embedded
    [gateway_response] text does not parse, the retrieval still resolves,
    with the mapped status and empty detail fields; a text that parses to
    [null] makes it reject with PaymentError('Payment retrieval failed');
    a text that parses to an object gives that object's details. *)
Theorem retrievePayment_gateway_response :
  forall (paymentId : string) (w : World) (body : ResponseBody)
         (data : ResponseData) (text : string),
    paymentId <> "" ->
    gateway (List.length (requests w)) (GetPayment paymentId) = inl body ->
    body_data body = Some data ->
    data_gateway_response data = Some text ->
    text <> "" ->
    let resolved detail :=
      inl (mkOutput paymentId (handleRexpayResponseStatus (data_status data))
             (or_else (body_message body) "Payment retrieved")
             (detail_gatewayRecommendation detail) (detail_gatewayCode detail)
             (detail_acquirerMessage detail)) in
    (JSON_parse_gateway text = GatewaySyntaxError ->
     fst (retrievePayment gateway JSON_parse_gateway paymentId w)
     = resolved (mkDetail (Some "") (Some "") (Some "")))
    /\ (JSON_parse_gateway text = GatewayNull ->
        fst (retrievePayment gateway JSON_parse_gateway paymentId w)
        = inr (PaymentError "Payment retrieval failed"
                 (TypeError "Cannot read properties of null")))
    /\ (forall detail,
          JSON_parse_gateway text = GatewayValue (Some detail) ->
          fst (retrievePayment gateway JSON_parse_gateway paymentId w)
          = resolved detail).
Proof.
  intros paymentId w body data text Hid Hgw Hdata Htext Hne. cbv zeta.
  assert (Hrun : forall parsed,
            JSON_parse_gateway text = parsed ->
            retrievePayment gateway JSON_parse_gateway paymentId w
            = try_catch
                (bind
                   (match parsed with
                    | GatewaySyntaxError =>
                        ret (Some (mkDetail (Some "") (Some "") (Some "")))
                    | GatewayNull => throw (TypeError "Cannot read properties of null")
                    | GatewayValue response => ret response
                    end)
                   (fun gatewayResponse =>
                      let detail field :=
                        match gatewayResponse with
                        | Some response => field response
                        | None => None
                        end in
                      ret (mkOutput paymentId
                             (handleRexpayResponseStatus (data_status data))
                             (or_else (body_message body) "Payment retrieved")
                             (detail detail_gatewayRecommendation)
                             (detail detail_gatewayCode)
                             (detail detail_acquirerMessage))))
                (fun error =>
                   if isValidationError error then throw error
                   else if isAxiosError error then
                     if status_is error 404
                     then ret (mkOutput paymentId FAILED "Payment not found"
                                 None None None)
                     else throw (PaymentError "Failed to retrieve payment" error)
                   else throw (PaymentError "Payment retrieval failed" error))
                (mkWorld (subaccountMetrics w)
                   (requests w ++ [GetPayment paymentId])%list (slept w))).
  { intros parsed Hp. unfold retrievePayment, try_catch, bind.
    destruct (String.eqb_spec paymentId ""); [contradiction|].
    unfold ret at 1.
    rewrite (executeWithRetry_first_try (GetPayment paymentId) body w Hgw).
    rewrite Hdata, Htext.
    assert (Ht : truthy (Some text) = true).
    { unfold truthy. destruct (String.eqb_spec text ""); [contradiction|reflexivity]. }
    assert (Hor : or_else (Some text) "" = text).
    { unfold or_else. destruct (String.eqb_spec text ""); [contradiction|reflexivity]. }
    rewrite Ht, Hor, Hp. reflexivity. }
  split; [|split].
  - intros Hp. rewrite (Hrun _ Hp). reflexivity.
  - intros Hp. rewrite (Hrun _ Hp). reflexivity.
  - intros detail Hp. rewrite (Hrun _ Hp). reflexivity.
Qed.

End OperationMoreFacts.

Section AmountFacts.

Import Orchestrator.

Lemma Qfloor_half (a : Z) : Qfloor (inject_Z a + (1 # 2)) = a.
Proof.
  pose proof (Qfloor_le (inject_Z a + (1 # 2))) as Hle.
  pose proof (Qlt_floor (inject_Z a + (1 # 2))) as Hlt.
  set (f := Qfloor (inject_Z a + (1 # 2))) in *.
  assert (H1 : (inject_Z f <= inject_Z a + (1 # 2))%Q) by exact Hle.
  assert (H2 : (inject_Z a + (1 # 2) < inject_Z (f + 1))%Q) by exact Hlt.
  rewrite inject_Z_plus in H2.
  assert (Hfa : (inject_Z f < inject_Z (a + 1))%Q)
    by (rewrite inject_Z_plus; change (inject_Z 1) with 1%Q; lra).
  assert (Haf : (inject_Z a < inject_Z (f + 1))%Q)
    by (rewrite inject_Z_plus; change (inject_Z 1) with 1%Q in *; lra).
  rewrite <- Zlt_Qlt in Hfa, Haf. lia.
Qed.

(** X21: for an amount given as a whole number of minor units,
    [formatAmount] is the amount divided by 100, exactly: the rounding
    step changes nothing (1000 cents give 10, 1999 give 19.99). *)
Theorem formatAmount_exact :
  forall amount : Z, (formatAmount amount == inject_Z amount / 100)%Q.
Proof.
  intros amount. unfold formatAmount.
  assert (E : (inject_Z amount / 100 * 100 + (1 # 2) == inject_Z amount + (1 # 2))%Q)
    by (field).
  rewrite (Qfloor_comp _ _ E), Qfloor_half. reflexivity.
Qed.

End AmountFacts.

(** ** Request building *)

Section BuilderFacts.

Import Builders.

Lemma substring_length_le n : forall s, (String.length (String.substring 0 n s) <= n)%nat.
Proof.
  induction n as [|n IH]; intros [|c s]; cbn [String.substring String.length]; try lia.
  specialize (IH s). lia.
Qed.

Lemma substring_all n : forall s, (String.length s <= n)%nat -> String.substring 0 n s = s.
Proof.
  induction n as [|n IH]; intros [|c s]; cbn [String.substring String.length];
    intros H; try reflexivity; try lia.
  rewrite IH by lia. reflexivity.
Qed.

Lemma or_else_length a b n :
  (forall s, a = Some s -> (String.length s <= n)%nat) ->
  (String.length b <= n)%nat -> (String.length (or_else a b) <= n)%nat.
Proof.
  intros Ha Hb. unfold or_else. destruct a as [s|]; [|exact Hb].
  destruct (String.eqb s ""); [exact Hb|]. now apply Ha.
Qed.

Lemma two_char_values key v :
  TwoCharCountryCodeToThreeMap key = Some v -> v = "USA" \/ v = "GBR" \/ v = "CAN".
Proof.
  unfold TwoCharCountryCodeToThreeMap.
  repeat match goal with |- context [String.eqb ?a ?b] => destruct (String.eqb a b) end;
    intros [= <-]; auto.
Qed.

Lemma convert_values key v :
  ConvertToThreeCountryCode key = Some v ->
  (v = "USA" \/ v = "GBR" \/ v = "CAN") /\ (6 <= String.length key)%nat.
Proof.
  unfold ConvertToThreeCountryCode.
  repeat match goal with |- context [String.eqb ?a ?b] =>
    destruct (String.eqb_spec a b) as [-> | ] end;
    intros [= <-]; cbn [String.length]; split; auto; lia.
Qed.

Lemma normalizeCountryCode_length country :
  (String.length (normalizeCountryCode country) <= 3)%nat.
Proof.
  unfold normalizeCountryCode. destruct country as [c|]; [|cbn; lia].
  destruct (String.eqb c ""); [cbn; lia|]. cbv zeta.
  destruct (String.length (trim (toUpperCase c)) =? 2)%nat.
  - apply or_else_length; [|cbn; lia].
    intros s Hs. destruct (two_char_values _ _ Hs) as [-> | [-> | -> ]]; cbn; lia.
  - apply or_else_length; [|apply substring_length_le].
    intros s Hs. destruct (convert_values _ _ Hs) as [[-> | [-> | -> ]] _]; cbn; lia.
Qed.

(** X22: [normalizeCountryCode] always yields at most three characters.
    A country that is two characters long once upper-cased and trimmed
    becomes USA, GBR or CAN, and USA unless it is GB or CA: every other
    two-letter code is turned into USA.  A country that is three characters
    long once upper-cased and trimmed is returned in that form. *)
Theorem normalizeCountryCode_cases :
  forall country : string,
    country <> "" ->
    let upperCountry := trim (toUpperCase country) in
    (String.length (normalizeCountryCode (Some country)) <= 3)%nat
    /\ (String.length upperCountry = 2%nat ->
        (normalizeCountryCode (Some country) = "USA"
         \/ normalizeCountryCode (Some country) = "GBR"
         \/ normalizeCountryCode (Some country) = "CAN")
        /\ (upperCountry <> "GB" -> upperCountry <> "CA" ->
            normalizeCountryCode (Some country) = "USA"))
    /\ (String.length upperCountry = 3%nat ->
        normalizeCountryCode (Some country) = upperCountry).
Proof.
  intros country Hne. cbv zeta.
  split; [apply normalizeCountryCode_length|].
  unfold normalizeCountryCode.
  destruct (String.eqb_spec country ""); [contradiction|]. cbv zeta.
  set (u := trim (toUpperCase country)). split.
  - intros Hlen. rewrite Hlen. cbn [Nat.eqb].
    unfold TwoCharCountryCodeToThreeMap.
    destruct (String.eqb_spec u "US"); [cbn; auto|].
    destruct (String.eqb_spec u "GB"); [cbn; split; [auto|tauto]|].
    destruct (String.eqb_spec u "CA"); [cbn; split; [auto|tauto]|].
    cbn. auto.
  - intros Hlen. rewrite Hlen. cbn [Nat.eqb].
    destruct (ConvertToThreeCountryCode u) as [v|] eqn:E.
    + apply convert_values in E as [_ H]. lia.
    + cbn [or_else]. apply substring_all. lia.
Qed.

(** X23: the billing information sent to the gateway respects its length
    limits whatever the payment holds: at most 100 characters of street,
    50 of city, 20 of state or province and 3 of country; the second
    address line is always empty, and the state falls back to the city
    when the payment has no state. *)
Theorem buildBillingInformation_limits :
  forall (billing : Billing) (phone_number : option string),
    let info := buildBillingInformation billing phone_number in
    (String.length (street info) <= 100)%nat
    /\ (String.length (info_city info) <= 50)%nat
    /\ (String.length (stateProvince info) <= 20)%nat
    /\ (String.length (info_country info) <= 3)%nat
    /\ address2 info = ""
    /\ (state billing = None \/ state billing = Some "" ->
        stateProvince info = String.substring 0 20 (or_else (city billing) "")).
Proof.
  intros billing phone_number. cbv zeta.
  unfold buildBillingInformation.
  cbn [street info_city stateProvince info_country address2].
  assert (Hclip : forall n v, (String.length (clipped n v) <= n)%nat).
  { intros n v. unfold clipped. apply or_else_length; [|cbn; lia].
    intros s Hs. destruct v as [x|]; [|discriminate]. injection Hs as <-.
    apply substring_length_le. }
  repeat split; auto using substring_length_le, normalizeCountryCode_length.
  intros [-> | -> ]; reflexivity.
Qed.

End BuilderFacts.

(** ** Initialize, finalize and refund *)

Section RetryInvariant.

Import Retry.

Context {W T : Type}.
Variable operation : Operation W T.
Variable retries : nat.

(** What every call of the operation preserves, the executor preserves. *)
Lemma retry_loop_invariant (P : W -> Prop) :
  (forall s, P s -> P (snd (operation s))) ->
  forall fuel attempt s calls slept,
    P s -> P (final (retry_loop operation retries fuel attempt s calls slept)).
Proof.
  intros Hop.
  induction fuel as [|fuel IH]; intros attempt s calls slept Hs; [exact Hs|].
  cbn [retry_loop]. pose proof (Hop s Hs) as Hs'.
  destruct (operation s) as [[v|error] s']; cbn [snd] in Hs'; cbn [final];
    [exact Hs'|].
  destruct (attempt =? retries)%nat; cbn [final]; [exact Hs'|].
  now apply IH.
Qed.

End RetryInvariant.

Section LifecycleFacts.

Import Status Lifecycle.

Context {crypto : Encryption.NodeCrypto}.
Variable config : Orchestrator.Config.
Variable gateway : Gateway.
Variable JSON_stringify_card : Card -> string -> Encryption.jsstring.

(** Sending requests never touches the metrics map. *)
Lemma executeWithRetry_metrics request w :
  metrics (snd (executeWithRetry (axios gateway request) w)) = metrics w.
Proof.
  unfold executeWithRetry. cbn [snd metrics]. unfold Retry.executeWithRetry.
  apply (retry_loop_invariant (axios gateway request) Retry.MAX_RETRIES
           (fun s => metrics s = metrics w)); [|reflexivity].
  intros s Hs. unfold axios. cbn [snd metrics]. exact Hs.
Qed.

(** A request that the gateway answers at once. *)
Lemma lifecycle_first_try request answer w :
  gateway (List.length (sent w)) request = inl answer ->
  executeWithRetry (axios gateway request) w
  = (inl answer, mkWorld (metrics w) (sent w ++ [request])%list (waited w)).
Proof.
  intros Hg.
  assert (Hrun : Retry.executeWithRetry (axios gateway request) Retry.MAX_RETRIES w
                 = Retry.mkRun (inl answer)
                     (mkWorld (metrics w) (sent w ++ [request])%list (waited w)) 1 []).
  { unfold Retry.executeWithRetry.
    change (Retry.MAX_RETRIES + 1)%nat with 4%nat. cbn [Retry.retry_loop].
    unfold axios. now rewrite Hg. }
  unfold executeWithRetry. rewrite Hrun.
  cbn [Retry.outcome Retry.final Retry.delays metrics sent waited].
  now rewrite app_nil_r.
Qed.

(** A request that the gateway rejects every time. *)
Lemma lifecycle_rejected request w :
  (forall n, exists e, gateway n request = inr e) ->
  exists e w',
    executeWithRetry (axios gateway request) w = (inr e, w')
    /\ metrics w' = metrics w.
Proof.
  intros Hgw.
  pose proof (executeWithRetry_metrics request w) as Hm.
  destruct (retry_loop_all_fail_kind (axios gateway request) Retry.MAX_RETRIES
              (fun _ => True))
    with (fuel := (Retry.MAX_RETRIES + 1)%nat) (attempt := 0%nat)
         (s := w) (calls := 0%nat) (slept := @nil Z) as (e & He & _).
  - intros s. unfold axios. cbn [fst].
    destruct (Hgw (List.length (sent s))) as [e He]. now exists e.
  - reflexivity.
  - unfold Retry.MAX_RETRIES. lia.
  - destruct (executeWithRetry (axios gateway request) w) as [res w'] eqn:E.
    exists e, w'. cbn [snd] in Hm. split; [|exact Hm].
    unfold executeWithRetry in E. injection E as E1 _.
    unfold Retry.executeWithRetry in E1. rewrite He in E1. now rewrite <- E1.
Qed.

Lemma initialize_catch_throws selected error w :
  initialize_catch selected error w
  = (inr (PaymentError
            ("Failed to initialize payment: " ++ Orchestrator.errorMessage error)
            error),
     if Orchestrator.truthy selected
     then mkWorld (Service.updateSubaccountMetrics (or_else selected "") false (metrics w))
            (sent w) (waited w)
     else w).
Proof.
  unfold initialize_catch, bind.
  destruct (Orchestrator.truthy selected); reflexivity.
Qed.

(** X24: [initializePayment] rejects with one kind of error only, a
    PaymentError whose message is "Failed to initialize payment: "
    followed by the message of the original error, which it carries; and
    when the list of subaccounts cannot be fetched (every attempt is
    rejected), no subaccount is selected or charged with a failure: the
    metrics map is as it was. *)
Theorem initializePayment_rejections :
  forall (payment : Payment) (now : Z) (w : World),
    (forall e,
        fst (initializePayment config gateway JSON_stringify_card payment now w) = inr e ->
        exists original,
          e = PaymentError
                ("Failed to initialize payment: " ++ Orchestrator.errorMessage original)
                original)
    /\ ((forall n, exists e, gateway n GetSubaccounts = inr e) ->
        metrics (snd (initializePayment config gateway JSON_stringify_card payment now w))
        = metrics w).
Proof.
  intros payment now w. split.
  - intros e. unfold initializePayment.
    destruct (executeWithRetry (axios gateway GetSubaccounts) w) as [[answer|error] w1].
    + destruct (subaccounts_of answer) as [subaccounts|error].
      * destruct (Service.selectOptimalSubaccount subaccounts now (metrics w1))
          as [[id|] m].
        -- unfold try_catch.
           destruct (initialize_selected _ _ _ _ _ _) as [[out|error] w2]; cbn [fst];
             [discriminate|].
           rewrite initialize_catch_throws. cbn [fst]. intros [= <-]. now exists error.
        -- rewrite initialize_catch_throws. cbn [fst]. intros [= <-]. eexists; reflexivity.
      * rewrite initialize_catch_throws. cbn [fst]. intros [= <-]. now exists error.
    + rewrite initialize_catch_throws. cbn [fst]. intros [= <-]. now exists error.
  - intros Hgw. unfold initializePayment.
    destruct (lifecycle_rejected GetSubaccounts w Hgw) as (e & w' & -> & Hm).
    rewrite initialize_catch_throws. cbn [snd Orchestrator.truthy]. exact Hm.
Qed.

(** X25: when the subaccounts are fetched at once and one is selected, but
    the initialize request is rejected at every attempt, the call rejects
    and exactly one failed outcome is recorded against the selected
    subaccount. *)
Theorem initializePayment_records_gateway_failure :
  forall (payment : Payment) (now : Z) (w : World) (body : Body)
         (subaccounts : list string) (id : string) (m1 : JsMap.t),
    gateway (List.length (sent w)) GetSubaccounts = inl (Some body) ->
    body_data body = DataArray subaccounts ->
    Service.selectOptimalSubaccount subaccounts now (metrics w) = (Some id, m1) ->
    id <> "" ->
    (forall n, exists e,
        gateway n (PostInitialize (initialize_payload payment id)) = inr e) ->
    (exists original,
        fst (initializePayment config gateway JSON_stringify_card payment now w)
        = inr (PaymentError
                 ("Failed to initialize payment: "
                  ++ Orchestrator.errorMessage original) original))
    /\ metrics (snd (initializePayment config gateway JSON_stringify_card payment now w))
       = Service.updateSubaccountMetrics id false m1.
Proof.
  intros payment now w body subaccounts id m1 Hfetch Hdata Hsel Hid Hgw.
  unfold initializePayment.
  rewrite (lifecycle_first_try GetSubaccounts (Some body) w Hfetch).
  unfold subaccounts_of. rewrite Hdata. cbn [metrics sent waited]. rewrite Hsel.
  unfold try_catch, initialize_selected, bind.
  destruct (lifecycle_rejected (PostInitialize (initialize_payload payment id))
              (mkWorld m1 (sent w ++ [GetSubaccounts])%list (waited w)) Hgw)
    as (e & w' & -> & Hm).
  rewrite initialize_catch_throws.
  assert (Ht : Orchestrator.truthy (Some id) = true).
  { unfold Orchestrator.truthy. destruct (String.eqb_spec id ""); [contradiction|reflexivity]. }
  assert (Hor : or_else (Some id) "" = id).
  { unfold or_else. destruct (String.eqb_spec id ""); [contradiction|reflexivity]. }
  rewrite Ht, Hor. cbn [fst snd metrics]. split; [now exists e|].
  now rewrite Hm.
Qed.

(** The run of [initializePayment] up to the encryption, when the gateway
    answers both requests at once. *)
Lemma initializePayment_answered payment now w body subaccounts id m1 answer
  transaction_id session_id status reference :
  gateway (List.length (sent w)) GetSubaccounts = inl (Some body) ->
  body_data body = DataArray subaccounts ->
  Service.selectOptimalSubaccount subaccounts now (metrics w) = (Some id, m1) ->
  gateway (S (List.length (sent w))) (PostInitialize (initialize_payload payment id))
    = inl (Some answer) ->
  body_data answer = DataObject transaction_id session_id status reference ->
  let mapped := handleRexpayResponseStatus status in
  let w2 :=
    mkWorld
      (Service.updateSubaccountMetrics id
         (match mapped with FAILED => false | _ => true end) m1)
      (sent w ++ [GetSubaccounts; PostInitialize (initialize_payload payment id)])%list
      (waited w) in
  initializePayment config gateway JSON_stringify_card payment now w
  = match Encryption.encrypt (JSON_stringify_card (card payment) id)
            (Orchestrator.encryption_key config)
            (Orchestrator.encryption_iv config) with
    | inl envelope =>
        (inl (mkInitializeOutput transaction_id mapped
                (or_else (body_message answer) "Payment initialized")
                (or_else session_id "") envelope id),
         w2)
    | inr e => initialize_catch (Some id) e w2
    end.
Proof.
  intros Hfetch Hdata Hsel Hpost Hanswer. cbv zeta.
  unfold initializePayment.
  rewrite (lifecycle_first_try GetSubaccounts (Some body) w Hfetch).
  unfold subaccounts_of. rewrite Hdata. cbn [metrics sent waited]. rewrite Hsel.
  unfold try_catch, initialize_selected, bind.
  rewrite (lifecycle_first_try (PostInitialize (initialize_payload payment id))
             (Some answer)).
  2:{ cbn [sent]. rewrite length_app, Nat.add_1_r. exact Hpost. }
  cbn [the_body ret metrics sent waited]. rewrite Hanswer.
  cbn [ret updateSubaccountMetrics metrics sent waited data_status
       data_transaction_id data_session_id].
  rewrite <- app_assoc. cbn [app].
  destruct (Encryption.encrypt _ _ _); reflexivity.
Qed.

(** X26: when the gateway answers the fetch and the initialize request at
    once, the card text is one UTF-8 can carry and the configured
    initialisation vector is accepted, [initializePayment] resolves with
    the mapped status and the selected subaccount, records one outcome
    against it (a success unless the mapped status is FAILED), has sent
    exactly the two requests, and the envelope it returns decrypts, with
    the configured key and vector, to the serialised card carrying that
    subaccount id. *)
Theorem initializePayment_envelope :
  forall (payment : Payment) (now : Z) (w : World) (body answer : Body)
         (subaccounts : list string) (id : string) (m1 : JsMap.t)
         (transaction_id session_id status reference : option string),
    gateway (List.length (sent w)) GetSubaccounts = inl (Some body) ->
    body_data body = DataArray subaccounts ->
    Service.selectOptimalSubaccount subaccounts now (metrics w) = (Some id, m1) ->
    gateway (S (List.length (sent w))) (PostInitialize (initialize_payload payment id))
      = inl (Some answer) ->
    body_data answer = DataObject transaction_id session_id status reference ->
    Encryption.utf8_serializable (JSON_stringify_card (card payment) id) = true ->
    Encryption.usable_iv (Orchestrator.encryption_iv config) = true ->
    exists envelope,
      initializePayment config gateway JSON_stringify_card payment now w
      = (inl (mkInitializeOutput transaction_id (handleRexpayResponseStatus status)
                (or_else (body_message answer) "Payment initialized")
                (or_else session_id "") envelope id),
         mkWorld
           (Service.updateSubaccountMetrics id
              (match handleRexpayResponseStatus status with
               | FAILED => false
               | _ => true
               end) m1)
           (sent w ++ [GetSubaccounts; PostInitialize (initialize_payload payment id)])%list
           (waited w))
      /\ Encryption.decrypt envelope (Orchestrator.encryption_key config)
           (Orchestrator.encryption_iv config)
         = inl (JSON_stringify_card (card payment) id).
Proof.
  intros payment now w body answer subaccounts id m1 transaction_id session_id
    status reference Hfetch Hdata Hsel Hpost Hanswer Htext Hiv.
  pose proof (initializePayment_answered payment now w body subaccounts id m1 answer
                transaction_id session_id status reference
                Hfetch Hdata Hsel Hpost Hanswer) as Hrun.
  cbv zeta in Hrun.
  destruct (Encryption.encrypt (JSON_stringify_card (card payment) id)
              (Orchestrator.encryption_key config)
              (Orchestrator.encryption_iv config)) as [envelope|e] eqn:Henc.
  - exists envelope. split; [exact Hrun|].
    exact (proj2 (envelope_opens _ _ _ _ Htext Hiv Henc)).
  - exfalso. unfold Encryption.encrypt in Henc.
    unfold Encryption.usable_iv in Hiv. apply andb_true_iff in Hiv as [_ Hlen].
    apply Nat.eqb_eq in Hlen.
    destruct (formattedKey_bytes (Orchestrator.encryption_key config)) as [Hk Hkl].
    unfold Encryption.valid_key_iv in Henc. rewrite Hk, Hkl, Hlen in Henc.
    discriminate.
Qed.

(** X27: when the gateway has answered the initialize request but the
    encryption then fails (the configured initialisation vector is not
    accepted), the call rejects, and the selected subaccount has been
    charged twice for the one payment: with the outcome of the request and
    then with a failure. *)
Theorem initializePayment_counts_twice :
  forall (payment : Payment) (now : Z) (w : World) (body answer : Body)
         (subaccounts : list string) (id : string) (m1 : JsMap.t)
         (transaction_id session_id status reference : option string) (e : JsError),
    gateway (List.length (sent w)) GetSubaccounts = inl (Some body) ->
    body_data body = DataArray subaccounts ->
    Service.selectOptimalSubaccount subaccounts now (metrics w) = (Some id, m1) ->
    id <> "" ->
    gateway (S (List.length (sent w))) (PostInitialize (initialize_payload payment id))
      = inl (Some answer) ->
    body_data answer = DataObject transaction_id session_id status reference ->
    Encryption.encrypt (JSON_stringify_card (card payment) id)
      (Orchestrator.encryption_key config) (Orchestrator.encryption_iv config)
      = inr e ->
    fst (initializePayment config gateway JSON_stringify_card payment now w)
    = inr (PaymentError
             ("Failed to initialize payment: " ++ Orchestrator.errorMessage e) e)
    /\ metrics (snd (initializePayment config gateway JSON_stringify_card payment now w))
       = Service.updateSubaccountMetrics id false
           (Service.updateSubaccountMetrics id
              (match handleRexpayResponseStatus status with
               | FAILED => false
               | _ => true
               end) m1).
Proof.
  intros payment now w body answer subaccounts id m1 transaction_id session_id
    status reference e Hfetch Hdata Hsel Hid Hpost Hanswer Henc.
  pose proof (initializePayment_answered payment now w body subaccounts id m1 answer
                transaction_id session_id status reference
                Hfetch Hdata Hsel Hpost Hanswer) as Hrun.
  cbv zeta in Hrun. rewrite Henc in Hrun. rewrite Hrun, initialize_catch_throws.
  assert (Ht : Orchestrator.truthy (Some id) = true).
  { unfold Orchestrator.truthy. destruct (String.eqb_spec id ""); [contradiction|reflexivity]. }
  assert (Hor : or_else (Some id) "" = id).
  { unfold or_else. destruct (String.eqb_spec id ""); [contradiction|reflexivity]. }
  rewrite Ht, Hor. split; reflexivity.
Qed.

(** X28: [finalizePayment] with an empty id sends nothing and rejects, not
    with the ValidationError it throws but with a PaymentError wrapping it;
    every rejection is such a PaymentError; and when the gateway answers
    the request at once the result is SUCCESS whatever the answer says:
    neither its status nor its data are looked at. *)
Theorem finalizePayment_outcomes :
  forall (w : World),
    finalizePayment gateway "" w
    = (inr (PaymentError "Failed to finalize payment: Payment ID is required"
              (ValidationError "Payment ID is required")), w)
    /\ (forall paymentId e,
          fst (finalizePayment gateway paymentId w) = inr e ->
          exists original,
            e = PaymentError
                  ("Failed to finalize payment: " ++ Orchestrator.errorMessage original)
                  original)
    /\ (forall paymentId answer,
          paymentId <> "" ->
          gateway (List.length (sent w)) (PostFinalize paymentId) = inl answer ->
          fst (finalizePayment gateway paymentId w)
          = inl (Orchestrator.mkOutput paymentId SUCCESS
                   (or_else (match answer with
                             | Some body => body_message body
                             | None => None
                             end) "Payment finalized")
                   None None None)).
Proof.
  intros w. split; [reflexivity|]. split.
  - intros paymentId e. unfold finalizePayment, try_catch.
    match goal with |- context [match ?body w with _ => _ end] =>
      destruct (body w) as [[out|original] w'] end; cbn [fst throw];
      [discriminate|].
    intros [= <-]. now exists original.
  - intros paymentId answer Hid Hgw. unfold finalizePayment, try_catch, bind.
    destruct (String.eqb_spec paymentId ""); [contradiction|].
    unfold ret at 1.
    rewrite (lifecycle_first_try (PostFinalize paymentId) answer w Hgw).
    reflexivity.
Qed.

(** X29: [refundPayment] rejects with an InternalServerError only, whose
    message is "Failed to refund payment: " followed by the message of the
    original error, and which does not carry that error; when the gateway
    answers at once, the one request sent has the amount in major units
    (none for an amount of 0) and the result is SUCCESS or FAILED as the
    answer's top-level [status] is true or false. *)
Theorem refundPayment_outcomes :
  forall (payment : Payment) (w : World),
    (forall e,
        fst (refundPayment gateway payment w) = inr e ->
        exists original,
          e = InternalServerError
                ("Failed to refund payment: " ++ Orchestrator.errorMessage original)
                None)
    /\ (forall body,
          let payload :=
            mkRefundPayload (reference payment) "Customer request"
              (if amount payment =? 0 then None
               else Some (Orchestrator.formatAmount (amount payment))) in
          gateway (List.length (sent w)) (PostRefund payload) = inl (Some body) ->
          refundPayment gateway payment w
          = (inl (Orchestrator.mkOutput
                    (or_else (data_reference (body_data body)) (reference payment))
                    (if body_status body then SUCCESS else FAILED)
                    (or_else (body_message body) "Refund processed")
                    None None None),
             mkWorld (metrics w) (sent w ++ [PostRefund payload])%list (waited w))).
Proof.
  intros payment w. split.
  - intros e. unfold refundPayment, try_catch.
    match goal with |- context [match ?body w with _ => _ end] =>
      destruct (body w) as [[out|original] w'] end; cbn [fst throw];
      [discriminate|].
    intros [= <-]. now exists original.
  - intros body payload Hgw. unfold refundPayment, try_catch, bind. fold payload.
    rewrite (lifecycle_first_try (PostRefund payload) (Some body) w Hgw).
    reflexivity.
Qed.

End LifecycleFacts.

Section CipherFailures.

Import Encryption.

Context {crypto : NodeCrypto}.

(** X30: the key is never what makes [encrypt] or [decrypt] fail: a key of
    any length is hashed into one of 32 bytes.  [encrypt] succeeds exactly
    when the initialisation vector takes 16 bytes once padded and cut,
    whatever the text; with another vector [decrypt] fails on every input;
    [decrypt] fails on an empty envelope; and each of the two replaces
    every error by its own fixed one. *)
Theorem encrypt_decrypt_failures :
  forall text key iv : jsstring,
    (forall e, encrypt text key iv = inr e -> e = Error "Failed to encrypt data")
    /\ ((exists envelope, encrypt text key iv = inl envelope)
        <-> List.length (formattedIV iv) = 16%nat)
    /\ (forall encrypted e,
          decrypt encrypted key iv = inr e -> e = Error "Failed to decrypt data")
    /\ (List.length (formattedIV iv) <> 16%nat ->
        forall encrypted,
          decrypt encrypted key iv = inr (Error "Failed to decrypt data"))
    /\ decrypt [] key iv = inr (Error "Failed to decrypt data").
Proof.
  intros text key iv.
  destruct (formattedKey_bytes key) as [Hkey Hkeylen].
  assert (Hvalid : valid_key_iv (utf8_encode (formattedKey key)) (formattedIV iv)
                   = (List.length (formattedIV iv) =? 16)%nat).
  { unfold valid_key_iv. rewrite Hkey, Hkeylen. reflexivity. }
  unfold encrypt, decrypt. rewrite Hvalid.
  destruct (Nat.eqb_spec (List.length (formattedIV iv)) 16) as [Hlen|Hlen].
  - split; [intros e; discriminate|].
    split; [split; [intros _; exact Hlen|intros _; eexists; reflexivity]|].
    split.
    + intros encrypted e.
      destruct (_ && _)%bool; [|now intros [= <-]].
      destruct (pkcs7_unpad _); [discriminate|now intros [= <-]].
    + split; [intros Hne; contradiction|reflexivity].
  - split; [now intros e [= <-]|].
    split; [split; [intros [envelope Henc]; discriminate|intros; contradiction]|].
    split; [now intros encrypted e [= <-]|].
    split; reflexivity.
Qed.

End CipherFailures.

Section SelectorClaims.

Import Service ServiceState ConfiguredService Scenarios.













End SelectorClaims.

Section VectorClaim.

Import Encryption.

Context {crypto : NodeCrypto}.

Lemma utf8_bytes_length cp :
  List.length (utf8_bytes cp)
  = if cp <? 0x80 then 1%nat
    else if cp <? 0x800 then 2%nat
    else if cp <? 0x10000 then 3%nat else 4%nat.
Proof.
  unfold utf8_bytes.
  destruct (cp <? 0x80); [reflexivity|].
  destruct (cp <? 0x800); [reflexivity|].
  destruct (cp <? 0x10000); reflexivity.
Qed.

(** A character takes at least one byte, and one outside ASCII at least
    two on average: a surrogate pair takes four. *)
Lemma utf8_encode_length_bounded n : forall s : jsstring,
  (List.length s <= n)%nat ->
  (List.length s + List.length (filter (fun u => (0x80 <=? u)%Z) s)
   <= List.length (utf8_encode s))%nat.
Proof.
  induction n as [|n IH]; intros [|u rest] Hlen; cbn [List.length] in Hlen;
    try (cbn; lia).
  cbn [utf8_encode filter List.length].
  unfold is_high_surrogate, is_low_surrogate.
  destruct (0xD800 <=? u) eqn:H1; destruct (u <=? 0xDBFF) eqn:H2; cbn [andb].
  - (* a high surrogate *)
    assert (Hu : (0x80 <=? u) = true) by lia. rewrite Hu. cbn [List.length].
    destruct rest as [|l rest']; [cbn; lia|].
    cbn [filter List.length] in *.
    destruct (0xDC00 <=? l) eqn:H3; destruct (l <=? 0xDFFF) eqn:H4; cbn [andb];
      rewrite length_app, utf8_bytes_length.
    + assert (Hl : (0x80 <=? l) = true) by lia. rewrite Hl. cbn [List.length].
      unfold pair_code_point.
      destruct (_ <? 0x80) eqn:E1; [lia|].
      destruct (_ <? 0x800) eqn:E2; [lia|].
      destruct (_ <? 0x10000) eqn:E3; [lia|].
      pose proof (IH rest' ltac:(lia)). lia.
    + pose proof (IH (l :: rest') ltac:(cbn [List.length]; lia)) as H.
      cbn [filter List.length] in H. cbn - [Z.leb filter utf8_encode]. 
      destruct (0x80 <=? l); cbn [List.length] in *; lia.
    + pose proof (IH (l :: rest') ltac:(cbn [List.length]; lia)) as H.
      cbn [filter List.length] in H. cbn - [Z.leb filter utf8_encode].
      destruct (0x80 <=? l); cbn [List.length] in *; lia.
    + pose proof (IH (l :: rest') ltac:(cbn [List.length]; lia)) as H.
      cbn [filter List.length] in H. cbn - [Z.leb filter utf8_encode].
      destruct (0x80 <=? l); cbn [List.length] in *; lia.
  - (* not a high surrogate, above the high surrogates *)
    pose proof (IH rest ltac:(lia)) as H.
    assert (Hu : (0x80 <=? u) = true) by lia. rewrite Hu. cbn [List.length].
    destruct ((0xDC00 <=? u) && (u <=? 0xDFFF));
      rewrite length_app, utf8_bytes_length.
    + cbn - [filter utf8_encode]. lia.
    + destruct (u <? 0x80) eqn:E1; [lia|].
      destruct (u <? 0x800); [lia|]. destruct (u <? 0x10000); lia.
  - (* below the surrogates *)
    pose proof (IH rest ltac:(lia)) as H.
    assert (Hlow : (0xDC00 <=? u) = false) by lia. rewrite Hlow. cbn [andb].
    rewrite length_app, utf8_bytes_length.
    destruct (0x80 <=? u) eqn:Hu; cbn [List.length].
    + destruct (u <? 0x80) eqn:E1; [lia|].
      destruct (u <? 0x800); [lia|]. destruct (u <? 0x10000); lia.
    + destruct (u <? 0x80); [lia|].
      destruct (u <? 0x800); [lia|]. destruct (u <? 0x10000); lia.
  - lia.
Qed.

Lemma not_ascii_counts (l : jsstring) :
  forallb (fun u => u <? 0x80) l = false ->
  (1 <= List.length (filter (fun u => (0x80 <=? u)%Z) l))%nat.
Proof.
  induction l as [|u r IH]; cbn [forallb filter]; [discriminate|].
  destruct (u <? 0x80) eqn:E; cbn [andb].
  - intros H. specialize (IH H). destruct (0x80 <=? u); cbn [List.length]; lia.
  - intros _. assert (Hu : (0x80 <=? u) = true) by lia. rewrite Hu. cbn [List.length]. lia.
Qed.

(** The first 16 characters of the padded vector start with those of the
    vector. *)
Lemma firstn_padEnd16 (iv : jsstring) :
  firstn 16 (padEnd16 iv)
  = (firstn 16 iv ++ firstn (16 - List.length iv) (repeat 48 (16 - List.length iv)))%list
  /\ List.length (firstn 16 (padEnd16 iv)) = 16%nat.
Proof.
  unfold padEnd16. split; [apply firstn_app|].
  rewrite length_firstn, length_app, repeat_length. lia.
Qed.

(** C4 (what the code does): for a text UTF-8 can carry and any key, the
    round trip holds when
    the first 16 characters of the initialisation vector are ASCII:
    [encrypt] returns a ciphertext from which [decrypt] gives the text
    back.  With a character outside ASCII among the first 16 the vector,
    cut to 16 characters, takes more than 16 bytes, the cipher refuses it
    and [encrypt] throws: for such a pair of key and vector there is no
    round trip. *)
Theorem encrypt_decrypt_iv :
  forall text key iv : jsstring,
    utf8_serializable text = true ->
    forallb is_unit iv = true ->
    (forallb (fun u => u <? 0x80) (firstn 16 iv) = true ->
     exists encrypted,
       encrypt text key iv = inl encrypted
       /\ decrypt encrypted key iv = inl text)
    /\ (forallb (fun u => u <? 0x80) (firstn 16 iv) = false ->
        encrypt text key iv = inr (Error "Failed to encrypt data")).
Proof.
  intros text key iv Htext Hunits.
  destruct (firstn_padEnd16 iv) as [Hcut Hcutlen]. split.
  - intros Hascii. apply decrypt_encrypt; [exact Htext|].
    unfold usable_iv. rewrite Hunits. cbn [andb]. apply Nat.eqb_eq.
    unfold formattedIV. rewrite utf8_encode_ascii; [exact Hcutlen|].
    rewrite Hcut, forallb_app. apply andb_true_iff. split.
    + apply forallb_forall. intros u Hu.
      pose proof (proj1 (forallb_forall _ _) Hascii u Hu) as Hlt.
      assert (Hiv : In u iv)
        by (rewrite <- (firstn_skipn 16 iv); apply in_or_app; now left).
      pose proof (proj1 (forallb_forall _ _) Hunits u Hiv) as Hu'.
      apply is_unit_iff in Hu'. cbv beta in Hlt. lia.
    + apply forallb_firstn, forallb_repeat. reflexivity.
  - intros Hwide.
    pose proof (utf8_encode_length_bounded _ (firstn 16 (padEnd16 iv)) (Nat.le_refl _))
      as Hlen.
    rewrite Hcutlen in Hlen. rewrite Hcut, filter_app, length_app in Hlen.
    pose proof (not_ascii_counts _ Hwide) as Hone.
    unfold encrypt, valid_key_iv.
    assert (E : (List.length (formattedIV iv) =? 16)%nat = false).
    { apply Nat.eqb_neq. unfold formattedIV. rewrite Hcut in *. lia. }
    rewrite E, andb_false_r. reflexivity.
Qed.

End VectorClaim.

(** The vector [é], one character outside ASCII: [encrypt] throws. *)
Lemma encrypt_decrypt_iv_example :
  Encryption.utf8_serializable (Encryption.js "4111 1111") = true
  /\ forallb Encryption.is_unit [0xE9] = true
  /\ forallb (fun u => u <? 0x80) (firstn 16 [0xE9]) = false
  /\ @Encryption.encrypt Encryption.toy_crypto (Encryption.js "4111 1111")
       (Encryption.js "test-encryption-key") [0xE9]
     = inr (Error "Failed to encrypt data").
Proof.
  split; [reflexivity|]. split; [reflexivity|]. split; [reflexivity|].
  apply (proj2 (@encrypt_decrypt_iv Encryption.toy_crypto (Encryption.js "4111 1111")
                  (Encryption.js "test-encryption-key") [0xE9] eq_refl eq_refl)).
  reflexivity.
Defined.

Section MoreInstances.

Import Status Retry ConfiguredService Service ServiceState Builders Examples.


(** A first selection among two fetched subaccounts. *)
Lemma selectOptimalSubaccount_member_example :
  reachable JsMap.empty
  /\ ["A"; "B"] <> []
  /\ exists id,
       fst (selectOptimalSubaccount ["A"; "B"] 1000 JsMap.empty) = Some id
       /\ In id ["A"; "B"]
       /\ JsMap.has id (snd (selectOptimalSubaccount ["A"; "B"] 1000 JsMap.empty)) = true.
Proof.
  split; [apply reach_init|]. split; [discriminate|].
  apply (proj2 (selectOptimalSubaccount_member JsMap.empty ["A"; "B"] 1000 reach_init)).
  discriminate.
Defined.


(** A second selection leaves the counters of A as they were. *)
Lemma selectOptimalSubaccount_touches_lastUsed_only_example :
  let v := mkMetrics "A" 1 1000 0 0 in
  reachable first_selection
  /\ JsMap.get "A" first_selection = Some v
  /\ exists v',
       JsMap.get "A" (snd (selectOptimalSubaccount ["A"; "B"] 2000 first_selection))
       = Some v'
       /\ same_counters v v'
       /\ ((fst (selectOptimalSubaccount ["A"; "B"] 2000 first_selection) = Some "A"
            /\ lastUsed v' = 2000)
           \/ (fst (selectOptimalSubaccount ["A"; "B"] 2000 first_selection) <> Some "A"
               /\ lastUsed v' = lastUsed v)).
Proof.
  cbv zeta.
  split; [apply reach_select, reach_init|]. split; [reflexivity|].
  apply (selectOptimalSubaccount_touches_lastUsed_only first_selection ["A"; "B"] 2000
           "A" (mkMetrics "A" 1 1000 0 0)).
  - apply reach_select, reach_init.
  - reflexivity.
Defined.

(** One subaccount, below the default threshold. *)
Lemma selectBestSubaccount_null_example :
  let m := [("A", mkMetrics "A" (1 # 2) 0 10 5)] in
  (0 <= successRateWeight defaultConfig)%Q
  /\ (0 <= recencyWeight defaultConfig)%Q
  /\ (0 <= minSuccessRate defaultConfig)%Q
  /\ (selectBestSubaccount defaultConfig 1000 m = None
      <-> forall k v, In (k, v) m -> (successRate v < minSuccessRate defaultConfig)%Q).
Proof.
  cbv zeta.
  split; [unfold Qle; simpl; lia|].
  split; [unfold Qle; simpl; lia|].
  split; [unfold Qle; simpl; lia|].
  apply (selectBestSubaccount_null defaultConfig 1000);
    unfold Qle; simpl; lia.
Defined.

(** A subaccount first heard of through a failure, under the default
    threshold. *)
Lemma configured_failed_newcomer_not_selected_example :
  (0 < minSuccessRate defaultConfig)%Q
  /\ JsMap.get "A" JsMap.empty = None
  /\ selectBestSubaccount defaultConfig 2000
       (ConfiguredService.updateSubaccountMetrics "A" false 1000 JsMap.empty)
     <> Some "A".
Proof.
  split; [reflexivity|]. split; [reflexivity|].
  apply (configured_failed_newcomer_not_selected defaultConfig JsMap.empty "A" 1000 2000);
    reflexivity.
Defined.

(** A payment without an envelope. *)
Lemma authorizePayment_rejects_with_PaymentError_example :
  let e :=
    PaymentError "Failed to authorize payment: No encrypted card details found"
      (ValidationError "No encrypted card details found") in
  fst (@Orchestrator.authorizePayment Encryption.toy_crypto sample_config
         charge_gateway parse_card bare_payment Orchestrator.initial_world) = inr e
  /\ exists original,
       e = PaymentError
             ("Failed to authorize payment: " ++ Orchestrator.errorMessage original)
             original.
Proof.
  cbv zeta. split; [reflexivity|].
  apply (@authorizePayment_rejects_with_PaymentError Encryption.toy_crypto
           sample_config charge_gateway parse_card bare_payment
           Orchestrator.initial_world).
  reflexivity.
Defined.

(** A payment carrying the envelope of a card text for subaccount sub-1. *)
Lemma authorizePayment_charges_envelope_subaccount_example :
  exists envelope,
    @Encryption.encrypt Encryption.toy_crypto card_text
      (Orchestrator.encryption_key sample_config)
      (Orchestrator.encryption_iv sample_config) = inl envelope
    /\ @Orchestrator.authorizePayment Encryption.toy_crypto sample_config
         charge_gateway parse_card
         (Orchestrator.mkPayment "ref-1" 1999 "USD" (Some "tx-1") (Some envelope))
         Orchestrator.initial_world
       = (inl (Orchestrator.mkOutput "ref-1" SUCCESS "Approved" None None None),
          Orchestrator.mkWorld JsMap.empty
            [Orchestrator.PostCharge
               (Orchestrator.mkChargePayload (Some "tx-1")
                  (Orchestrator.formatAmount 1999) "USD" (Some "sub-1"))]
            []).
Proof.
  destruct (@Encryption.encrypt Encryption.toy_crypto card_text
              (Orchestrator.encryption_key sample_config)
              (Orchestrator.encryption_iv sample_config))
    as [envelope|e] eqn:Henc; [|vm_compute in Henc; discriminate].
  exists envelope. split; [reflexivity|].
  apply (@authorizePayment_charges_envelope_subaccount Encryption.toy_crypto
           sample_config charge_gateway parse_card
           (Orchestrator.mkPayment "ref-1" 1999 "USD" (Some "tx-1") (Some envelope))
           Orchestrator.initial_world card_text envelope "sub-1" charge_body
           (Orchestrator.mkResponseData (Some "ref-1") (Some "success") None));
    try reflexivity; [exact Henc | discriminate].
Defined.

(** A retrieval whose embedded gateway response is not JSON. *)
Lemma retrievePayment_gateway_response_example :
  "pay-1" <> ""
  /\ "{bad" <> ""
  /\ parse_nothing "{bad" = Orchestrator.GatewaySyntaxError
  /\ fst (Orchestrator.retrievePayment retrieval_gateway parse_nothing "pay-1"
            Orchestrator.initial_world)
     = inl (Orchestrator.mkOutput "pay-1" SUCCESS "Payment retrieved"
              (Some "") (Some "") (Some "")).
Proof.
  split; [discriminate|]. split; [discriminate|]. split; [reflexivity|].
  apply (proj1 (retrievePayment_gateway_response retrieval_gateway parse_nothing
                  "pay-1" Orchestrator.initial_world retrieval_body
                  (Orchestrator.mkResponseData None (Some "completed") (Some "{bad"))
                  "{bad" ltac:(discriminate) eq_refl eq_refl eq_refl
                  ltac:(discriminate))).
  reflexivity.
Defined.

(** A two-letter code that is neither GB nor CA. *)
Lemma normalizeCountryCode_cases_example :
  " ng " <> ""
  /\ trim (toUpperCase " ng ") = "NG"
  /\ normalizeCountryCode (Some " ng ") = "USA".
Proof.
  split; [discriminate|]. split; [reflexivity|].
  apply (proj2 (proj1 (proj2 (normalizeCountryCode_cases " ng " ltac:(discriminate)))
                  eq_refl));
    discriminate.
Defined.

(** The subaccounts are listed, A is selected, and the initialize request
    is rejected with status 500 at every attempt. *)
Lemma initializePayment_records_gateway_failure_example :
  Service.selectOptimalSubaccount ["A"; "B"] 1000 JsMap.empty
  = (Some "A", first_selection)
  /\ (exists original,
         fst (@Lifecycle.initializePayment Encryption.toy_crypto sample_config
                listing_gateway stringify_card sample_payment 1000 empty_world)
         = inr (PaymentError
                  ("Failed to initialize payment: "
                   ++ Orchestrator.errorMessage original) original))
  /\ Lifecycle.metrics
       (snd (@Lifecycle.initializePayment Encryption.toy_crypto sample_config
               listing_gateway stringify_card sample_payment 1000 empty_world))
     = Service.updateSubaccountMetrics "A" false first_selection.
Proof.
  split; [reflexivity|].
  apply (@initializePayment_records_gateway_failure Encryption.toy_crypto
           sample_config listing_gateway stringify_card sample_payment 1000
           empty_world subaccounts_body ["A"; "B"] "A" first_selection).
  - reflexivity.
  - reflexivity.
  - reflexivity.
  - discriminate.
  - intros n. exists (http_failure 500). reflexivity.
Defined.

(** Both requests are answered: the envelope returned opens to the card
    text for subaccount A. *)
Lemma initializePayment_envelope_example :
  exists envelope,
    @Lifecycle.initializePayment Encryption.toy_crypto sample_config
      accepting_gateway stringify_card sample_payment 1000 empty_world
    = (inl (Lifecycle.mkInitializeOutput (Some "tx-1")
              (handleRexpayResponseStatus (Some "success"))
              (or_else (Lifecycle.body_message initialized_body) "Payment initialized")
              (or_else (Some "sess-1") "") envelope "A"),
       Lifecycle.mkWorld
         (Service.updateSubaccountMetrics "A"
            (match handleRexpayResponseStatus (Some "success") with
             | FAILED => false
             | _ => true
             end) first_selection)
         (Lifecycle.sent empty_world
          ++ [Lifecycle.GetSubaccounts;
              Lifecycle.PostInitialize (Lifecycle.initialize_payload sample_payment "A")])%list
         (Lifecycle.waited empty_world))
    /\ @Encryption.decrypt Encryption.toy_crypto envelope
         (Orchestrator.encryption_key sample_config)
         (Orchestrator.encryption_iv sample_config)
       = inl (stringify_card (Lifecycle.card sample_payment) "A").
Proof.
  apply (@initializePayment_envelope Encryption.toy_crypto sample_config
           accepting_gateway stringify_card sample_payment 1000 empty_world
           subaccounts_body initialized_body ["A"; "B"] "A" first_selection
           (Some "tx-1") (Some "sess-1") (Some "success") (Some "ref-1"));
    reflexivity.
Defined.

(** Both requests are answered but the initialisation vector is not
    accepted: A is charged with the success and then with a failure. *)
Lemma initializePayment_counts_twice_example :
  @Encryption.encrypt Encryption.toy_crypto
    (stringify_card (Lifecycle.card sample_payment) "A")
    (Orchestrator.encryption_key wide_iv_config)
    (Orchestrator.encryption_iv wide_iv_config)
  = inr (Error "Failed to encrypt data")
  /\ fst (@Lifecycle.initializePayment Encryption.toy_crypto wide_iv_config
            accepting_gateway stringify_card sample_payment 1000 empty_world)
     = inr (PaymentError
              ("Failed to initialize payment: "
               ++ Orchestrator.errorMessage (Error "Failed to encrypt data"))
              (Error "Failed to encrypt data"))
  /\ Lifecycle.metrics
       (snd (@Lifecycle.initializePayment Encryption.toy_crypto wide_iv_config
               accepting_gateway stringify_card sample_payment 1000 empty_world))
     = Service.updateSubaccountMetrics "A" false
         (Service.updateSubaccountMetrics "A"
            (match handleRexpayResponseStatus (Some "success") with
             | FAILED => false
             | _ => true
             end) first_selection).
Proof.
  split; [reflexivity|].
  apply (@initializePayment_counts_twice Encryption.toy_crypto wide_iv_config
           accepting_gateway stringify_card sample_payment 1000 empty_world
           subaccounts_body initialized_body ["A"; "B"] "A" first_selection
           (Some "tx-1") (Some "sess-1") (Some "success") (Some "ref-1")
           (Error "Failed to encrypt data"));
    try reflexivity.
  discriminate.
Defined.

End MoreInstances.
